(** * Video-URL resolution pipeline of Meeting-Video-Scraper

    A shallow embedding of the three scripts under [src/video_extractor]:

    - [extract_video_urls.py]       (module [ExtractVideoUrls])
    - [extract_embedded_videos.py]  (module [ExtractEmbeddedVideos])
    - [test_yt_dlp_urls.py]         (module [TestYtDlpUrls])

    Python exceptions are values of [exn]; a computation that may raise
    returns a [result]; calls that leave the process (yt-dlp, a subprocess,
    an HTTP GET) are answered by a [World] and recorded in a trace of
    [event]s by the monad [M], together with the warnings and errors
    written to the log; [logger.info] records are left out.  Strings are
    byte strings: the model covers ASCII text. *)

From Stdlib Require Import List String Ascii ZArith Bool Arith Lia Permutation
  DecimalString.
Import ListNotations.
Open Scope string_scope.
Open Scope list_scope.

Set Implicit Arguments.
Set Warnings "-register-all".

(** String concatenation, Python's [+] on [str]. *)
Infix "+++" := String.append (right associativity, at level 60).

(* ================================================================== *)
(** * Python exceptions and results *)

(** The exception classes the scripts can meet.  [KeyboardInterrupt] stands
    for the classes that derive from [BaseException] but not from
    [Exception]. *)
Inductive exn : Type :=
| ImportError (msg : string)
| TimeoutExpired (msg : string)        (* subprocess.TimeoutExpired *)
| CalledProcessError (msg : string)    (* another subprocess.SubprocessError *)
| RequestException (msg : string)      (* requests: connection error, timeout *)
| HTTPError (msg : string)             (* response.raise_for_status() *)
| ValueError (msg : string)
| TypeError (msg : string)
| KeyError (msg : string)
| OtherException (msg : string)        (* any other subclass of Exception *)
| KeyboardInterrupt.

(** [isinstance(e, ImportError)] *)
Definition is_ImportError (e : exn) : bool :=
  match e with ImportError _ => true | _ => false end.

(** [isinstance(e, subprocess.TimeoutExpired)] *)
Definition is_TimeoutExpired (e : exn) : bool :=
  match e with TimeoutExpired _ => true | _ => false end.

(** [isinstance(e, subprocess.SubprocessError)]: [TimeoutExpired] and
    [CalledProcessError] are its subclasses. *)
Definition is_SubprocessError (e : exn) : bool :=
  match e with TimeoutExpired _ | CalledProcessError _ => true | _ => false end.

(** [isinstance(e, Exception)] *)
Definition is_Exception (e : exn) : bool :=
  match e with KeyboardInterrupt => false | _ => true end.

(** [str(e)] *)
Definition exn_str (e : exn) : string :=
  match e with
  | ImportError m | TimeoutExpired m | CalledProcessError m
  | RequestException m | HTTPError m | ValueError m | TypeError m
  | KeyError m | OtherException m => m
  | KeyboardInterrupt => ""
  end.

Inductive result (A : Type) : Type :=
| Return (a : A)
| Raise (e : exn).
Arguments Return {A} a.
Arguments Raise {A} e.

Definition rbind {A B} (r : result A) (f : A -> result B) : result B :=
  match r with Return a => f a | Raise e => Raise e end.

(** [try: r  except <handler>]: the handler answers [None] for an exception
    none of its clauses catches. *)
Definition rtry {A} (r : result A) (handler : exn -> option (result A))
  : result A :=
  match r with
  | Return a => Return a
  | Raise e => match handler e with Some r' => r' | None => Raise e end
  end.

(* ================================================================== *)
(** * The outside world and the trace of calls *)

(** A value of a [ydl_opts] dictionary. *)
Inductive opt_value : Type :=
| OBool (b : bool)
| OStr (s : string).

(** [subprocess.CompletedProcess] as far as the scripts read it. *)
Record CompletedProcess : Type := {
  returncode : Z;
  stderr : string
}.

(** [requests.Response] as far as the scripts read it; [url] is the final
    URL after redirects. *)
Record Response : Type := {
  status_code : Z;
  reason : string;
  text : string;
  url : string
}.

Inductive log_level : Type := WARNING | ERROR.

(** Calls that leave the process and log records, in the order they are
    made. *)
Inductive event : Type :=
| EvExtractInfo (u : string)            (* ydl.extract_info(u, download=False) *)
| EvSubprocessRun (argv : list string)  (* subprocess.run(argv, ...) *)
| EvRequestsGet (u : string)            (* requests.get(u, ...) *)
| EvLog (level : log_level) (msg : string).  (* logger.warning, logger.error *)

(** A computation with a trace of events and a possible exception. *)
Definition M (A : Type) : Type := (result A * list event)%type.

Definition ret {A} (a : A) : M A := (Return a, []).

Definition raise {A} (e : exn) : M A := (Raise e, []).

Definition bind {A B} (m : M A) (f : A -> M B) : M B :=
  match m with
  | (Return a, t) => let '(r, t') := f a in (r, t ++ t')
  | (Raise e, t) => (Raise e, t)
  end.

(** [try: m  except ...]: the events of the body stay in the trace. *)
Definition try_except {A} (m : M A) (handler : exn -> option (M A)) : M A :=
  match m with
  | (Return a, t) => (Return a, t)
  | (Raise e, t) =>
      match handler e with
      | Some h => let '(r, t') := h in (r, t ++ t')
      | None => (Raise e, t)
      end
  end.

Definition lift {A} (r : result A) : M A := (r, []).

Definition emit {A} (ev : event) (r : result A) : M A := (r, [ev]).

(** [logger.warning(msg)] and [logger.error(msg)] *)
Definition log (level : log_level) (msg : string) : M unit :=
  (Return tt, [EvLog level msg]).

Notation "x <- m ;; k" := (bind m (fun x => k))
  (at level 61, m at next level, right associativity).
Notation "' pat <- m ;; k" := (bind m (fun x => match x with pat => k end))
  (at level 61, pat pattern, m at next level, right associativity).

Definition outcome {A} (m : M A) : result A := fst m.
Definition trace {A} (m : M A) : list event := snd m.

(* ================================================================== *)
(** * Strings: the [str] methods the scripts use *)

Definition ascii_in (lo hi : nat) (a : ascii) : bool :=
  let n := nat_of_ascii a in Nat.leb lo n && Nat.leb n hi.

(** [c.lower()] on an ASCII character. *)
Definition lower_ascii (a : ascii) : ascii :=
  if ascii_in 65 90 a then ascii_of_nat (nat_of_ascii a + 32) else a.

(** [s.lower()] *)
Fixpoint lower (s : string) : string :=
  match s with
  | EmptyString => EmptyString
  | String a t => String (lower_ascii a) (lower t)
  end.

(** [s.startswith(p)] *)
Definition startswith (s p : string) : bool := String.prefix p s.

(** [sub in s] *)
Fixpoint contains (sub s : string) : bool :=
  String.prefix sub s
  || match s with
     | EmptyString => false
     | String _ t => contains sub t
     end.

(** [c in s] for one character. *)
Fixpoint has_char (c : ascii) (s : string) : bool :=
  match s with
  | EmptyString => false
  | String a t => Ascii.eqb a c || has_char c t
  end.

(** [s.split(c, 1)] when [c] occurs in [s]: the text before and after its
    first occurrence. *)
Fixpoint split_once (c : ascii) (s : string) : option (string * string) :=
  match s with
  | EmptyString => None
  | String a t =>
      if Ascii.eqb a c then Some (EmptyString, t)
      else match split_once c t with
           | Some (l, r) => Some (String a l, r)
           | None => None
           end
  end.

(** The text before and after the last occurrence of [c]
    ([s[:s.rfind(c)]] and [s[s.rfind(c)+1:]]). *)
Fixpoint rsplit_once (c : ascii) (s : string) : option (string * string) :=
  match s with
  | EmptyString => None
  | String a t =>
      match rsplit_once c t with
      | Some (l, r) => Some (String a l, r)
      | None => if Ascii.eqb a c then Some (EmptyString, t) else None
      end
  end.

(** [s.split(c)] *)
Fixpoint split (c : ascii) (s : string) : list string :=
  match s with
  | EmptyString => [EmptyString]
  | String a t =>
      if Ascii.eqb a c then EmptyString :: split c t
      else match split c t with
           | h :: r => String a h :: r
           | [] => [String a EmptyString]
           end
  end.

(** The longest prefix without a character satisfying [p], and the rest. *)
Fixpoint span_until (p : ascii -> bool) (s : string) : string * string :=
  match s with
  | EmptyString => (EmptyString, EmptyString)
  | String a t =>
      if p a then (EmptyString, s)
      else let '(l, r) := span_until p t in (String a l, r)
  end.

(** [s.lstrip(chars)] with the character set given as a predicate. *)
Fixpoint lstrip (p : ascii -> bool) (s : string) : string :=
  match s with
  | EmptyString => EmptyString
  | String a t => if p a then lstrip p t else s
  end.

(** [s.rstrip(chars)] *)
Fixpoint rstrip (p : ascii -> bool) (s : string) : string :=
  match s with
  | EmptyString => EmptyString
  | String a t =>
      match rstrip p t with
      | EmptyString => if p a then EmptyString else String a EmptyString
      | t' => String a t'
      end
  end.

(** [s.strip(chars)] *)
Definition strip (p : ascii -> bool) (s : string) : string :=
  rstrip p (lstrip p s).

(** Deleting every character that satisfies [p] ([s.replace(b, "")] for
    each such one-character [b]). *)
Fixpoint remove_chars (p : ascii -> bool) (s : string) : string :=
  match s with
  | EmptyString => EmptyString
  | String a t => if p a then remove_chars p t else String a (remove_chars p t)
  end.

(** Every character of [s] satisfies [p]. *)
Fixpoint all_chars (p : ascii -> bool) (s : string) : bool :=
  match s with
  | EmptyString => true
  | String a t => p a && all_chars p t
  end.

(** [x in l] for a list of strings. *)
Definition str_in (x : string) (l : list string) : bool :=
  existsb (String.eqb x) l.

(** The double and the single quote character. *)
Definition dquote : ascii := ascii_of_nat 34.
Definition squote : ascii := ascii_of_nat 39.

(** [repr(s)] of a string. *)
Definition hex_digit (n : nat) : ascii :=
  ascii_of_nat (if Nat.ltb n 10 then 48 + n else 87 + n).

Definition repr_char (quote_char : ascii) (a : ascii) : string :=
  let n := nat_of_ascii a in
  if Ascii.eqb a quote_char || Ascii.eqb a "\" then String "\" (String a "")
  else if Nat.eqb n 9 then "\t"
  else if Nat.eqb n 10 then "\n"
  else if Nat.eqb n 13 then "\r"
  else if Nat.ltb n 32 || (Nat.leb 127 n && Nat.leb n 160) || Nat.eqb n 173
  then String "\" (String "x" (String (hex_digit (n / 16))
                                  (String (hex_digit (n mod 16)) "")))
  else String a "".

Fixpoint repr_body (quote_char : ascii) (s : string) : string :=
  match s with
  | EmptyString => EmptyString
  | String a t => repr_char quote_char a +++ repr_body quote_char t
  end.

Definition repr (s : string) : string :=
  let quote_char :=
    if has_char squote s && negb (has_char dquote s) then dquote else squote in
  String quote_char (repr_body quote_char s) +++ String quote_char "".

(* ================================================================== *)
(** * Regular expressions: the part of [re] the scripts use

    Backtracking matching as in Python's [re]: alternatives are tried from
    the left, repetition is greedy, the first successful path wins. *)

Inductive cset_item : Type :=
| CChar (c : ascii)
| CSpace.                                (* \s *)

Inductive regex : Type :=
| RLit (l : string)                              (* literal text *)
| RClass (negated : bool) (items : list cset_item)  (* [...], [^...], \s *)
| RSeq (r1 r2 : regex)
| RAlt (r1 r2 : regex)
| RStar (r : regex)                              (* r*, greedy *)
| RGroup (i : nat) (r : regex).                  (* i-th capturing group *)

(** [r+] and [r?] *)
Definition RPlus (r : regex) : regex := RSeq r (RStar r).
Definition ROpt (r : regex) : regex := RAlt r (RLit "").

Fixpoint RSeqs (rs : list regex) : regex :=
  match rs with
  | [] => RLit ""
  | [r] => r
  | r :: rs' => RSeq r (RSeqs rs')
  end.

Fixpoint RAlts (rs : list regex) : regex :=
  match rs with
  | [] => RClass false []
  | [r] => r
  | r :: rs' => RAlt r (RAlts rs')
  end.

(** The text of the groups matched so far, latest first. *)
Definition caps : Type := list (nat * string).

Fixpoint group (c : caps) (i : nat) : string :=
  match c with
  | [] => ""
  | (j, s) :: c' => if Nat.eqb i j then s else group c' i
  end.

(** [str.isspace] on ASCII: what [\s] matches. *)
Definition is_space (a : ascii) : bool :=
  ascii_in 9 13 a || ascii_in 28 32 a.

Section Matcher.

(** [re.IGNORECASE] *)
Variable ignorecase : bool.

Definition char_eq (a b : ascii) : bool :=
  if ignorecase then Ascii.eqb (lower_ascii a) (lower_ascii b)
  else Ascii.eqb a b.

Definition item_matches (a : ascii) (it : cset_item) : bool :=
  match it with
  | CChar c => char_eq a c
  | CSpace => is_space a
  end.

Definition class_matches (negated : bool) (items : list cset_item)
           (a : ascii) : bool :=
  xorb negated (existsb (item_matches a) items).

(** Consume the literal [l] at the head of [s]. *)
Fixpoint eat (l s : string) : option string :=
  match l, s with
  | EmptyString, _ => Some s
  | String a l', String b s' => if char_eq b a then eat l' s' else None
  | String _ _, EmptyString => None
  end.

(** A match in progress: the text left and the groups. *)
Definition cont : Type := string -> caps -> option (string * caps).

(** Greedy repetition of [step], at most [n] times: one more round when
    it consumes something and the rest then matches, else on with [k]. *)
Fixpoint star (step : string -> caps -> cont -> option (string * caps))
         (k : cont) (n : nat) (s : string) (c : caps)
  : option (string * caps) :=
  match n with
  | O => k s c
  | S n' =>
      match step s c
                 (fun s' c' =>
                    if Nat.ltb (String.length s') (String.length s)
                    then star step k n' s' c' else None) with
      | Some x => Some x
      | None => k s c
      end
  end.

(** [rmatch r s c k]: match [r] at the head of [s], then go on with [k];
    [None] makes the matcher backtrack. *)
Fixpoint rmatch (r : regex) (s : string) (c : caps) (k : cont)
  : option (string * caps) :=
  match r with
  | RLit l =>
      match eat l s with
      | Some s' => k s' c
      | None => None
      end
  | RClass negated items =>
      match s with
      | String a s' => if class_matches negated items a then k s' c else None
      | EmptyString => None
      end
  | RSeq r1 r2 => rmatch r1 s c (fun s' c' => rmatch r2 s' c' k)
  | RAlt r1 r2 =>
      match rmatch r1 s c k with
      | Some x => Some x
      | None => rmatch r2 s c k
      end
  | RStar r1 => star (rmatch r1) k (String.length s) s c
  | RGroup i r1 =>
      rmatch r1 s c
        (fun s' c' =>
           k s' ((i, substring 0 (String.length s - String.length s') s) :: c'))
  end.

(** One match object: [group(0)] and the numbered groups. *)
Record match_obj : Type := {
  group0 : string;
  groups : caps
}.

(** [re.finditer(r, s)]: the matches from left to right, without overlap.
    (None of the scripts' patterns matches the empty string.) *)
Fixpoint scan (r : regex) (fuel : nat) (s : string) : list match_obj :=
  match fuel with
  | O => []
  | S fuel' =>
      match rmatch r s [] (fun s' c' => Some (s', c')) with
      | Some (s', c') =>
          {| group0 := substring 0 (String.length s - String.length s') s;
             groups := c' |}
          :: (if Nat.ltb (String.length s') (String.length s) then scan r fuel' s'
              else match s with
                   | String _ t => scan r fuel' t
                   | EmptyString => []
                   end)
      | None =>
          match s with
          | String _ t => scan r fuel' t
          | EmptyString => []
          end
      end
  end.

Definition finditer (r : regex) (s : string) : list match_obj :=
  scan r (S (String.length s)) s.

(** [re.findall(r, s)] for a pattern with [n] groups: the tuple of the
    groups 1..n of every match (index 0..n-1 in the tuple); a group that
    took no part in the match is the empty string. *)
Definition findall (n : nat) (r : regex) (s : string) : list (list string) :=
  map (fun m => map (group (groups m)) (seq 1 n)) (finditer r s).

End Matcher.

(* ================================================================== *)
(** * [ipaddress]: which texts are addresses *)

(** The module [ipaddress] as far as [urlsplit] needs it: whether
    [IPv4Address] and [IPv6Address] accept a text. *)
Module IpAddress.

Definition is_digit (a : ascii) : bool := ascii_in 48 57 a.

Definition is_hex_digit (a : ascii) : bool :=
  is_digit a || ascii_in 65 70 a || ascii_in 97 102 a.

(** The value of a text of decimal digits. *)
Definition decimal (s : string) : Z :=
  (fix go (s : string) (acc : Z) : Z :=
     match s with
     | EmptyString => acc
     | String a t => go t (10 * acc + (Z.of_nat (nat_of_ascii a) - 48))%Z
     end) s 0%Z.

(** [IPv4Address._parse_octet] does not raise. *)
Definition octet (octet_str : string) : bool :=
  match octet_str with
  | EmptyString => false
  | String a0 _ =>
      if negb (all_chars is_digit octet_str) then false
      else if Nat.ltb 3 (String.length octet_str) then false
      else if negb (String.eqb octet_str "0") && Ascii.eqb a0 "0" then false
      else (decimal octet_str <=? 255)%Z
  end.

(** [IPv4Address(address)] does not raise. *)
Definition IPv4Address (address : string) : bool :=
  negb (has_char "/" address)
  && negb (String.eqb address "")
  && Nat.eqb (List.length (split "." address)) 4
  && forallb octet (split "." address).

(** [IPv6Address._parse_hextet] does not raise. *)
Definition hextet (hextet_str : string) : bool :=
  all_chars is_hex_digit hextet_str
  && Nat.leb (String.length hextet_str) 4
  && negb (String.eqb hextet_str "").

(** The indices from 1 to [len - 2] of the empty parts. *)
Definition skip_indices (parts : list string) : list nat :=
  filter (fun i => String.eqb (nth i parts "x") "")
         (seq 1 (List.length parts - 2)).

(** [IPv6Address._ip_int_from_string] does not raise. *)
Definition ip_int_from_string (ip_str : string) : bool :=
  if String.eqb ip_str "" then false
  else
    let parts := split ":" ip_str in
    if Nat.ltb (List.length parts) 3 then false
    else
      let ipv4_ok :=
        if has_char "." (last parts "") then IPv4Address (last parts "")
        else true in
      let parts :=
        if has_char "." (last parts "")
        then removelast parts ++ ["0"; "0"] else parts in
      if negb ipv4_ok then false
      else if Nat.ltb 9 (List.length parts) then false
      else
        let len := List.length parts in
        match skip_indices parts with
        | [skip_index] =>
            let parts_hi := skip_index in
            let parts_lo := len - skip_index - 1 in
            let head_empty := String.eqb (nth 0 parts "") "" in
            let tail_empty := String.eqb (last parts "") "" in
            let parts_hi := if head_empty then parts_hi - 1 else parts_hi in
            let parts_lo := if tail_empty then parts_lo - 1 else parts_lo in
            if head_empty && negb (Nat.eqb parts_hi 0) then false
            else if tail_empty && negb (Nat.eqb parts_lo 0) then false
            else if Nat.ltb 7 (parts_hi + parts_lo) then false
            else forallb hextet (firstn parts_hi parts)
                 && forallb hextet (skipn (len - parts_lo) parts)
        | [] =>
            Nat.eqb len 8
            && negb (String.eqb (nth 0 parts "") "")
            && negb (String.eqb (last parts "") "")
            && forallb hextet parts
        | _ => false
        end.

(** [IPv6Address(address)] does not raise. *)
Definition IPv6Address (address : string) : bool :=
  negb (has_char "/" address)
  && match split_once "%" address with
     | None => ip_int_from_string address
     | Some (addr, scope_id) =>
         negb (String.eqb scope_id "") && negb (has_char "%" scope_id)
         && ip_int_from_string addr
     end.

End IpAddress.

(* ================================================================== *)
(** * [urllib.parse]: [urlsplit], [urlparse], [urlunparse], [urljoin]

    The standard library's algorithm on ASCII text, as CPython has it since
    the releases that check a host in square brackets (3.11.4) and what
    stands around the brackets (the security releases of 2025): such a
    host is an IPv6 address or an IPvFuture literal, or [urlsplit] raises
    [ValueError]. *)

Module UrlParse.

Definition uses_relative : list string :=
  [""; "ftp"; "http"; "gopher"; "nntp"; "imap"; "wais"; "file"; "https";
   "shttp"; "mms"; "prospero"; "rtsp"; "rtsps"; "rtspu"; "sftp"; "svn";
   "svn+ssh"; "ws"; "wss"].

Definition uses_netloc : list string :=
  [""; "ftp"; "http"; "gopher"; "nntp"; "telnet"; "imap"; "wais"; "file";
   "mms"; "https"; "shttp"; "snews"; "prospero"; "rtsp"; "rtsps"; "rtspu";
   "rsync"; "svn"; "svn+ssh"; "sftp"; "nfs"; "git"; "git+ssh"; "ws"; "wss"].

Definition uses_params : list string :=
  [""; "ftp"; "hdl"; "prospero"; "http"; "imap"; "https"; "shttp"; "rtsp";
   "rtsps"; "rtspu"; "sip"; "sips"; "mms"; "sftp"; "tel"].

(** [c.isascii() and c.isalpha()] *)
Definition is_alpha (a : ascii) : bool :=
  ascii_in 65 90 a || ascii_in 97 122 a.

(** [c in scheme_chars]: letters, digits, [+], [-], [.] *)
Definition is_scheme_char (a : ascii) : bool :=
  is_alpha a || ascii_in 48 57 a
  || Ascii.eqb a "+" || Ascii.eqb a "-" || Ascii.eqb a ".".

(** [_WHATWG_C0_CONTROL_OR_SPACE]: the characters 0x00 to 0x20. *)
Definition is_c0_or_space (a : ascii) : bool := ascii_in 0 32 a.

(** [_UNSAFE_URL_BYTES_TO_REMOVE]: tab, carriage return, line feed. *)
Definition is_unsafe (a : ascii) : bool :=
  Ascii.eqb a (ascii_of_nat 9) || Ascii.eqb a (ascii_of_nat 13)
  || Ascii.eqb a (ascii_of_nat 10).

Record SplitResult : Type := {
  s_scheme : string;
  s_netloc : string;
  s_path : string;
  s_query : string;
  s_fragment : string
}.

Record ParseResult : Type := {
  scheme : string;
  netloc : string;
  path : string;
  params : string;
  query : string;
  fragment : string
}.

(** [_splitnetloc(url, 2)] for a [url] that starts with two slashes. *)
Definition splitnetloc (url : string) : string * string :=
  span_until (fun a => Ascii.eqb a "/" || Ascii.eqb a "?" || Ascii.eqb a "#")
             (substring 2 (String.length url - 2) url).

(** [_check_bracketed_host(hostname)] *)
Definition check_bracketed_host (hostname : string) : result unit :=
  if String.prefix "v" hostname then
    let '(digits, rest) :=
      span_until (fun a => negb (IpAddress.is_hex_digit a))
                 (substring 1 (String.length hostname - 1) hostname) in
    if negb (String.eqb digits "") && String.prefix "." rest
       && Nat.ltb 1 (String.length rest)
    then Return tt
    else Raise (ValueError "IPvFuture address is invalid")
  else if IpAddress.IPv4Address hostname
  then Raise (ValueError "An IPv4 address cannot be in brackets")
  else if IpAddress.IPv6Address hostname then Return tt
  else Raise (ValueError (repr hostname
                          +++ " does not appear to be an IPv4 or IPv6 address")).

(** [_check_bracketed_netloc(netloc)] *)
Definition check_bracketed_netloc (netloc : string) : result unit :=
  let hostname_and_port :=
    match rsplit_once "@" netloc with
    | Some (_, r) => r
    | None => netloc
    end in
  match split_once "[" hostname_and_port with
  | Some (before_bracket, bracketed) =>
      if negb (String.eqb before_bracket "")
      then Raise (ValueError "Invalid IPv6 URL")
      else
        let '(hostname, port) :=
          match split_once "]" bracketed with
          | Some (h, p) => (h, p)
          | None => (bracketed, "")
          end in
        if negb (String.eqb port "") && negb (String.prefix ":" port)
        then Raise (ValueError "Invalid IPv6 URL")
        else check_bracketed_host hostname
  | None =>
      check_bracketed_host
        (match split_once ":" hostname_and_port with
         | Some (h, _) => h
         | None => hostname_and_port
         end)
  end.

Definition urlsplit (url scheme : string) : result SplitResult :=
  let url := lstrip is_c0_or_space url in
  let scheme := strip is_c0_or_space scheme in
  let url := remove_chars is_unsafe url in
  let scheme := remove_chars is_unsafe scheme in
  let '(scheme, url) :=
    match split_once ":" url with
    | Some (String a0 pre, post) =>
        if is_alpha a0 && all_chars is_scheme_char (String a0 pre)
        then (lower (String a0 pre), post)
        else (scheme, url)
    | _ => (scheme, url)
    end in
  let split_netloc :=
    if String.prefix "//" url then
      let '(netloc, rest) := splitnetloc url in
      if (has_char "[" netloc && negb (has_char "]" netloc))
         || (has_char "]" netloc && negb (has_char "[" netloc))
      then Raise (ValueError "Invalid IPv6 URL")
      else if has_char "[" netloc && has_char "]" netloc
      then rbind (check_bracketed_netloc netloc) (fun _ =>
           Return (netloc, rest))
      else Return (netloc, rest)
    else Return ("", url) in
  rbind split_netloc (fun '(netloc, url) =>
  let '(url, fragment) :=
    match split_once "#" url with
    | Some (l, r) => (l, r)
    | None => (url, "")
    end in
  let '(url, query) :=
    match split_once "?" url with
    | Some (l, r) => (l, r)
    | None => (url, "")
    end in
  Return {| s_scheme := scheme; s_netloc := netloc; s_path := url;
            s_query := query; s_fragment := fragment |}).

Definition splitparams (url : string) : string * string :=
  match rsplit_once "/" url with
  | Some (dir, last) =>
      match split_once ";" last with
      | Some (l, r) => (dir +++ "/" +++ l, r)
      | None => (url, "")
      end
  | None =>
      match split_once ";" url with
      | Some (l, r) => (l, r)
      | None => (url, "")
      end
  end.

Definition urlparse (url scheme : string) : result ParseResult :=
  rbind (urlsplit url scheme) (fun sr =>
  let '(url, params) :=
    if str_in (s_scheme sr) uses_params && has_char ";" (s_path sr)
    then splitparams (s_path sr)
    else (s_path sr, "") in
  Return {| scheme := s_scheme sr; netloc := s_netloc sr; path := url;
            params := params; query := s_query sr;
            fragment := s_fragment sr |}).

Definition nonempty (s : string) : bool :=
  match s with EmptyString => false | _ => true end.

Definition urlunsplit (scheme netloc url query fragment : string) : string :=
  let url :=
    if nonempty netloc
       || (nonempty scheme && str_in scheme uses_netloc
           && negb (String.prefix "//" url))
    then
      let url :=
        if nonempty url && negb (String.prefix "/" url)
        then "/" +++ url else url in
      "//" +++ netloc +++ url
    else url in
  let url := if nonempty scheme then scheme +++ ":" +++ url else url in
  let url := if nonempty query then url +++ "?" +++ query else url in
  if nonempty fragment then url +++ "#" +++ fragment else url.

Definition urlunparse (scheme netloc url params query fragment : string)
  : string :=
  let url := if nonempty params then url +++ ";" +++ params else url in
  urlunsplit scheme netloc url query fragment.

(** [segments[1:-1] = filter(None, segments[1:-1])] *)
Definition filter_middle (segments : list string) : list string :=
  match segments with
  | [] => []
  | [h] => [h]
  | h :: t => h :: filter nonempty (removelast t) ++ [last t ""]
  end.

(** The loop of [urljoin] over the segments, [resolved_path] being kept
    in reverse. *)
Fixpoint resolve (segments rev_resolved : list string) : list string :=
  match segments with
  | [] => rev rev_resolved
  | seg :: rest =>
      if String.eqb seg ".." then resolve rest (tl rev_resolved)
      else if String.eqb seg "." then resolve rest rev_resolved
      else resolve rest (seg :: rev_resolved)
  end.

Definition urljoin (base url : string) : result string :=
  if negb (nonempty base) then Return url
  else if negb (nonempty url) then Return base
  else
    rbind (urlparse base "") (fun b =>
    rbind (urlparse url (scheme b)) (fun u =>
    if negb (String.eqb (scheme u) (scheme b))
       || negb (str_in (scheme u) uses_relative)
    then Return url
    else if str_in (scheme u) uses_netloc && nonempty (netloc u)
    then Return (urlunparse (scheme u) (netloc u) (path u) (params u)
                            (query u) (fragment u))
    else
      let netloc :=
        if str_in (scheme u) uses_netloc then netloc b else netloc u in
      if negb (nonempty (path u)) && negb (nonempty (params u))
      then
        let query := if nonempty (query u) then query u else query b in
        Return (urlunparse (scheme u) netloc (path b) (params b) query
                           (fragment u))
      else
        let base_parts := split "/" (path b) in
        let base_parts :=
          if negb (String.eqb (last base_parts "") "")
          then removelast base_parts else base_parts in
        let segments :=
          if String.prefix "/" (path u) then split "/" (path u)
          else filter_middle (base_parts ++ split "/" (path u)) in
        let resolved_path := resolve segments [] in
        let resolved_path :=
          if str_in (last segments "") ["."; ".."]
          then resolved_path ++ [""] else resolved_path in
        let joined := String.concat "/" resolved_path in
        Return (urlunparse (scheme u) netloc
                           (if nonempty joined then joined else "/")
                           (params u) (query u) (fragment u)))).

End UrlParse.

(* ================================================================== *)
(** * BeautifulSoup: the parsed document *)

(** The classes of strings that derive from [NavigableString]. *)
Inductive string_class : Type :=
| CData
| Comment
| Declaration
| Doctype
| ProcessingInstruction
| Stylesheet                 (* the text inside <style> *)
| Script                     (* the text inside <script> *)
| TemplateString             (* the text inside <template> *)
| RubyTextString             (* the text inside <rt> *)
| RubyParenthesisString.     (* the text inside <rp> *)

(** A tag, a string of the class [NavigableString] itself, or a string of
    one of its subclasses; the parser chooses the class. *)
Inductive node : Type :=
| Tag (name : string) (attrs : list (string * string)) (children : list node)
| NavigableString (s : string)
| SubclassString (cls : string_class) (s : string).

(** Every node below [n], in document order. *)
Fixpoint descendants (n : node) : list node :=
  match n with
  | Tag _ _ cs =>
      (fix below (l : list node) : list node :=
         match l with
         | [] => []
         | c :: l' => c :: descendants c ++ below l'
         end) cs
  | NavigableString _ | SubclassString _ _ => []
  end.

Definition is_tag (name : string) (n : node) : bool :=
  match n with
  | Tag name' _ _ => String.eqb name' name
  | NavigableString _ | SubclassString _ _ => false
  end.

(** [n.find_all(name)] *)
Definition find_all (name : string) (n : node) : list node :=
  filter (is_tag name) (descendants n).

Fixpoint assoc (k : string) (l : list (string * string)) : option string :=
  match l with
  | [] => None
  | (k', v) :: l' => if String.eqb k' k then Some v else assoc k l'
  end.

(** [n.get(attr)]: [None] when the attribute is absent. *)
Definition get (n : node) (attr : string) : option string :=
  match n with
  | Tag _ attrs _ => assoc attr attrs
  | NavigableString _ | SubclassString _ _ => None
  end.

(** [n[attr]]: a [KeyError] when the attribute is absent. *)
Definition getitem (n : node) (attr : string) : result string :=
  match get n attr with
  | Some v => Return v
  | None => Raise (KeyError attr)
  end.

(** Truth value of an optional string: neither [None] nor empty. *)
Definition truthy (o : option string) : bool :=
  match o with
  | Some (String _ _) => true
  | _ => false
  end.

(** [n.string]: the text of a node whose only content is one string, of
    whatever class. *)
Fixpoint string_of (n : node) : option string :=
  match n with
  | NavigableString s | SubclassString _ s => Some s
  | Tag _ _ [c] => string_of c
  | Tag _ _ _ => None
  end.

Definition string_class_eqb (c1 c2 : string_class) : bool :=
  match c1, c2 with
  | CData, CData | Comment, Comment | Declaration, Declaration
  | Doctype, Doctype | ProcessingInstruction, ProcessingInstruction
  | Stylesheet, Stylesheet | Script, Script
  | TemplateString, TemplateString | RubyTextString, RubyTextString
  | RubyParenthesisString, RubyParenthesisString => true
  | _, _ => false
  end.

(** [builder.string_containers] of the HTML tree builders: the class of
    the strings inside these tags. *)
Definition string_containers (name : string) : option string_class :=
  if String.eqb name "rt" then Some RubyTextString
  else if String.eqb name "rp" then Some RubyParenthesisString
  else if String.eqb name "style" then Some Stylesheet
  else if String.eqb name "script" then Some Script
  else if String.eqb name "template" then Some TemplateString
  else None.

(** The text of [n] when [n] is a string of one of the
    [interesting_string_types] of a tag called [name]: the class of the
    container for one of the tags above, [NavigableString] and [CData]
    for any other tag. *)
Definition interesting_string (name : string) (n : node) : string :=
  match n, string_containers name with
  | NavigableString s, None => s
  | SubclassString CData s, None => s
  | SubclassString cls s, Some container =>
      if string_class_eqb cls container then s else ""
  | _, _ => ""
  end.

(** [n.get_text()], also [n.text]: the strings below [n] that are of an
    interesting class, joined.  The text of a script, of a style sheet or
    of a template and the comments below a link are not part of its
    text. *)
Definition get_text (n : node) : string :=
  match n with
  | Tag name _ _ =>
      String.concat "" (map (interesting_string name) (descendants n))
  | NavigableString s | SubclassString CData s => s
  | SubclassString _ _ => ""
  end.

(* ================================================================== *)
(** * JSON values, as [json.loads] returns them *)

Inductive json : Type :=
| JNull
| JBool (b : bool)
| JNumber (repr : string)
| JString (s : string)
| JArray (items : list json)
| JObject (members : list (string * json)).   (* dict.items(), in order *)

(* ================================================================== *)
(** * [list(set(l))]

    A Python [set] keeps one copy of every element and iterates in an order
    of its own, which the language leaves open (in CPython it follows the
    hashes of the strings, which change from one process to the next).
    [PySet] is any such order. *)

Record PySet : Type := {
  list_set : list string -> list string;
  list_set_NoDup : forall l, NoDup (list_set l);
  list_set_In : forall l x, In x (list_set l) <-> In x l
}.

(* ================================================================== *)
(** * The world the scripts run in

    Each call with the same arguments gets the same answer during one
    resolution. *)

Record World : Type := {
  (** [from yt_dlp import YoutubeDL] *)
  import_yt_dlp : result unit;
  (** [YoutubeDL(ydl_opts).extract_info(url, download=False)]; [None] is
      the Python [None]. *)
  extract_info : list (string * opt_value) -> string -> result (option string);
  (** [subprocess.run(argv, capture_output=True, text=True, timeout=t)] *)
  subprocess_run : list string -> Z -> result CompletedProcess;
  sys_executable : string;
  (** [requests.get(url, headers=h, timeout=t)] *)
  requests_get : string -> list (string * string) -> Z -> result Response;
  (** [BeautifulSoup(text, 'html.parser')] *)
  html_parser : string -> node;
  (** [json.loads(s)] *)
  json_loads : string -> result json;
  (** the iteration order of sets in this process *)
  py_set : PySet
}.

(** [str(n)] for an integer. *)
Definition str_int (n : Z) : string := NilZero.string_of_int (Z.to_int n).

(** [response.raise_for_status()] *)
Definition raise_for_status (response : Response) : result unit :=
  if ((400 <=? status_code response) && (status_code response <? 500))%Z
  then Raise (HTTPError (str_int (status_code response) +++ " Client Error: "
                         +++ reason response +++ " for url: "
                         +++ url response))
  else if ((500 <=? status_code response) && (status_code response <? 600))%Z
  then Raise (HTTPError (str_int (status_code response) +++ " Server Error: "
                         +++ reason response +++ " for url: "
                         +++ url response))
  else Return tt.

(** A [for] loop whose body may raise, the state being what it updates. *)
Fixpoint for_each {A S} (l : list A) (body : A -> S -> result S) (s : S)
  : result S :=
  match l with
  | [] => Return s
  | x :: l' => rbind (body x s) (for_each l' body)
  end.

Definition quote_class : list cset_item := [CChar dquote; CChar squote].
Definition quote : regex := RClass false quote_class.
Definition dq : regex := RLit (String dquote "").
Definition sq : regex := RLit (String squote "").

Definition is_quote (a : ascii) : bool :=
  Ascii.eqb a squote || Ascii.eqb a dquote.

Definition user_agent : string :=
  "Mozilla/5.0 (Windows NT 10.0; Win64; x64) AppleWebKit/537.36 (KHTML, like Gecko) Chrome/91.0.4472.124 Safari/537.36".

(* ================================================================== *)
(** * [extract_video_urls.py] *)

Module ExtractVideoUrls.

Definition ydl_opts : list (string * opt_value) :=
  [("quiet", OBool true); ("simulate", OBool true);
   ("no_warnings", OBool true); ("skip_download", OBool true);
   ("no_color", OBool true); ("noprogress", OBool true)].

Definition headers : list (string * string) :=
  [("User-Agent", user_agent)].

(** [https?://[^\sQ]+\.(mp4|mov|avi|wmv|flv|webm|m3u8|mpd)[\sQ]], where Q
    stands for the two quote characters. *)
Definition video_extensions : regex :=
  RSeqs [RLit "http"; ROpt (RLit "s"); RLit "://";
         RPlus (RClass true (CSpace :: quote_class));
         RLit ".";
         RGroup 1 (RAlts [RLit "mp4"; RLit "mov"; RLit "avi"; RLit "wmv";
                          RLit "flv"; RLit "webm"; RLit "m3u8"; RLit "mpd"]);
         RClass false (CSpace :: quote_class)].

Definition json_keys : list string :=
  ["url"; "src"; "source"; "videoUrl"; "video_url"; "media"; "mediaUrl"].

(** [extract_urls_from_json(json_data, urls)]; the list [urls] is
    extended in place and returned. *)
Fixpoint extract_urls_from_json (json_data : json) (urls : list string)
  : list string :=
  match json_data with
  | JObject members =>
      (fix items (l : list (string * json)) (urls : list string)
         : list string :=
         match l with
         | [] => urls
         | (key, value) :: l' =>
             items l'
               (if str_in key json_keys
                   && match value with JString _ => true | _ => false end
                then match value with
                     | JString v =>
                         if startswith v "http" then urls ++ [v] else urls
                     | _ => urls
                     end
                else extract_urls_from_json value urls)
         end) members urls
  | JArray l =>
      (fix each (l : list json) (urls : list string) : list string :=
         match l with
         | [] => urls
         | item :: l' => each l' (extract_urls_from_json item urls)
         end) l urls
  | _ => urls
  end.

Section InWorld.

Variable w : World.

Definition is_downloadable_with_ytdlp (url : string) : M bool :=
  try_except
    (try_except
       (_ <- lift (import_yt_dlp w) ;;
        info <- emit (EvExtractInfo url) (extract_info w ydl_opts url) ;;
        ret (match info with Some _ => true | None => false end))
       (fun e =>
          if is_ImportError e then
            Some (_ <- log WARNING
                         "Using fallback subprocess method for yt-dlp" ;;
                  let argv := [sys_executable w; "-m"; "yt_dlp";
                               "--simulate"; url] in
                  result <- emit (EvSubprocessRun argv)
                                 (subprocess_run w argv 60) ;;
                  ret (returncode result =? 0)%Z)
          else None))
    (fun e =>
       if is_TimeoutExpired e then
         Some (_ <- log WARNING
                      ("yt-dlp check timed out for URL: " +++ url) ;;
               ret false)
       else if is_Exception e then
         Some (_ <- log ERROR
                      ("Error checking URL with yt-dlp: " +++ url +++ ", "
                       +++ exn_str e) ;;
               ret false)
       else None).

(** 1. [<video>] tags *)
Definition from_video_tags (page_url : string) (soup : node)
           (potential_urls : list string) : result (list string) :=
  for_each (find_all "video" soup)
    (fun video urls =>
       rbind (if truthy (get video "src")
              then rbind (getitem video "src") (fun src =>
                   rbind (UrlParse.urljoin page_url src) (fun u =>
                   Return (urls ++ [u])))
              else Return urls)
             (for_each (find_all "source" video)
                (fun source urls =>
                   if truthy (get source "src")
                   then rbind (getitem source "src") (fun src =>
                        rbind (UrlParse.urljoin page_url src) (fun u =>
                        Return (urls ++ [u])))
                   else Return urls)))
    potential_urls.

(** 2. [<iframe>] embeds, appended as they are *)
Definition from_iframes (soup : node) (potential_urls : list string)
  : result (list string) :=
  for_each (find_all "iframe" soup)
    (fun iframe urls =>
       if truthy (get iframe "src")
       then rbind (getitem iframe "src") (fun src => Return (urls ++ [src]))
       else Return urls)
    potential_urls.

(** 3. [<script type="application/json">]; whatever is raised inside
    the [try] is dropped by the bare [except]. *)
Definition from_json_scripts (soup : node) (potential_urls : list string)
  : list string :=
  fold_left
    (fun urls script =>
       match
         rbind (match string_of script with
                | Some s => json_loads w s
                | None => Raise (TypeError "the JSON object must be str, bytes or bytearray, not NoneType")
                end)
               (fun json_content =>
                  Return (urls ++ extract_urls_from_json json_content []))
       with
       | Return urls' => urls'
       | Raise _ => urls
       end)
    (filter (fun n => match get n "type" with
                      | Some t => String.eqb t "application/json"
                      | None => false
                      end)
            (find_all "script" soup))
    potential_urls.

(** 4. URLs with a video extension anywhere in the page text *)
Definition from_text (text : string) (potential_urls : list string)
  : list string :=
  fold_left
    (fun urls m => urls ++ [strip is_quote (group0 m)])
    (finditer false video_extensions text) potential_urls.

(** 5. download links *)
Definition from_links (page_url : string) (soup : node)
           (potential_urls : list string) : result (list string) :=
  for_each
    (filter (fun n => match get n "href" with
                      | Some _ => true
                      | None => false
                      end)
            (find_all "a" soup))
    (fun link urls =>
       rbind (getitem link "href") (fun href =>
       let text := lower (get_text link) in
       if contains "download" href || contains "download" text
          || contains "video" text
       then rbind (UrlParse.urljoin page_url href) (fun u =>
            Return (urls ++ [u]))
       else Return urls))
    potential_urls.

(** The list [potential_urls] at the end of the [try] block. *)
Definition potential_urls (page_url : string) (response : Response)
  : result (list string) :=
  let soup := html_parser w (text response) in
  rbind (from_video_tags page_url soup []) (fun urls =>
  rbind (from_iframes soup urls) (fun urls =>
  let urls := from_json_scripts soup urls in
  let urls := from_text (text response) urls in
  from_links page_url soup urls)).

Definition extract_video_url_from_webpage (page_url : string)
  : M (list string) :=
  try_except
    (response <- emit (EvRequestsGet page_url)
                      (requests_get w page_url headers 30) ;;
     _ <- lift (raise_for_status response) ;;
     urls <- lift (potential_urls page_url response) ;;
     ret (list_set (py_set w) urls))
    (fun e =>
       if is_Exception e then
         Some (_ <- log ERROR
                      ("Error extracting video URL from webpage "
                       +++ page_url +++ ": " +++ exn_str e) ;;
               ret [])
       else None).

(** The [for video_url in potential_video_urls] loop of [process_url]:
    the URL it returns, or [None] when it runs to its end. *)
Fixpoint first_downloadable (potential_video_urls : list string)
  : M (option string) :=
  match potential_video_urls with
  | [] => ret None
  | video_url :: rest =>
      ok <- is_downloadable_with_ytdlp video_url ;;
      if ok then ret (Some video_url) else first_downloadable rest
  end.

Definition process_url (url : string) : M (option string) :=
  direct <- is_downloadable_with_ytdlp url ;;
  if direct then ret (Some url)
  else
    potential_video_urls <- extract_video_url_from_webpage url ;;
    found <- first_downloadable potential_video_urls ;;
    match found with
    | Some video_url => ret (Some video_url)
    | None =>
        _ <- log WARNING ("No downloadable video URL found for: " +++ url) ;;
        ret None
    end.

End InWorld.

End ExtractVideoUrls.

(* ================================================================== *)
(** * [extract_embedded_videos.py] *)

Module ExtractEmbeddedVideos.

Definition VIDEO_EXTENSIONS : list string :=
  ["mp4"; "webm"; "mov"; "avi"; "wmv"; "flv"; "m3u8"; "mpd"; "ts"].

Definition HEADERS : list (string * string) :=
  [("User-Agent", user_agent);
   ("Accept", "text/html,application/xhtml+xml,application/xml;q=0.9,image/webp,*/*;q=0.8");
   ("Accept-Language", "en-US,en;q=0.5");
   ("Connection", "keep-alive");
   ("Upgrade-Insecure-Requests", "1");
   ("Cache-Control", "max-age=0")].

Definition ydl_opts : list (string * opt_value) :=
  [("quiet", OBool true); ("simulate", OBool true);
   ("no_warnings", OBool false); ("skip_download", OBool true);
   ("no_color", OBool true); ("noprogress", OBool true);
   ("verbose", OBool false); ("format", OStr "best")].

Definition json_keys : list string :=
  ["url"; "src"; "source"; "file"; "videoUrl"; "videoSrc"].

Definition json_extensions : list string :=
  ["mp4"; "webm"; "m3u8"; "mpd"].

(** [(Q)(?:url|src|source|file|videoUrl|videoSrc)(Q)\s*:\s*(Q)([^Q]+\.(mp4|webm|m3u8|mpd))(Q)],
    where (Q) is a group matching a double or a single quote and [^Q] is
    any character but the two quotes. *)
Definition json_pattern : regex :=
  RSeqs [RGroup 1 (RAlt dq sq);
         RAlts (map RLit json_keys);
         RGroup 2 (RAlt dq sq);
         RStar (RClass false [CSpace]);
         RLit ":";
         RStar (RClass false [CSpace]);
         RGroup 3 (RAlt dq sq);
         RGroup 4 (RSeqs [RPlus (RClass true quote_class);
                          RLit ".";
                          RGroup 5 (RAlts (map RLit json_extensions))]);
         RGroup 6 (RAlt dq sq)].

(** The f-string pattern of step 4: a quote, group 1, a quote; group 1
    is any run of non-quote characters, a dot, the extension and, as an
    optional group 2, a question mark with a run of non-quote characters. *)
Definition link_pattern (extension : string) : regex :=
  RSeqs [quote;
         RGroup 1 (RSeqs [RStar (RClass true quote_class);
                          RLit ".";
                          RLit extension;
                          ROpt (RGroup 2 (RSeq (RLit "?")
                                            (RStar (RClass true quote_class))))]);
         quote].

Definition download_keywords : list string := ["download"; "media"; "video"].

(** [video_url.startswith(('http://', 'https://'))] *)
Definition is_http (video_url : string) : bool :=
  startswith video_url "http://" || startswith video_url "https://".

(** [any(keyword in s for keyword in download_keywords)] *)
Definition has_keyword (s : string) : bool :=
  existsb (fun keyword => contains keyword s) download_keywords.

(** The result dictionary of [process_url]. *)
Record results : Type := {
  original_url : string;
  direct_downloadable : bool;
  embedded_videos_found : list string;
  downloadable_videos : list string;
  errors : list string
}.

Section InWorld.

Variable w : World.

(** Returns the tuple [(url, is_downloadable, error_message)]. *)
Definition is_downloadable_with_ytdlp (url : string)
  : M (string * bool * option string) :=
  try_except
    (try_except
       (_ <- lift (import_yt_dlp w) ;;
        info <- emit (EvExtractInfo url) (extract_info w ydl_opts url) ;;
        ret (url, true, None))
       (fun e =>
          if is_ImportError e then
            Some (_ <- log ERROR ("Import error: " +++ exn_str e) ;;
                  try_except
                    (let argv := ["python"; "-m"; "yt_dlp"; "--simulate";
                                  "--quiet"; url] in
                     result <- emit (EvSubprocessRun argv)
                                    (subprocess_run w argv 30) ;;
                     if (returncode result =? 0)%Z
                     then ret (url, true, None)
                     else ret (url, false, Some (stderr result)))
                    (fun se =>
                       if is_SubprocessError se
                       then Some (ret (url, false,
                                       Some ("Subprocess error: "
                                             +++ exn_str se)))
                       else None))
          else if is_Exception e
          then Some (ret (url, false, Some (exn_str e)))
          else None))
    (fun e =>
       if is_Exception e then
         Some (_ <- log ERROR
                      ("Error checking URL with yt-dlp: " +++ url +++ ", "
                       +++ exn_str e) ;;
               ret (url, false, Some (exn_str e)))
       else None).

(** 1. [<video>] tags *)
Definition from_video_tags (base_url : string) (soup : node)
           (potential_urls : list string) : result (list string) :=
  for_each (find_all "video" soup)
    (fun video urls =>
       rbind (if truthy (get video "src")
              then rbind (getitem video "src") (fun src =>
                   rbind (UrlParse.urljoin base_url src) (fun video_url =>
                   Return (urls ++ [video_url])))
              else Return urls)
             (for_each (find_all "source" video)
                (fun source urls =>
                   if truthy (get source "src")
                   then rbind (getitem source "src") (fun src =>
                        rbind (UrlParse.urljoin base_url src)
                              (fun source_url =>
                        Return (urls ++ [source_url])))
                   else Return urls)))
    potential_urls.

(** 2. [<iframe>] sources *)
Definition from_iframes (base_url : string) (soup : node)
           (potential_urls : list string) : result (list string) :=
  for_each (find_all "iframe" soup)
    (fun iframe urls =>
       if truthy (get iframe "src")
       then rbind (getitem iframe "src") (fun src =>
            rbind (UrlParse.urljoin base_url src) (fun iframe_url =>
            Return (urls ++ [iframe_url])))
       else Return urls)
    potential_urls.

(** What the script appends for one tuple of [re.findall(json_pattern)]:
    [match[3] + match[4]], joined to the base unless it is http(s). *)
Definition script_candidate (base_url : string) (m : list string)
  : result string :=
  let video_url := nth 3 m "" +++ nth 4 m "" in
  if negb (is_http video_url)
  then UrlParse.urljoin base_url video_url
  else Return video_url.

(** 3. key/value pairs in the [<script>] bodies *)
Definition from_scripts (base_url : string) (soup : node)
           (potential_urls : list string) : result (list string) :=
  for_each (find_all "script" soup)
    (fun script urls =>
       if truthy (string_of script)
       then
         let body := match string_of script with
                     | Some s => s
                     | None => ""
                     end in
         for_each (findall true 6 json_pattern body)
           (fun m urls =>
              rbind (script_candidate base_url m) (fun video_url =>
              Return (urls ++ [video_url])))
           urls
       else Return urls)
    potential_urls.

(** 4. quoted strings with a video extension in the page text *)
Definition from_text (base_url : string) (text : string)
           (potential_urls : list string) : result (list string) :=
  for_each VIDEO_EXTENSIONS
    (fun extension urls =>
       for_each (findall true 2 (link_pattern extension) text)
         (fun m urls =>
            let video_url := nth 0 m "" in
            rbind (if negb (is_http video_url)
                   then UrlParse.urljoin base_url video_url
                   else Return video_url) (fun video_url =>
            Return (urls ++ [video_url])))
         urls)
    potential_urls.

(** 5. download links, by their [href] and by their text *)
Definition from_links (base_url : string) (soup : node)
           (potential_urls : list string) : result (list string) :=
  for_each (find_all "a" soup)
    (fun a urls =>
       rbind (if truthy (get a "href")
                 && has_keyword
                      (lower (match get a "href" with
                              | Some h => h
                              | None => ""
                              end))
              then rbind (getitem a "href") (fun href =>
                   rbind (UrlParse.urljoin base_url href)
                         (fun download_url =>
                   Return (urls ++ [download_url])))
              else Return urls) (fun urls =>
       if truthy (Some (get_text a)) && has_keyword (lower (get_text a))
       then rbind (UrlParse.urljoin base_url
                     (match get a "href" with
                      | Some h => h
                      | None => ""
                      end)) (fun download_url =>
            Return (urls ++ [download_url]))
       else Return urls))
    potential_urls.

(** The list [potential_urls] at the end of the [try] block. *)
Definition potential_urls (response : Response) : result (list string) :=
  let soup := html_parser w (text response) in
  let base_url := url response in
  rbind (from_video_tags base_url soup []) (fun urls =>
  rbind (from_iframes base_url soup urls) (fun urls =>
  rbind (from_scripts base_url soup urls) (fun urls =>
  rbind (from_text base_url (text response) urls) (fun urls =>
  from_links base_url soup urls)))).

Definition extract_video_urls_from_page (page_url : string)
  : M (list string) :=
  try_except
    (response <- emit (EvRequestsGet page_url)
                      (requests_get w page_url HEADERS 20) ;;
     _ <- lift (raise_for_status response) ;;
     urls <- lift (potential_urls response) ;;
     ret (list_set (py_set w) urls))
    (fun e =>
       if is_Exception e then
         Some (_ <- log ERROR
                      ("Error extracting video URLs from " +++ page_url
                       +++ ": " +++ exn_str e) ;;
               ret [])
       else None).

(** The [for video_url in embedded_videos] loop of [process_url]. *)
Fixpoint test_embedded (embedded_videos : list string) (r : results)
  : M results :=
  match embedded_videos with
  | [] => ret r
  | video_url :: rest =>
      '(embedded_url, is_embedded_downloadable, embedded_error)
        <- is_downloadable_with_ytdlp video_url ;;
      test_embedded rest
        (if is_embedded_downloadable : bool
         then {| original_url := original_url r;
                 direct_downloadable := direct_downloadable r;
                 embedded_videos_found := embedded_videos_found r;
                 downloadable_videos :=
                   downloadable_videos r ++ [embedded_url];
                 errors := errors r |}
         else if truthy embedded_error
         then {| original_url := original_url r;
                 direct_downloadable := direct_downloadable r;
                 embedded_videos_found := embedded_videos_found r;
                 downloadable_videos := downloadable_videos r;
                 errors :=
                   errors r
                   ++ ["Embedded URL error (" +++ embedded_url +++ "): "
                       +++ match embedded_error with
                           | Some m => m
                           | None => ""
                           end] |}
         else r)
  end.

Definition process_url (url : string) : M results :=
  '(direct_url, is_direct_downloadable, direct_error)
    <- is_downloadable_with_ytdlp url ;;
  if is_direct_downloadable : bool
  then ret {| original_url := url;
              direct_downloadable := true;
              embedded_videos_found := [];
              downloadable_videos := [direct_url];
              errors := [] |}
  else
    let errors0 :=
      if truthy direct_error
      then ["Direct URL error: "
            +++ match direct_error with Some m => m | None => "" end]
      else [] in
    embedded_videos <- extract_video_urls_from_page url ;;
    test_embedded embedded_videos
      {| original_url := url;
         direct_downloadable := false;
         embedded_videos_found := embedded_videos;
         downloadable_videos := [];
         errors := errors0 |}.

End InWorld.

End ExtractEmbeddedVideos.

(* ================================================================== *)
(** * [test_yt_dlp_urls.py] *)

Module TestYtDlpUrls.

Definition ydl_opts : list (string * opt_value) :=
  ExtractEmbeddedVideos.ydl_opts.

Definition TEST_URLS : list string :=
  ["https://dallastx.new.swagit.com/videos/320946/download";
   "https://www.zoomgov.com/rec/share/vCZnQM5bgMzY7_n4lbQXYnVqsvPj49Ce-R0hMjMFPyG4FUC1HbSyQAZ9uPpRKDvV._6ZMrf7BXZzx6_RK?startTime=1709655569000";
   "https://snohomish.legistar.com/Video.aspx?Mode=Granicus&ID1=9188&Mode2=Video";
   "https://multnomah.granicus.com/MediaPlayer.php?view_id=3&clip_id=3097";
   "https://traviscotx.portal.civicclerk.com/event/2583/media";
   "https://legistar.council.nyc.gov/Video.aspx?Mode=Auto&URL=aHR0cHM6Ly9jb3VuY2lsbnljLnZpZWJpdC5jb20vdm9kLz9zPXRydWUmdj1OWUNDLVBWLTI1MC0xNF8yNDA2MDQtMTAxMzU0Lm1wNA%3d%3d&Mode2=Video";
   "https://video.ibm.com/recorded/134312408";
   "https://cityofalhambraorg-my.sharepoint.com/:v:/g/personal/lmyles_alhambraca_gov/ETs6K1euPsBClaWtczJXl-gB47R9yoz9o9FJYZuEY0KOjA?e=7B41Fy";
   "https://audiomack.com/pemberton-twp-planningzoning-board-meetings/song/678668c3069f2"].

(** The dictionary [format_results] returns; an entry of [results_details]
    is a dictionary of its own, kept as its items in insertion order. *)
Record formatted_results : Type := {
  downloadable_urls : list string;
  not_downloadable_urls : list string;
  results_details : list (list (string * json))
}.

Section InWorld.

Variable w : World.

(** Returns the tuple [(url, is_downloadable, error_message)]. *)
Definition is_downloadable_with_ytdlp (url : string)
  : M (string * bool * option string) :=
  try_except
    (try_except
       (_ <- lift (import_yt_dlp w) ;;
        info <- emit (EvExtractInfo url) (extract_info w ydl_opts url) ;;
        ret (url, true, None))
       (fun e =>
          if is_ImportError e
          then Some (_ <- log ERROR ("Import error: " +++ exn_str e) ;;
                     ret (url, false,
                          Some ("Import error: " +++ exn_str e)))
          else if is_Exception e
          then Some (ret (url, false, Some (exn_str e)))
          else None))
    (fun e =>
       if is_Exception e then
         Some (_ <- log ERROR
                      ("Error checking URL with yt-dlp: " +++ url +++ ", "
                       +++ exn_str e) ;;
               ret (url, false, Some (exn_str e)))
       else None).

(** The [for url in ...] loop of [test_urls_sequential], [results] being
    the list it appends to. *)
Fixpoint test_each (urls : list string)
         (results : list (string * bool * option string))
  : M (list (string * bool * option string)) :=
  match urls with
  | [] => ret results
  | url :: rest =>
      result <- is_downloadable_with_ytdlp url ;;
      test_each rest (results ++ [result])
  end.

Definition test_urls_sequential : M (list (string * bool * option string)) :=
  test_each TEST_URLS [].

End InWorld.

(** [format_results(results)]: the body of the loop, then the loop. *)
Definition format_result (formatted : formatted_results)
           (result : string * bool * option string) : formatted_results :=
  let '(url, is_downloadable, error) := result in
  let result_detail :=
    [("url", JString url); ("is_downloadable", JBool is_downloadable)]
    ++ (if truthy error
        then [("error",
               JString (match error with Some m => m | None => "" end))]
        else []) in
  {| downloadable_urls :=
       if is_downloadable then downloadable_urls formatted ++ [url]
       else downloadable_urls formatted;
     not_downloadable_urls :=
       if is_downloadable then not_downloadable_urls formatted
       else not_downloadable_urls formatted ++ [url];
     results_details := results_details formatted ++ [result_detail] |}.

Definition format_results (results : list (string * bool * option string))
  : formatted_results :=
  fold_left format_result results
    {| downloadable_urls := [];
       not_downloadable_urls := [];
       results_details := [] |}.

End TestYtDlpUrls.

(* ================================================================== *)
(** * The Deduplicator as the specification words it

    Drop any candidate equal to one already accepted, keeping the earliest
    occurrence.  The scripts do not contain this function: it is what
    [list(set(potential_urls))] is compared with. *)

Fixpoint first_appearance (accepted l : list string) : list string :=
  match l with
  | [] => []
  | u :: l' =>
      if str_in u accepted then first_appearance accepted l'
      else u :: first_appearance (accepted ++ [u]) l'
  end.

Definition Deduplicator_spec (l : list string) : list string :=
  first_appearance [] l.

(* ================================================================== *)
(** * One iteration order: CPython's small hash table

    A [set] of at most four keys lives in a table of eight slots
    ([PySet_MINSIZE]).  A key goes to slot [hash & 7]; while the slot is
    taken by another key, [perturb >>= 5] and the next slot is
    [(5 * i + 1 + perturb) & 7] (there are no linear probes in a table this
    small).  [list(set(l))] reads the slots from 0 to 7.  The hash of a
    string changes with the process, so it is a parameter. *)

Module CPythonSet.

Section WithHash.

Variable hash : string -> Z.

Definition mask : Z := 7.
Definition PERTURB_SHIFT : Z := 5.

Definition table : Type := list (option string).

Definition empty_table : table := repeat None 8.

Fixpoint set_slot (i : nat) (key : string) (t : table) : table :=
  match t, i with
  | [], _ => []
  | _ :: t', O => Some key :: t'
  | e :: t', S i' => e :: set_slot i' key t'
  end.

(** [set_add_entry]: the table, and whether the key is new. *)
Fixpoint set_add_entry (fuel : nat) (t : table) (key : string)
         (i perturb : Z) : option (table * bool) :=
  match fuel with
  | O => None
  | S fuel' =>
      match nth (Z.to_nat i) t None with
      | None => Some (set_slot (Z.to_nat i) key t, true)
      | Some k =>
          if String.eqb k key then Some (t, false)
          else
            let perturb := Z.shiftr perturb PERTURB_SHIFT in
            set_add_entry fuel' t key
                          (Z.land (i * 5 + 1 + perturb) mask) perturb
      end
  end.

(** [set(l)]: the keys are added one by one; a fifth key would make the
    table grow, which this model leaves out ([None]). *)
Fixpoint set_update (t : table) (used : nat) (l : list string)
  : option table :=
  match l with
  | [] => Some t
  | key :: l' =>
      let h := (hash key mod 2 ^ 64)%Z in
      match set_add_entry 32 t key (Z.land h mask) h with
      | Some (t', added) =>
          let used' := if added then S used else used in
          if (Z.of_nat used' * 5 <? mask * 3)%Z
          then set_update t' used' l'
          else None
      | None => None
      end
  end.

(** Iteration over the slots. *)
Definition keys (t : table) : list string :=
  flat_map (fun e => match e with Some k => [k] | None => [] end) t.

Definition same_elements (r l : list string) : bool :=
  forallb (fun x => str_in x l) r && forallb (fun x => str_in x r) l.

Fixpoint distinct (l : list string) : bool :=
  match l with
  | [] => true
  | x :: l' => negb (str_in x l') && distinct l'
  end.

(** [list(set(l))]: the table's order where the model has one, the order
    of first appearance for larger sets. *)
Definition to_list (l : list string) : list string :=
  match set_update empty_table 0 l with
  | Some t =>
      if distinct (keys t) && same_elements (keys t) l then keys t
      else Deduplicator_spec l
  | None => Deduplicator_spec l
  end.

End WithHash.

End CPythonSet.

(* ================================================================== *)
(** * The vocabulary of the statements

    Names for parts of a run (the body of a wrapper, the fetch, the probes
    of a list of candidates) and for what the script pattern reads. *)

Unset Implicit Arguments.

(** The body of the inner [try] of the three wrappers: the import, then
    [extract_info]. *)
Definition yt_dlp_call (w : World) (opts : list (string * opt_value))
           (url : string) : result (option string) :=
  rbind (import_yt_dlp w) (fun _ => extract_info w opts url).

(** The fallback of [extract_video_urls.py]. *)
Definition fallback_video_urls (w : World) (url : string)
  : result CompletedProcess :=
  subprocess_run w [sys_executable w; "-m"; "yt_dlp"; "--simulate"; url] 60.

(** The fallback of [extract_embedded_videos.py]. *)
Definition fallback_embedded (w : World) (url : string)
  : result CompletedProcess :=
  subprocess_run w ["python"; "-m"; "yt_dlp"; "--simulate"; "--quiet"; url] 30.

(** The events a probe of [url] can leave. *)
Definition is_probe_of (url : string) (ev : event) : Prop :=
  match ev with
  | EvExtractInfo u => u = url
  | EvSubprocessRun argv => In url argv
  | EvRequestsGet _ => False
  | EvLog _ _ => True
  end.

(** [requests.get] followed by [raise_for_status]. *)
Definition fetch (w : World) (page_url : string)
           (headers : list (string * string)) (timeout : Z)
  : result Response :=
  rbind (requests_get w page_url headers timeout) (fun response =>
  rbind (raise_for_status response) (fun _ => Return response)).

(** The events of probing the candidates of [l] one after the other. *)
Definition video_urls_probes (w : World) (l : list string) : list event :=
  flat_map (fun c => trace (ExtractVideoUrls.is_downloadable_with_ytdlp w c)) l.

(** The same with the wrapper of [extract_embedded_videos.py]. *)
Definition embedded_probes (w : World) (l : list string) : list event :=
  flat_map
    (fun c => trace (ExtractEmbeddedVideos.is_downloadable_with_ytdlp w c)) l.

(** The verdict of [extract_embedded_videos.py]'s wrapper on [c]. *)
Definition embedded_accepts (w : World) (c : string) : bool :=
  match outcome (ExtractEmbeddedVideos.is_downloadable_with_ytdlp w c) with
  | Return (_, ok, _) => ok
  | Raise _ => false
  end.

(** The computation ends without an exception. *)
Definition returns {A} (m : M A) : Prop := exists a, outcome m = Return a.

(** The warning at the end of [extract_video_urls.process_url]. *)
Definition not_found_warning (url : string) : event :=
  EvLog WARNING ("No downloadable video URL found for: " +++ url).

(** The entry of [errors] for a failed direct probe. *)
Definition direct_error_entry (direct_error : option string) : list string :=
  if truthy direct_error
  then ["Direct URL error: "
        +++ match direct_error with Some m => m | None => "" end]
  else [].

(** What the fallback of [extract_video_urls.py] makes of the subprocess. *)
Definition video_urls_fallback_verdict (r : result CompletedProcess)
  : result bool :=
  match r with
  | Return p => Return (returncode p =? 0)%Z
  | Raise e => if is_Exception e then Return false else Raise e
  end.

(** What the fallback of [extract_embedded_videos.py] makes of it. *)
Definition embedded_fallback_verdict (url : string)
           (r : result CompletedProcess)
  : result (string * bool * option string) :=
  match r with
  | Return p =>
      if (returncode p =? 0)%Z then Return (url, true, None)
      else Return (url, false, Some (stderr p))
  | Raise e =>
      if is_SubprocessError e
      then Return (url, false, Some ("Subprocess error: " +++ exn_str e))
      else if is_Exception e then Return (url, false, Some (exn_str e))
      else Raise e
  end.

(** [s'] is [s] with something appended. *)
Definition extends (s s' : list string) : Prop := exists ext, s' = s ++ ext.

(** A loop body that only appends to the list. *)
Definition appending {A} (body : A -> list string -> result (list string))
  : Prop :=
  forall x s s', body x s = Return s' -> extends s s'.

(** [matches ic r w c c']: the expression [r] matches the whole of [w],
    taking the groups from [c] to [c']; [ic] is [re.IGNORECASE]. *)
Inductive matches (ic : bool) : regex -> string -> caps -> caps -> Prop :=
| MLit l w c :
    eat ic l w = Some "" -> matches ic (RLit l) w c c
| MClass negated items a c :
    class_matches ic negated items a = true ->
    matches ic (RClass negated items) (String a "") c c
| MSeq r1 r2 w1 w2 c c1 c2 :
    matches ic r1 w1 c c1 -> matches ic r2 w2 c1 c2 ->
    matches ic (RSeq r1 r2) (w1 +++ w2) c c2
| MAltL r1 r2 w c c' :
    matches ic r1 w c c' -> matches ic (RAlt r1 r2) w c c'
| MAltR r1 r2 w c c' :
    matches ic r2 w c c' -> matches ic (RAlt r1 r2) w c c'
| MStar0 r c :
    matches ic (RStar r) "" c c
| MStarS r w1 w2 c c1 c2 :
    w1 <> "" -> matches ic r w1 c c1 -> matches ic (RStar r) w2 c1 c2 ->
    matches ic (RStar r) (w1 +++ w2) c c2
| MGroup i r w c c' :
    matches ic r w c c' -> matches ic (RGroup i r) w c ((i, w) :: c').

(** Characters other than a quote, a white space, a dot. *)
Definition not_quote (a : ascii) : bool := negb (is_quote a).


Definition not_dot (a : ascii) : bool := negb (Ascii.eqb a ".").





(** What a successful match at the head of [s] leaves. *)
Definition whole : cont := fun s' c' => Some (s', c').

(** The tuple [re.findall] returns for a pair. *)
Definition pair_tuple (q1 q2 q3 stem ext q6 : string) : list string :=
  [q1; q2; q3; stem +++ "." +++ ext; ext; q6].


(** A script with one absolute and one relative value. *)
Definition example_script : string :=
  "var player = {'url': 'https://cdn.example.com/a.mp4', 'SRC' : '/media/b.WEBM'};".





(** No exception of [r] is outside [Exception]. *)
Definition only_Exceptions {A} (r : result A) : Prop :=
  forall e, r = Raise e -> is_Exception e = true.

(** The calls that leave the process raise subclasses of [Exception]
    only (no [KeyboardInterrupt], no [SystemExit]). *)
Definition ordinary (w : World) : Prop :=
  only_Exceptions (import_yt_dlp w)
  /\ (forall opts u, only_Exceptions (extract_info w opts u))
  /\ (forall argv t, only_Exceptions (subprocess_run w argv t))
  /\ (forall u h t, only_Exceptions (requests_get w u h t)).

(** The pages fetched and the subprocesses started in a trace. *)
Definition fetched (t : list event) : list string :=
  flat_map (fun ev => match ev with EvRequestsGet u => [u] | _ => [] end) t.

Definition started (t : list event) : list (list string) :=
  flat_map (fun ev => match ev with EvSubprocessRun argv => [argv] | _ => [] end)
           t.

(** The candidates the extraction of [url] returns. *)
Definition video_urls_candidates (w : World) (url : string) : list string :=
  match outcome (ExtractVideoUrls.extract_video_url_from_webpage w url) with
  | Return cands => cands
  | Raise _ => []
  end.

Definition embedded_candidates (w : World) (url : string) : list string :=
  match outcome (ExtractEmbeddedVideos.extract_video_urls_from_page w url) with
  | Return cands => cands
  | Raise _ => []
  end.

(** An event of a resolution of [url] whose candidates are [cands]: the
    fetch of the page, or an event of a probe of [url] or of a candidate. *)
Definition resolution_event (url : string) (cands : list string) (ev : event)
  : Prop :=
  ev = EvRequestsGet url
  \/ exists c, In c (url :: cands) /\ is_probe_of c ev.

(** The error text the wrapper of [extract_embedded_videos.py] reports for
    a URL it rejects, when the text is not empty. *)
Definition embedded_error (w : World) (c : string) : option string :=
  match outcome (ExtractEmbeddedVideos.is_downloadable_with_ytdlp w c) with
  | Return (_, false, Some (String a m)) => Some (String a m)
  | _ => None
  end.

(** The entries of [errors] for the candidates of [l]. *)
Definition embedded_error_entries (w : World) (l : list string)
  : list string :=
  flat_map
    (fun c =>
       match embedded_error w c with
       | Some m => ["Embedded URL error (" +++ c +++ "): " +++ m]
       | None => []
       end) l.

(** What one item of a dictionary adds to [urls]. *)
Definition json_member (urls : list string) (kv : string * json)
  : list string :=
  let '(key, value) := kv in
  if str_in key ExtractVideoUrls.json_keys
     && match value with JString _ => true | _ => false end
  then match value with
       | JString v => if startswith v "http" then urls ++ [v] else urls
       | _ => urls
       end
  else ExtractVideoUrls.extract_urls_from_json value urls.





(** [video_url], joined to the base unless it starts with [http://] or
    [https://]: what passes 3 and 4 of [extract_embedded_videos.py] do
    with the text they find. *)
Definition absolute (base_url video_url : string) : result string :=
  if negb (ExtractEmbeddedVideos.is_http video_url)
  then UrlParse.urljoin base_url video_url
  else Return video_url.



(** The parts of a tuple [(url, is_downloadable, error_message)]. *)
Definition tuple_url (r : string * bool * option string) : string :=
  fst (fst r).

Definition tuple_ok (r : string * bool * option string) : bool :=
  snd (fst r).

Definition tuple_error (r : string * bool * option string) : option string :=
  snd r.

(** The verdict of [test_yt_dlp_urls.py]'s wrapper on [c]. *)
Definition test_accepts (w : World) (c : string) : bool :=
  match outcome (TestYtDlpUrls.is_downloadable_with_ytdlp w c) with
  | Return (_, ok, _) => ok
  | Raise _ => false
  end.

(** [d.get(key)] on a dictionary kept as its items. *)
Fixpoint dict_get (key : string) (d : list (string * json)) : option json :=
  match d with
  | [] => None
  | (k, v) :: d' => if String.eqb k key then Some v else dict_get key d'
  end.

Set Implicit Arguments.

(* ================================================================== *)
(** * Sets: the order of first appearance and the table order are iteration
      orders *)

Lemma str_in_In (x : string) (l : list string) :
  str_in x l = true <-> In x l.
Proof.
  unfold str_in. rewrite existsb_exists. split.
  - intros [y [Hy Heq]]. apply String.eqb_eq in Heq. now subst.
  - intros H. exists x. split; [assumption | apply String.eqb_refl].
Qed.

Lemma str_in_false (x : string) (l : list string) :
  str_in x l = false <-> ~ In x l.
Proof.
  rewrite <- str_in_In. destruct (str_in x l); split; congruence.
Qed.

Lemma first_appearance_In (l accepted : list string) (x : string) :
  In x (first_appearance accepted l) <-> In x l /\ ~ In x accepted.
Proof.
  revert accepted. induction l as [|u l IH]; intros accepted; simpl.
  - tauto.
  - destruct (str_in u accepted) eqn:Hu.
    + apply str_in_In in Hu. rewrite IH. split.
      * tauto.
      * intros [[->|H] Hn]; tauto.
    + apply str_in_false in Hu. simpl. rewrite IH, in_app_iff. simpl.
      split.
      * intros [->|[H Hn]]; tauto.
      * intros [[->|H] Hn]; [now left|].
        destruct (string_dec u x) as [->|Hne]; [now left|right]. tauto.
Qed.

Lemma first_appearance_NoDup (l accepted : list string) :
  NoDup (first_appearance accepted l).
Proof.
  revert accepted. induction l as [|u l IH]; intros accepted; simpl.
  - constructor.
  - destruct (str_in u accepted); [apply IH|].
    constructor; [|apply IH].
    rewrite first_appearance_In, in_app_iff. simpl. tauto.
Qed.

Lemma first_appearance_fixed (l accepted : list string) :
  NoDup l -> (forall x, In x l -> ~ In x accepted) ->
  first_appearance accepted l = l.
Proof.
  revert accepted. induction l as [|u l IH]; intros accepted Hnd Hacc.
  - reflexivity.
  - simpl. inversion Hnd as [|? ? Hu Hl]; subst.
    destruct (str_in u accepted) eqn:E.
    + apply str_in_In in E. exfalso. apply (Hacc u); simpl; auto.
    + f_equal. apply IH; [assumption|].
      intros x Hx. rewrite in_app_iff. simpl.
      intros [Hin|[->|[]]].
      * apply (Hacc x); simpl; auto.
      * contradiction.
Qed.

Lemma distinct_NoDup (l : list string) :
  CPythonSet.distinct l = true -> NoDup l.
Proof.
  induction l as [|x l IH]; simpl; intros H.
  - constructor.
  - apply andb_true_iff in H as [Hx Hl].
    constructor; [|now apply IH].
    apply str_in_false. now destruct (str_in x l).
Qed.

Lemma same_elements_In (r l : list string) :
  CPythonSet.same_elements r l = true -> forall x, In x r <-> In x l.
Proof.
  unfold CPythonSet.same_elements. intros H x.
  apply andb_true_iff in H as [Hr Hl].
  rewrite forallb_forall in Hr, Hl.
  split; intros Hx.
  - apply str_in_In. now apply Hr.
  - apply str_in_In. now apply Hl.
Qed.

(** The order of first appearance (what a [dict] would give). *)
Definition insertion_order : PySet.
Proof.
  refine {| list_set := Deduplicator_spec |}.
  - intros l. apply first_appearance_NoDup.
  - intros l x. unfold Deduplicator_spec. rewrite first_appearance_In.
    simpl. tauto.
Defined.

(** CPython's table order under the hash function [hash]. *)
Definition cpython_set (hash : string -> Z) : PySet.
Proof.
  refine {| list_set := CPythonSet.to_list hash |}.
  - intros l. unfold CPythonSet.to_list.
    destruct (CPythonSet.set_update hash CPythonSet.empty_table 0 l) as [t|];
      [|apply first_appearance_NoDup].
    destruct (CPythonSet.distinct (CPythonSet.keys t)
              && CPythonSet.same_elements (CPythonSet.keys t) l) eqn:E;
      [|apply first_appearance_NoDup].
    apply andb_true_iff in E as [E _]. now apply distinct_NoDup.
  - intros l x. unfold CPythonSet.to_list.
    assert (Hspec : In x (Deduplicator_spec l) <-> In x l).
    { unfold Deduplicator_spec. rewrite first_appearance_In. simpl. tauto. }
    destruct (CPythonSet.set_update hash CPythonSet.empty_table 0 l) as [t|];
      [|exact Hspec].
    destruct (CPythonSet.distinct (CPythonSet.keys t)
              && CPythonSet.same_elements (CPythonSet.keys t) l) eqn:E;
      [|exact Hspec].
    apply andb_true_iff in E as [_ E]. now apply same_elements_In.
Defined.

(** Whatever the order, the set's list is a rearrangement of the list of
    first appearances. *)
Lemma list_set_Permutation (S : PySet) (l : list string) :
  Permutation (list_set S l) (Deduplicator_spec l).
Proof.
  apply NoDup_Permutation.
  - apply list_set_NoDup.
  - apply first_appearance_NoDup.
  - intros x. rewrite list_set_In. unfold Deduplicator_spec.
    rewrite first_appearance_In. simpl. tauto.
Qed.

Lemma list_set_length (S : PySet) (l : list string) :
  List.length (list_set S l) = List.length (Deduplicator_spec l).
Proof. apply Permutation_length, list_set_Permutation. Qed.

(* ================================================================== *)
(** * The monad *)

Lemma bind_Return {A B} (m : M A) (f : A -> M B) (a : A) :
  outcome m = Return a ->
  bind m f = (outcome (f a), trace m ++ trace (f a)).
Proof.
  destruct m as [r t]. simpl. intros ->. simpl.
  now destruct (f a).
Qed.

Lemma bind_Raise {A B} (m : M A) (f : A -> M B) (e : exn) :
  outcome m = Raise e -> bind m f = (Raise e, trace m).
Proof. destruct m as [r t]. simpl. now intros ->. Qed.

Lemma M_eta {A} (m : M A) : m = (outcome m, trace m).
Proof. now destruct m. Qed.

(** Outcome and trace of a sequence. *)
Lemma outcome_bind {A B} (m : M A) (f : A -> M B) :
  outcome (bind m f)
  = match outcome m with
    | Return a => outcome (f a)
    | Raise e => Raise e
    end.
Proof.
  destruct m as [[a|e] t]; simpl; [destruct (f a)|]; reflexivity.
Qed.

Lemma trace_bind {A B} (m : M A) (f : A -> M B) :
  trace (bind m f)
  = trace m ++ match outcome m with
               | Return a => trace (f a)
               | Raise _ => []
               end.
Proof.
  destruct m as [[a|e] t]; simpl; [destruct (f a); reflexivity|].
  now rewrite app_nil_r.
Qed.

(* ================================================================== *)
(** * The probe wrappers *)

Ltac unfold_oracle :=
  cbv [ExtractVideoUrls.is_downloadable_with_ytdlp
       ExtractEmbeddedVideos.is_downloadable_with_ytdlp
       TestYtDlpUrls.is_downloadable_with_ytdlp TestYtDlpUrls.ydl_opts
       yt_dlp_call fallback_video_urls fallback_embedded] in *.

Ltac world_cases w :=
  destruct (import_yt_dlp w) as [[]|[]];
  try match goal with
      | |- context [extract_info w ?o ?u] =>
          destruct (extract_info w o u) as [[]|[]]
      end;
  try match goal with
      | |- context [subprocess_run w ?a ?t] =>
          destruct (subprocess_run w a t) as [[? ?]|[]]
      end;
  cbn;
  try match goal with
      | |- context [(?rc =? 0)%Z] => destruct (rc =? 0)%Z; cbn
      end.

Lemma video_urls_probe_no_Exception (w : World) (url : string) (e : exn) :
  outcome (ExtractVideoUrls.is_downloadable_with_ytdlp w url) = Raise e ->
  is_Exception e = false.
Proof.
  unfold_oracle. world_cases w; try discriminate; intros H;
    injection H as <-; reflexivity.
Qed.

Lemma embedded_probe_no_Exception (w : World) (url : string) (e : exn) :
  outcome (ExtractEmbeddedVideos.is_downloadable_with_ytdlp w url) = Raise e ->
  is_Exception e = false.
Proof.
  unfold_oracle. world_cases w; try discriminate; intros H;
    injection H as <-; reflexivity.
Qed.

Lemma test_probe_no_Exception (w : World) (url : string) (e : exn) :
  outcome (TestYtDlpUrls.is_downloadable_with_ytdlp w url) = Raise e ->
  is_Exception e = false.
Proof.
  unfold_oracle. world_cases w; try discriminate; intros H;
    injection H as <-; reflexivity.
Qed.

Lemma video_urls_probe_trace (w : World) (url : string) :
  Forall (is_probe_of url)
         (trace (ExtractVideoUrls.is_downloadable_with_ytdlp w url)).
Proof.
  unfold_oracle. world_cases w; repeat (constructor; simpl; auto 10).
Qed.

Lemma embedded_probe_trace (w : World) (url : string) :
  Forall (is_probe_of url)
         (trace (ExtractEmbeddedVideos.is_downloadable_with_ytdlp w url)).
Proof.
  unfold_oracle. world_cases w; repeat (constructor; simpl; auto 10).
Qed.

(** The first component of the tuple is the URL that was probed. *)
Lemma embedded_probe_url (w : World) (url u : string) (ok : bool)
      (err : option string) :
  outcome (ExtractEmbeddedVideos.is_downloadable_with_ytdlp w url)
  = Return (u, ok, err) ->
  u = url.
Proof.
  unfold_oracle. world_cases w; try discriminate; intros H;
    injection H as <- _ _; reflexivity.
Qed.

(* ================================================================== *)
(** * Fetching the page *)

Lemma raise_for_status_Exception (response : Response) (e : exn) :
  raise_for_status response = Raise e -> is_Exception e = true.
Proof.
  unfold raise_for_status.
  destruct ((400 <=? status_code response) && (status_code response <? 500))%Z;
    [now intros [= <-]|].
  destruct ((500 <=? status_code response) && (status_code response <? 600))%Z;
    [now intros [= <-]|discriminate].
Qed.

Ltac unfold_extract :=
  cbv [ExtractVideoUrls.extract_video_url_from_webpage
       ExtractEmbeddedVideos.extract_video_urls_from_page fetch] in *.

Ltac fetch_cases w :=
  match goal with
  | |- context [requests_get w ?u ?h ?t] =>
      let response := fresh "response" in
      destruct (requests_get w u h t) as [response|[]]; cbn;
      [destruct (raise_for_status response) as [[]|[]] eqn:?; cbn|..]
  end.

Lemma video_urls_extract_fetch_failed (w : World) (page_url : string) (e : exn) :
  fetch w page_url ExtractVideoUrls.headers 30 = Raise e ->
  is_Exception e = true ->
  ExtractVideoUrls.extract_video_url_from_webpage w page_url
  = (Return [],
     [EvRequestsGet page_url;
      EvLog ERROR ("Error extracting video URL from webpage " +++ page_url
                   +++ ": " +++ exn_str e)]).
Proof.
  unfold_extract. fetch_cases w; try discriminate;
    intros [= <-]; try discriminate; reflexivity.
Qed.

Lemma embedded_extract_fetch_failed (w : World) (page_url : string) (e : exn) :
  fetch w page_url ExtractEmbeddedVideos.HEADERS 20 = Raise e ->
  is_Exception e = true ->
  ExtractEmbeddedVideos.extract_video_urls_from_page w page_url
  = (Return [],
     [EvRequestsGet page_url;
      EvLog ERROR ("Error extracting video URLs from " +++ page_url
                   +++ ": " +++ exn_str e)]).
Proof.
  unfold_extract. fetch_cases w; try discriminate;
    intros [= <-]; try discriminate; reflexivity.
Qed.

Lemma video_urls_extract_fetched (w : World) (page_url : string)
      (response : Response) (raw : list string) :
  fetch w page_url ExtractVideoUrls.headers 30 = Return response ->
  ExtractVideoUrls.potential_urls w page_url response = Return raw ->
  ExtractVideoUrls.extract_video_url_from_webpage w page_url
  = (Return (list_set (py_set w) raw), [EvRequestsGet page_url]).
Proof.
  unfold_extract. fetch_cases w; try discriminate.
  intros [= <-] ->. reflexivity.
Qed.

Lemma embedded_extract_fetched (w : World) (page_url : string)
      (response : Response) (raw : list string) :
  fetch w page_url ExtractEmbeddedVideos.HEADERS 20 = Return response ->
  ExtractEmbeddedVideos.potential_urls w response = Return raw ->
  ExtractEmbeddedVideos.extract_video_urls_from_page w page_url
  = (Return (list_set (py_set w) raw), [EvRequestsGet page_url]).
Proof.
  unfold_extract. fetch_cases w; try discriminate.
  intros [= <-] ->. reflexivity.
Qed.

(* ================================================================== *)
(** * The probing loops *)

Lemma first_downloadable_exhausted (w : World) (l : list string) :
  Forall (fun c =>
            outcome (ExtractVideoUrls.is_downloadable_with_ytdlp w c)
            = Return false) l ->
  ExtractVideoUrls.first_downloadable w l
  = (Return None, video_urls_probes w l).
Proof.
  induction 1 as [|c l Hc _ IH]; [reflexivity|].
  simpl. rewrite (bind_Return _ _ Hc). rewrite IH. reflexivity.
Qed.

Lemma first_downloadable_first (w : World) (pre post : list string)
      (c : string) :
  Forall (fun c =>
            outcome (ExtractVideoUrls.is_downloadable_with_ytdlp w c)
            = Return false) pre ->
  outcome (ExtractVideoUrls.is_downloadable_with_ytdlp w c) = Return true ->
  ExtractVideoUrls.first_downloadable w (pre ++ c :: post)
  = (Return (Some c),
     video_urls_probes w pre
     ++ trace (ExtractVideoUrls.is_downloadable_with_ytdlp w c)).
Proof.
  intros Hpre Hc. induction Hpre as [|d pre Hd _ IH].
  - simpl. rewrite (bind_Return _ _ Hc). simpl. now rewrite app_nil_r.
  - simpl. rewrite (bind_Return _ _ Hd). rewrite IH. simpl.
    unfold video_urls_probes. now rewrite app_assoc.
Qed.

Lemma test_embedded_all (w : World) (l : list string)
      (r : ExtractEmbeddedVideos.results) :
  Forall (fun c => returns (ExtractEmbeddedVideos.is_downloadable_with_ytdlp w c))
         l ->
  exists r',
    ExtractEmbeddedVideos.test_embedded w l r = (Return r', embedded_probes w l)
    /\ ExtractEmbeddedVideos.original_url r'
       = ExtractEmbeddedVideos.original_url r
    /\ ExtractEmbeddedVideos.direct_downloadable r'
       = ExtractEmbeddedVideos.direct_downloadable r
    /\ ExtractEmbeddedVideos.embedded_videos_found r'
       = ExtractEmbeddedVideos.embedded_videos_found r
    /\ ExtractEmbeddedVideos.downloadable_videos r'
       = ExtractEmbeddedVideos.downloadable_videos r
         ++ filter (embedded_accepts w) l.
Proof.
  intros H. revert r. induction H as [|c l [[[u ok] err] Hc] _ IH]; intros r.
  - exists r. simpl. now rewrite app_nil_r.
  - simpl. rewrite (bind_Return _ _ Hc).
    pose proof (embedded_probe_url _ _ Hc) as ->.
    unfold embedded_accepts at 1. rewrite Hc.
    match goal with
    | |- context [ExtractEmbeddedVideos.test_embedded w l ?r0] =>
        destruct (IH r0) as [r' (E & H1 & H2 & H3 & H4)]
    end.
    exists r'. rewrite E. simpl. split; [reflexivity|].
    rewrite H1, H2, H3, H4. destruct ok; [|destruct (truthy err)]; simpl;
      repeat split; try reflexivity.
    now rewrite <- app_assoc.
Qed.

(** The same loop read from its result: the fields of the record. *)
Lemma test_embedded_outcome (w : World) (l : list string)
      (r r' : ExtractEmbeddedVideos.results) :
  outcome (ExtractEmbeddedVideos.test_embedded w l r) = Return r' ->
  ExtractEmbeddedVideos.original_url r'
  = ExtractEmbeddedVideos.original_url r
  /\ ExtractEmbeddedVideos.direct_downloadable r'
     = ExtractEmbeddedVideos.direct_downloadable r
  /\ ExtractEmbeddedVideos.embedded_videos_found r'
     = ExtractEmbeddedVideos.embedded_videos_found r
  /\ ExtractEmbeddedVideos.downloadable_videos r'
     = ExtractEmbeddedVideos.downloadable_videos r
       ++ filter (embedded_accepts w) l
  /\ ExtractEmbeddedVideos.errors r'
     = ExtractEmbeddedVideos.errors r ++ embedded_error_entries w l.
Proof.
  revert r. induction l as [|c l IH]; intros r.
  - simpl. intros [= <-]. now rewrite !app_nil_r.
  - simpl. rewrite outcome_bind. unfold embedded_accepts at 1.
    unfold embedded_error_entries. simpl. unfold embedded_error at 1.
    destruct (outcome (ExtractEmbeddedVideos.is_downloadable_with_ytdlp w c))
      as [[[u ok] err]|e] eqn:Hc; [|discriminate].
    pose proof (@embedded_probe_url _ _ _ _ _ Hc) as ->.
    intros H. apply IH in H as (H1 & H2 & H3 & H4 & H5).
    fold (embedded_error_entries w l).
    destruct ok; simpl in *.
    + rewrite H1, H2, H3, H4, H5, <- app_assoc. auto.
    + destruct err as [[|a m]|]; simpl in *;
        rewrite H1, H2, H3, H4, H5, <- ?app_assoc; auto.
Qed.




(* ================================================================== *)
(** * A concrete page and concrete worlds

    The page at [meeting] holds a [<video>] with a relative source and an
    [<iframe>]; the hashes of the two candidate URLs collide in one slot of
    the set's table. *)

Module Scenario.

Definition meeting : string := "https://example.org/meeting".
Definition media : string := "https://example.org/media/a.mp4".
Definition embed : string := "https://embed.example.com/x".

Definition page_text : string :=
  "<video src='/media/a.mp4'></video><iframe src='https://embed.example.com/x'></iframe>".

Definition page_soup : node :=
  Tag "[document]" []
      [Tag "video" [("src", "/media/a.mp4")] [];
       Tag "iframe" [("src", "https://embed.example.com/x")] []].

Definition empty_soup : node := Tag "[document]" [] [].

(** A second page, served at [site] to whoever asks for [short]. *)
Definition short : string := "https://short.example/e1".
Definition site : string := "https://site.org/events/1".

Definition clip_text : string := "<video src='/clip.mp4'></video>".

Definition clip_soup : node :=
  Tag "[document]" [] [Tag "video" [("src", "/clip.mp4")] []].

Definition parse (text : string) : node :=
  if String.eqb text page_text then page_soup
  else if String.eqb text clip_text then clip_soup
  else empty_soup.

(** The hashes CPython 3.11 gives the two candidate URLs when it is started
    with [PYTHONHASHSEED=14]; no other string shares a set with a second
    one in the scenario. *)
Definition hash (s : string) : Z :=
  if String.eqb s media then (-8773480472812910593)%Z
  else if String.eqb s embed then (-3905651031530210049)%Z
  else 0%Z.

Definition page (final_url : string) : Response :=
  {| status_code := 200; reason := "OK"; text := page_text; url := final_url |}.

(** yt-dlp is installed and accepts the URLs of [accepted]; [get] answers
    [requests.get]. *)
Definition world (accepted : list string)
           (get : string -> result Response) : World :=
  {| import_yt_dlp := Return tt;
     extract_info := fun _ u =>
       if str_in u accepted then Return (Some "info")
       else Raise (OtherException "Unsupported URL");
     subprocess_run := fun _ _ => Raise (OtherException "No such file");
     sys_executable := "/usr/bin/python3";
     requests_get := fun u _ _ => get u;
     html_parser := parse;
     json_loads := fun _ => Raise (ValueError "Expecting value");
     py_set := cpython_set hash |}.

(** The page is served at [meeting], without a redirect. *)
Definition serve (u : string) : result Response :=
  if String.eqb u meeting then Return (page meeting)
  else Raise (RequestException "Connection refused").

(** [short] redirects to [site], which serves the second page. *)
Definition redirect (u : string) : result Response :=
  if String.eqb u short || String.eqb u site
  then Return {| status_code := 200; reason := "OK"; text := clip_text; url := site |}
  else Raise (RequestException "Connection refused").

(** Nothing is served. *)
Definition refuse (u : string) : result Response :=
  Raise (RequestException "Connection refused").

(** A page without any markup is served. *)
Definition serve_blank (u : string) : result Response :=
  Return {| status_code := 200; reason := "OK"; text := ""; url := u |}.

(** yt-dlp is not installed; the fallback process exits with [rc]. *)
Definition world_without_yt_dlp (rc : Z) : World :=
  {| import_yt_dlp := Raise (ImportError "No module named 'yt_dlp'");
     extract_info := fun _ _ => Return None;
     subprocess_run := fun _ _ =>
       Return {| returncode := rc; stderr := "" |};
     sys_executable := "/usr/bin/python3";
     requests_get := fun u _ _ => refuse u;
     html_parser := parse;
     json_loads := fun _ => Raise (ValueError "Expecting value");
     py_set := cpython_set hash |}.

(** yt-dlp is not installed and the fallback process times out. *)
Definition world_with_timeout : World :=
  {| import_yt_dlp := Raise (ImportError "No module named 'yt_dlp'");
     extract_info := fun _ _ => Return None;
     subprocess_run := fun _ _ => Raise (TimeoutExpired "timed out");
     sys_executable := "/usr/bin/python3";
     requests_get := fun u _ _ => refuse u;
     html_parser := parse;
     json_loads := fun _ => Raise (ValueError "Expecting value");
     py_set := cpython_set hash |}.

End Scenario.

(* ================================================================== *)
(** * Pages for the examples

    A world that serves one document: the page text [body], parsed as
    [soup], under every URL and without a redirect; yt-dlp accepts the
    URLs of [accepted]; sets iterate in the order of first appearance. *)

Module Pages.

Definition world (soup : node) (body : string) (accepted : list string)
  : World :=
  {| import_yt_dlp := Return tt;
     extract_info := fun _ u =>
       if str_in u accepted then Return (Some "info")
       else Raise (OtherException "Unsupported URL");
     subprocess_run := fun _ _ => Raise (OtherException "No such file");
     sys_executable := "/usr/bin/python3";
     requests_get := fun u _ _ =>
       Return {| status_code := 200; reason := "OK"; text := body; url := u |};
     html_parser := fun _ => soup;
     json_loads := fun _ => Raise (ValueError "Expecting value");
     py_set := insertion_order |}.

Definition meeting : string := "https://example.org/meetings/7".

(** An embedded player given by a relative address. *)
Definition player_text : string :=
  "<iframe src='/player/5'></iframe>".

Definition player_soup : node :=
  Tag "[document]" [] [Tag "iframe" [("src", "/player/5")] []].

(** A media element whose source cannot be joined, then a player. *)
Definition broken_text : string :=
  "<video src='//[x'></video><iframe src='https://embed.example.com/x'></iframe>".

Definition broken_soup : node :=
  Tag "[document]" []
      [Tag "video" [("src", "//[x")] [];
       Tag "iframe" [("src", "https://embed.example.com/x")] []].

(** A link without an address. *)
Definition button_text : string := "<a>Download the recording</a>".

Definition button_soup : node :=
  Tag "[document]" []
      [Tag "a" [] [NavigableString "Download the recording"]].




(** yt-dlp is not installed and the fallback process exits with status 1
    and writes nothing to its standard error; the page of the scenario is
    served. *)
Definition wordless_world : World :=
  {| import_yt_dlp := Raise (ImportError "No module named 'yt_dlp'");
     extract_info := fun _ _ => Return None;
     subprocess_run := fun _ _ =>
       Return {| returncode := 1; stderr := "" |};
     sys_executable := "/usr/bin/python3";
     requests_get := fun u _ _ => Scenario.serve u;
     html_parser := Scenario.parse;
     json_loads := fun _ => Raise (ValueError "Expecting value");
     py_set := cpython_set Scenario.hash |}.

(** A world in which [extract_info] answers [None] for every URL. *)
Definition silent_world : World :=
  {| import_yt_dlp := Return tt;
     extract_info := fun _ _ => Return None;
     subprocess_run := fun _ _ => Raise (OtherException "No such file");
     sys_executable := "/usr/bin/python3";
     requests_get := fun u _ _ => Scenario.refuse u;
     html_parser := Scenario.parse;
     json_loads := fun _ => Raise (ValueError "Expecting value");
     py_set := insertion_order |}.

End Pages.

(* ================================================================== *)
(** * [process_url], step by step *)

Lemma list_set_nil (S : PySet) : list_set S [] = [].
Proof.
  destruct (list_set S []) as [|x l] eqn:E; [reflexivity|].
  exfalso. apply (proj1 (list_set_In S [] x)). rewrite E. now left.
Qed.


Lemma embedded_extract_NoDup (w : World) (page_url : string)
      (cands : list string) :
  outcome (ExtractEmbeddedVideos.extract_video_urls_from_page w page_url)
  = Return cands ->
  NoDup cands.
Proof.
  unfold_extract. fetch_cases w; try discriminate;
    try (intros [= <-]; constructor).
  match goal with
  | |- context [ExtractEmbeddedVideos.potential_urls ?w ?r] =>
      destruct (ExtractEmbeddedVideos.potential_urls w r) as [?|[]]
  end; cbn; try discriminate; intros [= <-];
    first [apply list_set_NoDup | constructor].
Qed.

Lemma video_urls_process_url_indirect (w : World) (url : string)
      (cands : list string) (found : option string) :
  outcome (ExtractVideoUrls.is_downloadable_with_ytdlp w url) = Return false ->
  outcome (ExtractVideoUrls.extract_video_url_from_webpage w url)
  = Return cands ->
  outcome (ExtractVideoUrls.first_downloadable w cands) = Return found ->
  ExtractVideoUrls.process_url w url
  = (Return found,
     trace (ExtractVideoUrls.is_downloadable_with_ytdlp w url)
     ++ trace (ExtractVideoUrls.extract_video_url_from_webpage w url)
     ++ trace (ExtractVideoUrls.first_downloadable w cands)
     ++ match found with
        | Some _ => []
        | None => [not_found_warning url]
        end).
Proof.
  intros Hd He Hf. unfold ExtractVideoUrls.process_url.
  rewrite (bind_Return _ _ Hd). simpl.
  rewrite (bind_Return _ _ He). simpl.
  rewrite (bind_Return _ _ Hf). simpl.
  destruct found; reflexivity.
Qed.

Lemma embedded_process_url_indirect (w : World) (url u : string)
      (err : option string) (cands : list string) :
  outcome (ExtractEmbeddedVideos.is_downloadable_with_ytdlp w url)
  = Return (u, false, err) ->
  outcome (ExtractEmbeddedVideos.extract_video_urls_from_page w url)
  = Return cands ->
  Forall (fun c => returns (ExtractEmbeddedVideos.is_downloadable_with_ytdlp w c))
         cands ->
  exists r,
    ExtractEmbeddedVideos.process_url w url
    = (Return r,
       trace (ExtractEmbeddedVideos.is_downloadable_with_ytdlp w url)
       ++ trace (ExtractEmbeddedVideos.extract_video_urls_from_page w url)
       ++ embedded_probes w cands)
    /\ ExtractEmbeddedVideos.original_url r = url
    /\ ExtractEmbeddedVideos.direct_downloadable r = false
    /\ ExtractEmbeddedVideos.embedded_videos_found r = cands
    /\ ExtractEmbeddedVideos.downloadable_videos r
       = filter (embedded_accepts w) cands.
Proof.
  intros Hd He Hc. unfold ExtractEmbeddedVideos.process_url.
  rewrite (bind_Return _ _ Hd). simpl.
  rewrite (bind_Return _ _ He). simpl.
  match goal with
  | |- context [ExtractEmbeddedVideos.test_embedded w cands ?r0] =>
      destruct (@test_embedded_all w cands r0 Hc)
        as [r (E & H1 & H2 & H3 & H4)]
  end.
  exists r. rewrite E. simpl. repeat split; assumption.
Qed.



(* ================================================================== *)
(** * The probe wrappers and exceptions *)

Ltac oracle_case_proof w :=
  unfold_oracle; world_cases w; intros;
  repeat match goal with
         | H : Raise _ = Raise _ |- _ => injection H as <-
         | H : Return _ = Return _ |- _ => injection H as <-
         end;
  try discriminate; try reflexivity.

Lemma video_urls_probe_other_exception (w : World) (url : string) (e : exn) :
  yt_dlp_call w ExtractVideoUrls.ydl_opts url = Raise e ->
  is_Exception e = true -> is_ImportError e = false ->
  outcome (ExtractVideoUrls.is_downloadable_with_ytdlp w url) = Return false.
Proof. oracle_case_proof w. Qed.

Lemma embedded_probe_other_exception (w : World) (url : string) (e : exn) :
  yt_dlp_call w ExtractEmbeddedVideos.ydl_opts url = Raise e ->
  is_Exception e = true -> is_ImportError e = false ->
  outcome (ExtractEmbeddedVideos.is_downloadable_with_ytdlp w url)
  = Return (url, false, Some (exn_str e)).
Proof. oracle_case_proof w. Qed.

Lemma test_probe_exception (w : World) (url : string) (e : exn) :
  yt_dlp_call w TestYtDlpUrls.ydl_opts url = Raise e ->
  is_Exception e = true ->
  outcome (TestYtDlpUrls.is_downloadable_with_ytdlp w url)
  = Return (url, false,
            Some (if is_ImportError e then "Import error: " +++ exn_str e
                  else exn_str e)).
Proof. oracle_case_proof w. Qed.

Lemma video_urls_probe_import_failure (w : World) (url : string) (e : exn) :
  yt_dlp_call w ExtractVideoUrls.ydl_opts url = Raise e ->
  is_ImportError e = true ->
  outcome (ExtractVideoUrls.is_downloadable_with_ytdlp w url)
  = video_urls_fallback_verdict (fallback_video_urls w url).
Proof. oracle_case_proof w. Qed.

Lemma embedded_probe_import_failure (w : World) (url : string) (e : exn) :
  yt_dlp_call w ExtractEmbeddedVideos.ydl_opts url = Raise e ->
  is_ImportError e = true ->
  outcome (ExtractEmbeddedVideos.is_downloadable_with_ytdlp w url)
  = embedded_fallback_verdict url (fallback_embedded w url).
Proof. oracle_case_proof w. Qed.

(** C10 as stated fails: with yt-dlp not installed, the import inside
    [is_downloadable_with_ytdlp] raises [ImportError], and the wrappers of
    [extract_video_urls.py] and [extract_embedded_videos.py] answer
    "downloadable" when the fallback process exits with status 0. *)
Lemma probe_import_failure_counterexample :
  import_yt_dlp (Scenario.world_without_yt_dlp 0)
  = Raise (ImportError "No module named 'yt_dlp'")
  /\ outcome (ExtractVideoUrls.is_downloadable_with_ytdlp
                (Scenario.world_without_yt_dlp 0) Scenario.meeting)
     = Return true
  /\ outcome (ExtractEmbeddedVideos.is_downloadable_with_ytdlp
                (Scenario.world_without_yt_dlp 0) Scenario.meeting)
     = Return (Scenario.meeting, true, None).
Proof. repeat split. Qed.

(** C10, amended.  No exception that derives from [Exception] leaves any of
    the three wrappers.  When the yt-dlp call raises such an exception other
    than an import failure, the answer is "not downloadable" (with the
    message, in the tuple versions).  On an import failure
    [test_yt_dlp_urls.py] answers "not downloadable"; the other two run the
    subprocess fallback, whose exit status decides (0 is "downloadable"),
    and whose own exceptions, a timeout among them, give "not
    downloadable". *)
Theorem probe_wrapper_total (w : World) (url : string) :
  (forall e,
      outcome (ExtractVideoUrls.is_downloadable_with_ytdlp w url) = Raise e
      \/ outcome (ExtractEmbeddedVideos.is_downloadable_with_ytdlp w url)
         = Raise e
      \/ outcome (TestYtDlpUrls.is_downloadable_with_ytdlp w url) = Raise e ->
      is_Exception e = false)
  /\ (forall e,
         is_Exception e = true -> is_ImportError e = false ->
         (yt_dlp_call w ExtractVideoUrls.ydl_opts url = Raise e ->
          outcome (ExtractVideoUrls.is_downloadable_with_ytdlp w url)
          = Return false)
         /\ (yt_dlp_call w ExtractEmbeddedVideos.ydl_opts url = Raise e ->
             outcome (ExtractEmbeddedVideos.is_downloadable_with_ytdlp w url)
             = Return (url, false, Some (exn_str e))
             /\ outcome (TestYtDlpUrls.is_downloadable_with_ytdlp w url)
                = Return (url, false, Some (exn_str e))))
  /\ (forall e,
         is_ImportError e = true ->
         (yt_dlp_call w ExtractVideoUrls.ydl_opts url = Raise e ->
          outcome (ExtractVideoUrls.is_downloadable_with_ytdlp w url)
          = video_urls_fallback_verdict (fallback_video_urls w url))
         /\ (yt_dlp_call w ExtractEmbeddedVideos.ydl_opts url = Raise e ->
             outcome (ExtractEmbeddedVideos.is_downloadable_with_ytdlp w url)
             = embedded_fallback_verdict url (fallback_embedded w url)
             /\ outcome (TestYtDlpUrls.is_downloadable_with_ytdlp w url)
                = Return (url, false,
                          Some ("Import error: " +++ exn_str e)))).
Proof.
  split; [|split].
  - intros e [H|[H|H]].
    + exact (video_urls_probe_no_Exception _ _ H).
    + exact (embedded_probe_no_Exception _ _ H).
    + exact (test_probe_no_Exception _ _ H).
  - intros e He Hi. split.
    + intros H. exact (video_urls_probe_other_exception _ _ H He Hi).
    + intros H. split.
      * exact (embedded_probe_other_exception _ _ H He Hi).
      * rewrite (test_probe_exception w url H He). now rewrite Hi.
  - intros e Hi.
    assert (He : is_Exception e = true) by (now destruct e).
    split.
    + intros H. exact (video_urls_probe_import_failure _ _ H Hi).
    + intros H. split.
      * exact (embedded_probe_import_failure _ _ H Hi).
      * rewrite (test_probe_exception w url H He). now rewrite Hi.
Qed.

(** The theorem at a world where yt-dlp is missing and the fallback process
    times out: both fallbacks answer "not downloadable". *)
Lemma probe_wrapper_total_witness :
  outcome (ExtractVideoUrls.is_downloadable_with_ytdlp
             Scenario.world_with_timeout Scenario.meeting)
  = Return false
  /\ outcome (ExtractEmbeddedVideos.is_downloadable_with_ytdlp
                Scenario.world_with_timeout Scenario.meeting)
     = Return (Scenario.meeting, false, Some "Subprocess error: timed out").
Proof.
  destruct (probe_wrapper_total Scenario.world_with_timeout Scenario.meeting)
    as (_ & _ & H).
  destruct (H (ImportError "No module named 'yt_dlp'") eq_refl) as [H1 H2].
  split.
  - exact (H1 eq_refl).
  - exact (proj1 (H2 eq_refl)).
Defined.

(* ================================================================== *)
(** * The direct probe *)

(** C4.  When the direct probe succeeds, [process_url] returns the original
    URL ([extract_video_urls.py]) or a record with [direct_downloadable] set,
    the original URL as only downloadable video and no embedded video
    ([extract_embedded_videos.py]); the only events are those of the probe
    of the original URL: no page is fetched and no candidate is probed. *)
Theorem direct_probe_short_circuit (w : World) (url : string) :
  (outcome (ExtractVideoUrls.is_downloadable_with_ytdlp w url) = Return true ->
   ExtractVideoUrls.process_url w url
   = (Return (Some url),
      trace (ExtractVideoUrls.is_downloadable_with_ytdlp w url))
   /\ Forall (is_probe_of url) (trace (ExtractVideoUrls.process_url w url)))
  /\ (forall u err,
         outcome (ExtractEmbeddedVideos.is_downloadable_with_ytdlp w url)
         = Return (u, true, err) ->
         ExtractEmbeddedVideos.process_url w url
         = (Return {| ExtractEmbeddedVideos.original_url := url;
                      ExtractEmbeddedVideos.direct_downloadable := true;
                      ExtractEmbeddedVideos.embedded_videos_found := [];
                      ExtractEmbeddedVideos.downloadable_videos := [url];
                      ExtractEmbeddedVideos.errors := [] |},
            trace (ExtractEmbeddedVideos.is_downloadable_with_ytdlp w url))
         /\ Forall (is_probe_of url)
                   (trace (ExtractEmbeddedVideos.process_url w url))).
Proof.
  split.
  - intros H.
    assert (E : ExtractVideoUrls.process_url w url
                = (Return (Some url),
                   trace (ExtractVideoUrls.is_downloadable_with_ytdlp w url))).
    { unfold ExtractVideoUrls.process_url. rewrite (bind_Return _ _ H).
      simpl. now rewrite app_nil_r. }
    split; [exact E|]. rewrite E. apply video_urls_probe_trace.
  - intros u err H.
    pose proof (embedded_probe_url _ _ H) as ->.
    assert (E : ExtractEmbeddedVideos.process_url w url
                = (Return {| ExtractEmbeddedVideos.original_url := url;
                             ExtractEmbeddedVideos.direct_downloadable := true;
                             ExtractEmbeddedVideos.embedded_videos_found := [];
                             ExtractEmbeddedVideos.downloadable_videos := [url];
                             ExtractEmbeddedVideos.errors := [] |},
                   trace (ExtractEmbeddedVideos.is_downloadable_with_ytdlp
                            w url))).
    { unfold ExtractEmbeddedVideos.process_url. rewrite (bind_Return _ _ H).
      simpl. now rewrite app_nil_r. }
    split; [exact E|]. rewrite E. apply embedded_probe_trace.
Qed.

(** The theorem at a world whose yt-dlp accepts the meeting URL itself. *)
Lemma direct_probe_short_circuit_witness :
  ExtractVideoUrls.process_url
    (Scenario.world [Scenario.meeting] Scenario.serve) Scenario.meeting
  = (Return (Some Scenario.meeting), [EvExtractInfo Scenario.meeting])
  /\ trace (ExtractEmbeddedVideos.process_url
              (Scenario.world [Scenario.meeting] Scenario.serve)
              Scenario.meeting)
     = [EvExtractInfo Scenario.meeting].
Proof.
  destruct (direct_probe_short_circuit
              (Scenario.world [Scenario.meeting] Scenario.serve)
              Scenario.meeting) as [H1 H2].
  split.
  - exact (proj1 (H1 eq_refl)).
  - exact (f_equal snd (proj1 (H2 Scenario.meeting None eq_refl))).
Defined.

(* ================================================================== *)
(** * Probing the candidates *)

(** C3 as stated fails in [extract_embedded_videos.py]: both candidates of
    the page are accepted, the first probe (of [embed]) succeeds, and
    [media] is probed after it all the same; both end in
    [downloadable_videos]. *)
Lemma probing_after_success_counterexample :
  let w := Scenario.world [Scenario.media; Scenario.embed] Scenario.serve in
  outcome (ExtractEmbeddedVideos.extract_video_urls_from_page w Scenario.meeting)
  = Return [Scenario.embed; Scenario.media]
  /\ embedded_accepts w Scenario.embed = true
  /\ trace (ExtractEmbeddedVideos.process_url w Scenario.meeting)
     = [EvExtractInfo Scenario.meeting; EvRequestsGet Scenario.meeting;
        EvExtractInfo Scenario.embed; EvExtractInfo Scenario.media]
  /\ option_map ExtractEmbeddedVideos.downloadable_videos
       (match outcome (ExtractEmbeddedVideos.process_url w Scenario.meeting)
        with Return r => Some r | Raise _ => None end)
     = Some [Scenario.embed; Scenario.media].
Proof. vm_compute. repeat split. Qed.

(** C3, amended.  After a failed direct probe the candidates are probed in
    list order.  In [extract_video_urls.py] the first accepted candidate [c]
    is returned and no later candidate is probed.  In
    [extract_embedded_videos.py] every candidate is probed, also those after
    [c], and [downloadable_videos] lists the accepted ones in list order,
    [c] first. *)
Theorem probing_in_list_order (w : World) (url : string)
        (pre post : list string) (c : string) :
  (outcome (ExtractVideoUrls.is_downloadable_with_ytdlp w url) = Return false ->
   outcome (ExtractVideoUrls.extract_video_url_from_webpage w url)
   = Return (pre ++ c :: post) ->
   Forall (fun d =>
             outcome (ExtractVideoUrls.is_downloadable_with_ytdlp w d)
             = Return false) pre ->
   outcome (ExtractVideoUrls.is_downloadable_with_ytdlp w c) = Return true ->
   ExtractVideoUrls.process_url w url
   = (Return (Some c),
      trace (ExtractVideoUrls.is_downloadable_with_ytdlp w url)
      ++ trace (ExtractVideoUrls.extract_video_url_from_webpage w url)
      ++ video_urls_probes w pre
      ++ trace (ExtractVideoUrls.is_downloadable_with_ytdlp w c)))
  /\ (forall u err,
         outcome (ExtractEmbeddedVideos.is_downloadable_with_ytdlp w url)
         = Return (u, false, err) ->
         outcome (ExtractEmbeddedVideos.extract_video_urls_from_page w url)
         = Return (pre ++ c :: post) ->
         Forall (fun d =>
                   returns (ExtractEmbeddedVideos.is_downloadable_with_ytdlp w d))
                (pre ++ c :: post) ->
         Forall (fun d => embedded_accepts w d = false) pre ->
         embedded_accepts w c = true ->
         exists r,
           ExtractEmbeddedVideos.process_url w url
           = (Return r,
              trace (ExtractEmbeddedVideos.is_downloadable_with_ytdlp w url)
              ++ trace (ExtractEmbeddedVideos.extract_video_urls_from_page
                          w url)
              ++ embedded_probes w pre
              ++ trace (ExtractEmbeddedVideos.is_downloadable_with_ytdlp w c)
              ++ embedded_probes w post)
           /\ ExtractEmbeddedVideos.downloadable_videos r
              = c :: filter (embedded_accepts w) post).
Proof.
  split.
  - intros Hd He Hpre Hc.
    pose proof (@first_downloadable_first w pre post c Hpre Hc) as Hf.
    rewrite (@video_urls_process_url_indirect w url _ (Some c) Hd He).
    + rewrite Hf. simpl. now rewrite !app_nil_r.
    + now rewrite Hf.
  - intros u err Hd He Hret Hpre Hc.
    destruct (@embedded_process_url_indirect w url u err _ Hd He Hret)
      as [r (E & _ & _ & _ & Hv)].
    exists r. split.
    + rewrite E. unfold embedded_probes. rewrite flat_map_app. simpl.
      reflexivity.
    + rewrite Hv, filter_app. simpl. rewrite Hc.
      replace (filter (embedded_accepts w) pre) with (@nil string);
        [reflexivity|].
      symmetry. clear -Hpre. induction Hpre as [|d pre Hd _ IH];
        [reflexivity|]. simpl. now rewrite Hd.
Qed.

(** The theorem on the page of the scenario, where yt-dlp accepts [embed]
    only: the candidates come out of the set as [embed; media]. *)
Lemma probing_in_list_order_witness :
  let w := Scenario.world [Scenario.embed] Scenario.serve in
  ExtractVideoUrls.process_url w Scenario.meeting
  = (Return (Some Scenario.embed),
     [EvExtractInfo Scenario.meeting;
      EvLog ERROR
        "Error checking URL with yt-dlp: https://example.org/meeting, Unsupported URL";
      EvRequestsGet Scenario.meeting;
      EvExtractInfo Scenario.embed])
  /\ exists r,
      ExtractEmbeddedVideos.process_url w Scenario.meeting
      = (Return r,
         [EvExtractInfo Scenario.meeting; EvRequestsGet Scenario.meeting;
          EvExtractInfo Scenario.embed; EvExtractInfo Scenario.media])
      /\ ExtractEmbeddedVideos.downloadable_videos r = [Scenario.embed].
Proof.
  intros w.
  destruct (probing_in_list_order w Scenario.meeting [] [Scenario.media]
                                  Scenario.embed) as [H1 H2].
  split.
  - assert (Hd : outcome (ExtractVideoUrls.is_downloadable_with_ytdlp
                            w Scenario.meeting) = Return false)
      by (vm_compute; reflexivity).
    assert (He : outcome (ExtractVideoUrls.extract_video_url_from_webpage
                            w Scenario.meeting)
                 = Return ([] ++ Scenario.embed :: [Scenario.media]))
      by (vm_compute; reflexivity).
    assert (Hc : outcome (ExtractVideoUrls.is_downloadable_with_ytdlp
                            w Scenario.embed) = Return true)
      by (vm_compute; reflexivity).
    pose proof (H1 Hd He (Forall_nil _) Hc) as R.
    vm_compute in R |- *. exact R.
  - assert (Hd : outcome (ExtractEmbeddedVideos.is_downloadable_with_ytdlp
                            w Scenario.meeting)
                 = Return (Scenario.meeting, false, Some "Unsupported URL"))
      by (vm_compute; reflexivity).
    assert (He : outcome (ExtractEmbeddedVideos.extract_video_urls_from_page
                            w Scenario.meeting)
                 = Return ([] ++ Scenario.embed :: [Scenario.media]))
      by (vm_compute; reflexivity).
    assert (Hr : Forall
                   (fun d => returns
                      (ExtractEmbeddedVideos.is_downloadable_with_ytdlp w d))
                   ([] ++ Scenario.embed :: [Scenario.media])).
    { constructor; [|constructor; [|constructor]].
      - exists (Scenario.embed, true, None). vm_compute. reflexivity.
      - exists (Scenario.media, false, Some "Unsupported URL").
        vm_compute. reflexivity. }
    assert (Hc : embedded_accepts w Scenario.embed = true)
      by (vm_compute; reflexivity).
    destruct (H2 _ _ Hd He Hr (Forall_nil _) Hc) as [r [E Hv]].
    exists r. split.
    + rewrite E. vm_compute. reflexivity.
    + rewrite Hv. vm_compute. reflexivity.
Defined.

(* ================================================================== *)
(** * A page that cannot be fetched *)

(** C5 as stated fails: the connection is refused in one world, a page
    without candidates is served in the other, and [process_url] returns the
    same value in both; the refusal is in the log only. *)
Lemma fetch_failure_counterexample :
  fetch (Scenario.world [] Scenario.refuse) Scenario.meeting
        ExtractVideoUrls.headers 30
  = Raise (RequestException "Connection refused")
  /\ outcome (ExtractVideoUrls.process_url
                (Scenario.world [] Scenario.refuse) Scenario.meeting)
     = outcome (ExtractVideoUrls.process_url
                  (Scenario.world [] Scenario.serve_blank) Scenario.meeting)
  /\ outcome (ExtractEmbeddedVideos.process_url
                (Scenario.world [] Scenario.refuse) Scenario.meeting)
     = outcome (ExtractEmbeddedVideos.process_url
                  (Scenario.world [] Scenario.serve_blank) Scenario.meeting).
Proof. vm_compute. repeat split. Qed.

(** C5, amended.  When the direct probe fails and the page fetch fails with
    a network error or a 4xx/5xx status, no exception reaches the caller and
    the resolution is unresolved: [extract_video_urls.process_url] returns
    [None], [extract_embedded_videos.process_url] a record without embedded
    or downloadable videos.  The fetch error is written to the log and is
    not part of the returned value, which is the value returned for a
    fetched page without candidates. *)
Theorem fetch_failure_unresolved (w : World) (url : string) (e : exn) :
  is_Exception e = true ->
  (outcome (ExtractVideoUrls.is_downloadable_with_ytdlp w url) = Return false ->
   (fetch w url ExtractVideoUrls.headers 30 = Raise e ->
    ExtractVideoUrls.process_url w url
    = (Return None,
       trace (ExtractVideoUrls.is_downloadable_with_ytdlp w url)
       ++ [EvRequestsGet url;
           EvLog ERROR ("Error extracting video URL from webpage " +++ url
                        +++ ": " +++ exn_str e);
           not_found_warning url]))
   /\ (forall response,
          fetch w url ExtractVideoUrls.headers 30 = Return response ->
          ExtractVideoUrls.potential_urls w url response = Return [] ->
          outcome (ExtractVideoUrls.process_url w url) = Return None))
  /\ (forall u err,
         outcome (ExtractEmbeddedVideos.is_downloadable_with_ytdlp w url)
         = Return (u, false, err) ->
         let unresolved :=
           {| ExtractEmbeddedVideos.original_url := url;
              ExtractEmbeddedVideos.direct_downloadable := false;
              ExtractEmbeddedVideos.embedded_videos_found := [];
              ExtractEmbeddedVideos.downloadable_videos := [];
              ExtractEmbeddedVideos.errors := direct_error_entry err |} in
         (fetch w url ExtractEmbeddedVideos.HEADERS 20 = Raise e ->
          ExtractEmbeddedVideos.process_url w url
          = (Return unresolved,
             trace (ExtractEmbeddedVideos.is_downloadable_with_ytdlp w url)
             ++ [EvRequestsGet url;
                 EvLog ERROR ("Error extracting video URLs from " +++ url
                              +++ ": " +++ exn_str e)]))
         /\ (forall response,
                fetch w url ExtractEmbeddedVideos.HEADERS 20
                = Return response ->
                ExtractEmbeddedVideos.potential_urls w response = Return [] ->
                outcome (ExtractEmbeddedVideos.process_url w url)
                = Return unresolved)).
Proof.
  intros He. split.
  - intros Hd. split.
    + intros Hf.
      pose proof (video_urls_extract_fetch_failed _ _ Hf He) as E.
      rewrite (@video_urls_process_url_indirect w url [] None Hd).
      * rewrite E. reflexivity.
      * now rewrite E.
      * reflexivity.
    + intros response Hf Hp.
      pose proof (video_urls_extract_fetched _ _ Hf Hp) as E.
      rewrite list_set_nil in E.
      rewrite (@video_urls_process_url_indirect w url [] None Hd).
      * reflexivity.
      * now rewrite E.
      * reflexivity.
  - intros u err Hd unresolved. split.
    + intros Hf.
      pose proof (embedded_extract_fetch_failed _ _ Hf He) as E.
      unfold ExtractEmbeddedVideos.process_url.
      rewrite (bind_Return _ _ Hd). simpl. rewrite E. reflexivity.
    + intros response Hf Hp.
      pose proof (embedded_extract_fetched _ _ Hf Hp) as E.
      rewrite list_set_nil in E.
      unfold ExtractEmbeddedVideos.process_url.
      rewrite (bind_Return _ _ Hd). simpl. rewrite E. reflexivity.
Qed.

(** The theorem at the world that refuses the connection. *)
Lemma fetch_failure_unresolved_witness :
  ExtractVideoUrls.process_url
    (Scenario.world [] Scenario.refuse) Scenario.meeting
  = (Return None,
     [EvExtractInfo Scenario.meeting;
      EvLog ERROR
        "Error checking URL with yt-dlp: https://example.org/meeting, Unsupported URL";
      EvRequestsGet Scenario.meeting;
      EvLog ERROR
        "Error extracting video URL from webpage https://example.org/meeting: Connection refused";
      EvLog WARNING
        "No downloadable video URL found for: https://example.org/meeting"])
  /\ outcome (ExtractEmbeddedVideos.process_url
                (Scenario.world [] Scenario.refuse) Scenario.meeting)
     = Return {| ExtractEmbeddedVideos.original_url := Scenario.meeting;
                 ExtractEmbeddedVideos.direct_downloadable := false;
                 ExtractEmbeddedVideos.embedded_videos_found := [];
                 ExtractEmbeddedVideos.downloadable_videos := [];
                 ExtractEmbeddedVideos.errors :=
                   ["Direct URL error: Unsupported URL"] |}.
Proof.
  set (w := Scenario.world [] Scenario.refuse).
  assert (Hf1 : fetch w Scenario.meeting ExtractVideoUrls.headers 30
                = Raise (RequestException "Connection refused"))
    by (vm_compute; reflexivity).
  assert (Hf2 : fetch w Scenario.meeting ExtractEmbeddedVideos.HEADERS 20
                = Raise (RequestException "Connection refused"))
    by (vm_compute; reflexivity).
  assert (Hd1 : outcome (ExtractVideoUrls.is_downloadable_with_ytdlp
                           w Scenario.meeting) = Return false)
    by (vm_compute; reflexivity).
  assert (Hd2 : outcome (ExtractEmbeddedVideos.is_downloadable_with_ytdlp
                           w Scenario.meeting)
                = Return (Scenario.meeting, false, Some "Unsupported URL"))
    by (vm_compute; reflexivity).
  destruct (@fetch_failure_unresolved
              w Scenario.meeting (RequestException "Connection refused")
              eq_refl) as [H1 H2].
  split.
  - pose proof (proj1 (H1 Hd1) Hf1) as R. vm_compute in R |- *. exact R.
  - pose proof (f_equal fst (proj1 (H2 _ _ Hd2) Hf2)) as R.
    vm_compute in R |- *. exact R.
Defined.

(* ================================================================== *)
(** * Every candidate rejected *)

(** C6 as stated fails: neither script keeps a list of tried candidates or
    gives a reason.  On the page of the scenario, yt-dlp rejecting both
    candidates, [extract_video_urls.process_url] returns [None] after the
    warning it also ends with on a page without any candidate.
    [extract_embedded_videos.process_url] returns a record of five fields:
    both candidates under [embedded_videos_found], and under [errors] three
    texts for two candidates, the first for the direct probe; when the
    rejections come without an error text, [errors] is empty. *)
Lemma exhaustion_reason_counterexample :
  let w := Scenario.world [] Scenario.serve in
  let blank := Scenario.world [] Scenario.serve_blank in
  outcome (ExtractVideoUrls.extract_video_url_from_webpage w Scenario.meeting)
  = Return [Scenario.embed; Scenario.media]
  /\ outcome (ExtractVideoUrls.extract_video_url_from_webpage
                blank Scenario.meeting)
     = Return []
  /\ outcome (ExtractVideoUrls.process_url w Scenario.meeting) = Return None
  /\ outcome (ExtractVideoUrls.process_url blank Scenario.meeting)
     = Return None
  /\ last (trace (ExtractVideoUrls.process_url w Scenario.meeting))
          (EvLog ERROR "")
     = EvLog WARNING
         "No downloadable video URL found for: https://example.org/meeting"
  /\ last (trace (ExtractVideoUrls.process_url blank Scenario.meeting))
          (EvLog ERROR "")
     = EvLog WARNING
         "No downloadable video URL found for: https://example.org/meeting"
  /\ outcome (ExtractEmbeddedVideos.process_url w Scenario.meeting)
     = Return
         {| ExtractEmbeddedVideos.original_url := Scenario.meeting;
            ExtractEmbeddedVideos.direct_downloadable := false;
            ExtractEmbeddedVideos.embedded_videos_found :=
              [Scenario.embed; Scenario.media];
            ExtractEmbeddedVideos.downloadable_videos := [];
            ExtractEmbeddedVideos.errors :=
              ["Direct URL error: Unsupported URL";
               "Embedded URL error (https://embed.example.com/x): Unsupported URL";
               "Embedded URL error (https://example.org/media/a.mp4): Unsupported URL"]
         |}
  /\ outcome (ExtractEmbeddedVideos.process_url
                Pages.wordless_world Scenario.meeting)
     = Return
         {| ExtractEmbeddedVideos.original_url := Scenario.meeting;
            ExtractEmbeddedVideos.direct_downloadable := false;
            ExtractEmbeddedVideos.embedded_videos_found :=
              [Scenario.embed; Scenario.media];
            ExtractEmbeddedVideos.downloadable_videos := [];
            ExtractEmbeddedVideos.errors := [] |}.
Proof. vm_compute. repeat split. Qed.



(* ================================================================== *)
(** * Removing duplicates *)

(** C1 as stated fails: the page of the scenario yields the media source
    before the iframe source, and [list(set(...))] hands them back in the
    table's order, the iframe source first. *)
Lemma dedup_order_counterexample :
  let w := Scenario.world [] Scenario.serve in
  ExtractVideoUrls.potential_urls w Scenario.meeting
                                  (Scenario.page Scenario.meeting)
  = Return [Scenario.media; Scenario.embed]
  /\ Deduplicator_spec [Scenario.media; Scenario.embed]
     = [Scenario.media; Scenario.embed]
  /\ list_set (py_set w) [Scenario.media; Scenario.embed]
     = [Scenario.embed; Scenario.media]
  /\ outcome (ExtractVideoUrls.extract_video_url_from_webpage
                w Scenario.meeting)
     = Return [Scenario.embed; Scenario.media].
Proof. vm_compute. repeat split. Qed.

(** C1, amended.  The de-duplicated list holds every URL of the raw
    candidate list exactly once (no two entries are equal); it is a
    rearrangement of the list of first appearances, in the iteration order
    of the set, which need not be the order of first appearance.  This list
    is what both extraction functions return for a fetched page. *)
Theorem dedup_unique_any_order (w : World) (raw : list string) :
  NoDup (list_set (py_set w) raw)
  /\ (forall u, In u (list_set (py_set w) raw) <-> In u raw)
  /\ Permutation (list_set (py_set w) raw) (Deduplicator_spec raw)
  /\ (forall page_url response,
         fetch w page_url ExtractVideoUrls.headers 30 = Return response ->
         ExtractVideoUrls.potential_urls w page_url response = Return raw ->
         outcome (ExtractVideoUrls.extract_video_url_from_webpage w page_url)
         = Return (list_set (py_set w) raw))
  /\ (forall page_url response,
         fetch w page_url ExtractEmbeddedVideos.HEADERS 20 = Return response ->
         ExtractEmbeddedVideos.potential_urls w response = Return raw ->
         outcome (ExtractEmbeddedVideos.extract_video_urls_from_page w page_url)
         = Return (list_set (py_set w) raw)).
Proof.
  split; [apply list_set_NoDup|].
  split; [intros u; apply list_set_In|].
  split; [apply list_set_Permutation|].
  split.
  - intros page_url response Hf Hp.
    now rewrite (video_urls_extract_fetched _ _ Hf Hp).
  - intros page_url response Hf Hp.
    now rewrite (embedded_extract_fetched _ _ Hf Hp).
Qed.

(** The theorem on the page of the scenario. *)
Lemma dedup_unique_any_order_witness :
  outcome (ExtractEmbeddedVideos.extract_video_urls_from_page
             (Scenario.world [] Scenario.serve) Scenario.meeting)
  = Return [Scenario.embed; Scenario.media].
Proof.
  set (w := Scenario.world [] Scenario.serve).
  assert (Hf : fetch w Scenario.meeting ExtractEmbeddedVideos.HEADERS 20
               = Return (Scenario.page Scenario.meeting))
    by (vm_compute; reflexivity).
  assert (Hp : ExtractEmbeddedVideos.potential_urls
                 w (Scenario.page Scenario.meeting)
               = Return [Scenario.media; Scenario.embed; Scenario.media])
    by (vm_compute; reflexivity).
  destruct (dedup_unique_any_order
              w [Scenario.media; Scenario.embed; Scenario.media])
    as (_ & _ & _ & _ & H).
  pose proof (H _ _ Hf Hp) as R. vm_compute in R |- *. exact R.
Defined.

(** C9 as stated fails: the two URLs of the scenario come out of the set as
    [embed; media], and this list goes into a second set and comes out as
    [media; embed]. *)
Lemma dedup_twice_counterexample :
  let S := py_set (Scenario.world [] Scenario.serve) in
  list_set S [Scenario.media; Scenario.embed]
  = [Scenario.embed; Scenario.media]
  /\ list_set S (list_set S [Scenario.media; Scenario.embed])
     = [Scenario.media; Scenario.embed].
Proof. vm_compute. repeat split. Qed.

(** C9, amended.  De-duplicating a de-duplicated list removes nothing: the
    result has the same URLs and the same length and no repetition; only
    the order may change. *)
Theorem dedup_twice_same_elements (w : World) (raw : list string) :
  let once := list_set (py_set w) raw in
  let twice := list_set (py_set w) once in
  Permutation twice once
  /\ List.length twice = List.length once
  /\ NoDup twice
  /\ (forall u, In u twice <-> In u raw).
Proof.
  intros once twice.
  assert (P : Permutation twice once).
  { apply NoDup_Permutation; try apply list_set_NoDup.
    intros u. apply list_set_In. }
  split; [exact P|].
  split; [exact (Permutation_length P)|].
  split; [apply list_set_NoDup|].
  intros u. unfold twice, once. now rewrite !list_set_In.
Qed.

(* ================================================================== *)
(** * The extraction passes only append *)

Unset Implicit Arguments.

Lemma rbind_Return_inv {A B} (r : result A) (f : A -> result B) (b : B) :
  rbind r f = Return b -> exists a, r = Return a /\ f a = Return b.
Proof. destruct r as [a|e]; simpl; [eauto | discriminate]. Qed.

Lemma extends_refl (s : list string) : extends s s.
Proof. exists []. now rewrite app_nil_r. Qed.

Lemma extends_app (s ext : list string) : extends s (s ++ ext).
Proof. now exists ext. Qed.

Lemma extends_trans (s1 s2 s3 : list string) :
  extends s1 s2 -> extends s2 s3 -> extends s1 s3.
Proof.
  intros [e1 ->] [e2 ->]. exists (e1 ++ e2). now rewrite app_assoc.
Qed.

Lemma extends_In (s s' : list string) (u : string) :
  extends s s' -> In u s -> In u s'.
Proof. intros [ext ->] H. apply in_or_app. now left. Qed.

Lemma for_each_extends {A} (body : A -> list string -> result (list string))
      (l : list A) :
  appending body -> appending (fun (_ : unit) => for_each l body).
Proof.
  intros Hb _. induction l as [|x l IH]; intros s s' H; simpl in H.
  - injection H as <-. apply extends_refl.
  - apply rbind_Return_inv in H as [s1 [H1 H2]].
    eapply extends_trans; [exact (Hb _ _ _ H1) | exact (IH _ _ H2)].
Qed.

Lemma for_each_In {A} (body : A -> list string -> result (list string))
      (l : list A) (x : A) (u : string) (s s' : list string) :
  appending body ->
  In x l ->
  (forall s0 s1, body x s0 = Return s1 -> In u s1) ->
  for_each l body s = Return s' ->
  In u s'.
Proof.
  intros Hb Hx Hu. revert s. induction l as [|y l IH]; intros s H;
    [contradiction|].
  simpl in H. apply rbind_Return_inv in H as [s1 [H1 H2]].
  destruct Hx as [<-|Hx].
  - eapply extends_In; [|exact (Hu _ _ H1)].
    exact (for_each_extends body l Hb tt _ _ H2).
  - exact (IH Hx _ H2).
Qed.

Lemma fold_left_extends {A} (f : list string -> A -> list string)
      (l : list A) (s : list string) :
  (forall s x, extends s (f s x)) -> extends s (fold_left f l s).
Proof.
  intros Hf. revert s. induction l as [|x l IH]; intros s; simpl.
  - apply extends_refl.
  - eapply extends_trans; [apply Hf | apply IH].
Qed.

Lemma rbind_append_extends (r : result string) (urls s' : list string) :
  rbind r (fun u => Return (urls ++ [u])) = Return s' -> extends urls s'.
Proof.
  destruct r as [u|e]; [|discriminate]. simpl. intros [= <-].
  apply extends_app.
Qed.

(** Appending one URL obtained from a source, when the source is there. *)
Lemma append_joined_extends (cond : bool) (src : result string)
      (joined : string -> result string) (urls s' : list string) :
  (if cond
   then rbind src (fun x => rbind (joined x) (fun u => Return (urls ++ [u])))
   else Return urls) = Return s' ->
  extends urls s'.
Proof.
  destruct cond; [|intros [= <-]; apply extends_refl].
  destruct src as [x|?]; [|discriminate]. simpl.
  apply rbind_append_extends.
Qed.

Lemma video_urls_from_video_tags_appending (page_url : string) :
  appending
    (fun video urls =>
       rbind (if truthy (get video "src")
              then rbind (getitem video "src") (fun src =>
                   rbind (UrlParse.urljoin page_url src) (fun u =>
                   Return (urls ++ [u])))
              else Return urls)
             (for_each (find_all "source" video)
                (fun source urls =>
                   if truthy (get source "src")
                   then rbind (getitem source "src") (fun src =>
                        rbind (UrlParse.urljoin page_url src) (fun u =>
                        Return (urls ++ [u])))
                   else Return urls))).
Proof.
  intros video s s' H. apply rbind_Return_inv in H as [s1 [H1 H2]].
  eapply extends_trans.
  - exact (append_joined_extends _ _ _ _ _ H1).
  - refine (for_each_extends _ _ _ tt _ _ H2).
    intros source t t' H. exact (append_joined_extends _ _ _ _ _ H).
Qed.



Lemma embedded_from_video_tags_eq (base_url : string) (soup : node)
      (urls : list string) :
  ExtractEmbeddedVideos.from_video_tags base_url soup urls
  = ExtractVideoUrls.from_video_tags base_url soup urls.
Proof. reflexivity. Qed.



(* ================================================================== *)
(** * A page with a native media element *)




(* ================================================================== *)
(** * The base of relative sources *)



(** C7.  The page asked for at [short] is served, after a redirect, at
    [https://site.org/events/1] and holds [<video src='/clip.mp4'>].
    [extract_embedded_videos.py] joins the source to the final URL and
    finds [https://site.org/clip.mp4]; [extract_video_urls.py] joins it to
    the URL it asked for and finds [https://short.example/clip.mp4]. *)
Theorem relative_source_after_redirect :
  let w := Scenario.world [] Scenario.redirect in
  option_map url
    (match fetch w Scenario.short ExtractVideoUrls.headers 30 with
     | Return response => Some response
     | Raise _ => None
     end)
  = Some "https://site.org/events/1"
  /\ UrlParse.urljoin "https://site.org/events/1" "/clip.mp4"
     = Return "https://site.org/clip.mp4"
  /\ outcome (ExtractEmbeddedVideos.extract_video_urls_from_page
                w Scenario.short)
     = Return ["https://site.org/clip.mp4"]
  /\ outcome (ExtractVideoUrls.extract_video_url_from_webpage
                w Scenario.short)
     = Return ["https://short.example/clip.mp4"].
Proof. vm_compute. repeat split. Qed.

(* ================================================================== *)
(** * What the matcher finds

    [matches ic r w c c']: the regular expression [r] matches the whole of
    [w], taking the groups from [c] to [c'].  The matcher is sound and
    complete for it. *)

Lemma matches_lit_inv (ic : bool) (l w : string) (c c' : caps) :
  matches ic (RLit l) w c c' -> eat ic l w = Some "" /\ c' = c.
Proof. intros M. inversion M; subst. now split. Qed.

Lemma matches_class_inv (ic : bool) (negated : bool) (items : list cset_item)
      (w : string) (c c' : caps) :
  matches ic (RClass negated items) w c c' ->
  exists a, w = String a "" /\ class_matches ic negated items a = true
            /\ c' = c.
Proof. intros M. inversion M; subst. eauto. Qed.

Lemma matches_seq_inv (ic : bool) (r1 r2 : regex) (w : string) (c c' : caps) :
  matches ic (RSeq r1 r2) w c c' ->
  exists w1 w2 c1,
    w = w1 +++ w2 /\ matches ic r1 w1 c c1 /\ matches ic r2 w2 c1 c'.
Proof. intros M. inversion M; subst. eauto 10. Qed.

Lemma matches_alt_inv (ic : bool) (r1 r2 : regex) (w : string) (c c' : caps) :
  matches ic (RAlt r1 r2) w c c' ->
  matches ic r1 w c c' \/ matches ic r2 w c c'.
Proof. intros M. inversion M; subst; auto. Qed.


Lemma matches_group_inv (ic : bool) (i : nat) (r : regex) (w : string)
      (c c' : caps) :
  matches ic (RGroup i r) w c c' ->
  exists c1, matches ic r w c c1 /\ c' = (i, w) :: c1.
Proof. intros M. inversion M; subst. eauto. Qed.

Lemma append_assoc (a b c : string) : (a +++ b) +++ c = a +++ b +++ c.
Proof. induction a as [|x a IH]; simpl; [reflexivity | now rewrite IH]. Qed.

Lemma append_nil_r (a : string) : a +++ "" = a.
Proof. induction a as [|x a IH]; simpl; [reflexivity | now rewrite IH]. Qed.

Lemma append_length (a b : string) :
  String.length (a +++ b) = String.length a + String.length b.
Proof. induction a as [|x a IH]; simpl; [reflexivity | now rewrite IH]. Qed.

Lemma substring_all (a : string) : substring 0 (String.length a) a = a.
Proof.
  induction a as [|x a IH]; simpl; [reflexivity | now rewrite IH].
Qed.

Lemma substring_prefix (w s : string) :
  substring 0 (String.length (w +++ s) - String.length s) (w +++ s) = w.
Proof.
  rewrite append_length.
  replace (String.length w + String.length s - String.length s)
    with (String.length w) by lia.
  induction w as [|x w IH]; simpl.
  - now destruct s.
  - now rewrite IH.
Qed.

Lemma eat_split (ic : bool) (l s s' : string) :
  eat ic l s = Some s' -> exists w, s = w +++ s' /\ eat ic l w = Some "".
Proof.
  revert s. induction l as [|a l IH]; intros s H; simpl in H.
  - injection H as <-. now exists "".
  - destruct s as [|b s]; [discriminate|].
    destruct (char_eq ic b a) eqn:E; [|discriminate].
    destruct (IH _ H) as [w [-> Hw]].
    exists (String b w). split; [reflexivity|]. simpl. now rewrite E.
Qed.


Section MatcherCorrect.

Variable ic : bool.

Definition step_sound (r : regex)
           (step : string -> caps -> cont -> option (string * caps)) : Prop :=
  forall s c k x,
    step s c k = Some x ->
    exists w s' c', s = w +++ s' /\ matches ic r w c c' /\ k s' c' = Some x.


Lemma star_sound (r : regex)
      (step : string -> caps -> cont -> option (string * caps)) (k : cont) :
  step_sound r step ->
  forall n s c x,
    star step k n s c = Some x ->
    exists w s' c',
      s = w +++ s' /\ matches ic (RStar r) w c c' /\ k s' c' = Some x.
Proof.
  intros Hstep. induction n as [|n IH]; intros s c x H; simpl in H.
  - exists "", s, c. repeat split; [constructor | exact H].
  - destruct (step s c _) as [y|] eqn:E.
    + injection H as ->.
      destruct (Hstep _ _ _ _ E) as (w1 & s1 & c1 & -> & M1 & H1).
      destruct (Nat.ltb_spec (String.length s1) (String.length (w1 +++ s1)))
        as [Hlt|_]; [|discriminate].
      destruct (IH _ _ _ H1) as (w2 & s2 & c2 & -> & M2 & H2).
      exists (w1 +++ w2), s2, c2. repeat split.
      * now rewrite append_assoc.
      * apply MStarS with (c1 := c1); try assumption.
        intros ->. simpl in Hlt. lia.
      * exact H2.
    + exists "", s, c. repeat split; [constructor | exact H].
Qed.

Lemma rmatch_sound (r : regex) : step_sound r (rmatch ic r).
Proof.
  induction r as [l|negated items|r1 IH1 r2 IH2|r1 IH1 r2 IH2|r1 IH1|i r1 IH1];
    intros s c k x H; simpl in H.
  - destruct (eat ic l s) as [s'|] eqn:E; [|discriminate].
    destruct (eat_split _ _ _ _ E) as [w [-> Hw]].
    exists w, s', c. repeat split; [now constructor | exact H].
  - destruct s as [|a s]; [discriminate|].
    destruct (class_matches ic negated items a) eqn:E; [|discriminate].
    exists (String a ""), s, c. repeat split; [now constructor | exact H].
  - destruct (IH1 _ _ _ _ H) as (w1 & s1 & c1 & -> & M1 & H1).
    destruct (IH2 _ _ _ _ H1) as (w2 & s2 & c2 & -> & M2 & H2).
    exists (w1 +++ w2), s2, c2. repeat split.
    + now rewrite append_assoc.
    + now apply MSeq with (c1 := c1).
    + exact H2.
  - destruct (rmatch ic r1 s c k) as [y|] eqn:E.
    + injection H as ->.
      destruct (IH1 _ _ _ _ E) as (w & s' & c' & -> & M & H').
      exists w, s', c'. repeat split; [now apply MAltL | exact H'].
    + destruct (IH2 _ _ _ _ H) as (w & s' & c' & -> & M & H').
      exists w, s', c'. repeat split; [now apply MAltR | exact H'].
  - exact (star_sound r1 (rmatch ic r1) k IH1 _ _ _ _ H).
  - destruct (IH1 _ _ _ _ H) as (w & s' & c' & -> & M & H').
    rewrite substring_prefix in H'.
    exists w, s', ((i, w) :: c'). repeat split; [now constructor | exact H'].
Qed.



End MatcherCorrect.

(* ================================================================== *)
(** * Characters, quotes and spaces *)


Lemma all_chars_ext (p q : ascii -> bool) (s : string) :
  (forall a, p a = q a) -> all_chars p s = all_chars q s.
Proof.
  intros H. induction s as [|x s IH]; simpl; [reflexivity|].
  now rewrite H, IH.
Qed.

Ltac all_ascii a :=
  destruct a as [[] [] [] [] [] [] [] []]; vm_compute;
  try reflexivity; try discriminate.



Lemma char_eq_dot (b : ascii) : char_eq true b "." = Ascii.eqb b ".".
Proof. all_ascii b. Qed.


Lemma char_eq_lower (a b : ascii) :
  char_eq true a b = true <-> lower_ascii a = lower_ascii b.
Proof. unfold char_eq. apply Ascii.eqb_eq. Qed.

(** The class of the non-quote characters, and the class of [\s]. *)
Lemma non_quote_class (a : ascii) :
  class_matches true true quote_class a = negb (is_quote a).
Proof. all_ascii a. Qed.





Lemma eat_char (ic : bool) (a : ascii) (w : string) :
  eat ic (String a "") w = Some "" ->
  exists b, w = String b "" /\ char_eq ic b a = true.
Proof.
  destruct w as [|b w]; simpl; [discriminate|].
  destruct (char_eq ic b a) eqn:E; [|discriminate].
  intros [= ->]. now exists b.
Qed.

Lemma eat_lower (l w : string) :
  eat true l w = Some "" <-> lower w = lower l.
Proof.
  revert w. induction l as [|a l IH]; intros w.
  - destruct w; simpl; split; intros H; try reflexivity; discriminate.
  - destruct w as [|b w]; [simpl; split; discriminate|].
    change (eat true (String a l) (String b w))
      with (if char_eq true b a then eat true l w else None).
    change (lower (String b w)) with (String (lower_ascii b) (lower w)).
    change (lower (String a l)) with (String (lower_ascii a) (lower l)).
    destruct (char_eq true b a) eqn:E.
    + apply char_eq_lower in E. split.
      * intros H. apply IH in H. now rewrite E, H.
      * intros [= _ H]. now apply IH.
    + split; [discriminate|]. intros [= H _].
      apply char_eq_lower in H. congruence.
Qed.

(* ================================================================== *)
(** * The parts of the script pattern *)





Lemma matches_star_class_inv (ic negated : bool) (items : list cset_item)
      (w : string) (c c' : caps) :
  matches ic (RStar (RClass negated items)) w c c' ->
  c' = c /\ all_chars (class_matches ic negated items) w = true.
Proof.
  intros M. remember (RStar (RClass negated items)) as r eqn:E.
  induction M as [| | | | |r0 c0|r0 w1 w2 c0 c1 c2 H1 M1 _ M2 IH2|];
    try discriminate.
  - now split.
  - injection E as ->.
    destruct (matches_class_inv _ _ _ _ _ _ M1) as (a & -> & Ha & ->).
    destruct (IH2 eq_refl) as [-> H2]. split; [reflexivity|].
    simpl. now rewrite Ha.
Qed.


(* ================================================================== *)
(** * Key/value pairs in a script *)


Lemma all_non_quote (w : string) :
  all_chars (class_matches true true quote_class) w = all_chars not_quote w.
Proof. apply all_chars_ext. intros x. apply non_quote_class. Qed.






(* ================================================================== *)
(** * A pair is read in one way only *)










Lemma quote_all_not_is_quote (w : string) :
  all_chars (fun c => negb (is_quote c)) w = all_chars not_quote w.
Proof. reflexivity. Qed.

Lemma dot_all_not_dot (w : string) :
  all_chars (fun c => negb (Ascii.eqb c ".")) w = all_chars not_dot w.
Proof. reflexivity. Qed.



(* ================================================================== *)
(** * [re.finditer] and [re.findall] *)

Lemma rmatch_whole (ic : bool) (r : regex) (s s' : string) (c' : caps) :
  rmatch ic r s [] whole = Some (s', c') ->
  exists w, s = w +++ s' /\ matches ic r w [] c'.
Proof.
  intros H. destruct (rmatch_sound ic r _ _ _ _ H) as (w & s1 & c1 & -> & M & E).
  injection E as <- <-. now exists w.
Qed.



Lemma scan_sound (ic : bool) (r : regex) (f : nat) (s : string)
      (m : match_obj) :
  In m (scan ic r f s) ->
  exists pre post,
    s = pre +++ group0 m +++ post /\ matches ic r (group0 m) [] (groups m).
Proof.
  revert s. induction f as [|f IH]; intros s H; [contradiction|].
  simpl in H. change (fun s' c' => Some (s', c')) with whole in H.
  assert (Hskip : forall a t, s = String a t -> In m (scan ic r f t) ->
            exists pre post,
              s = pre +++ group0 m +++ post
              /\ matches ic r (group0 m) [] (groups m)).
  { intros a t -> Hin. destruct (IH _ Hin) as (pre & post & -> & M).
    now exists (String a pre), post. }
  destruct (rmatch ic r s [] whole) as [[s' c']|] eqn:E.
  - destruct (rmatch_whole _ _ _ _ _ E) as (w & Hs & M).
    destruct H as [<-|H].
    + simpl. exists "", s'. subst s. rewrite substring_prefix.
      now split.
    + destruct (Nat.ltb (String.length s') (String.length s)).
      * destruct (IH _ H) as (pre & post & -> & M').
        exists (w +++ pre), post. subst s. now rewrite append_assoc.
      * destruct s as [|a t]; [contradiction|]. now apply (Hskip a t).
  - destruct s as [|a t]; [contradiction|]. now apply (Hskip a t).
Qed.






(* ================================================================== *)
(** * The inline-script pass *)


















(* ================================================================== *)
(** * The walk through a JSON value *)

(** Induction on a JSON value, the items of an array and the values of an
    object included. *)
Section JsonInduction.

Variable P : json -> Prop.

Hypothesis HNull : P JNull.
Hypothesis HBool : forall b, P (JBool b).
Hypothesis HNumber : forall n, P (JNumber n).
Hypothesis HString : forall s, P (JString s).
Hypothesis HArray : forall items, Forall P items -> P (JArray items).
Hypothesis HObject :
  forall members, Forall (fun kv => P (snd kv)) members -> P (JObject members).

Fixpoint json_induction (j : json) : P j :=
  match j with
  | JNull => HNull
  | JBool b => HBool b
  | JNumber n => HNumber n
  | JString s => HString s
  | JArray items =>
      HArray items
        ((fix all (l : list json) : Forall P l :=
            match l with
            | [] => Forall_nil P
            | x :: l' => Forall_cons x (json_induction x) (all l')
            end) items)
  | JObject members =>
      HObject members
        ((fix all (l : list (string * json))
            : Forall (fun kv => P (snd kv)) l :=
            match l with
            | [] => Forall_nil _
            | kv :: l' =>
                Forall_cons kv (json_induction (snd kv)) (all l')
            end) members)
  end.

End JsonInduction.

Lemma extract_urls_from_json_array (items : list json) (urls : list string) :
  ExtractVideoUrls.extract_urls_from_json (JArray items) urls
  = fold_left (fun urls item =>
                 ExtractVideoUrls.extract_urls_from_json item urls)
              items urls.
Proof.
  revert urls. induction items as [|item items IH]; intros urls;
    [reflexivity|].
  simpl fold_left. rewrite <- IH. reflexivity.
Qed.

Lemma extract_urls_from_json_object (members : list (string * json))
      (urls : list string) :
  ExtractVideoUrls.extract_urls_from_json (JObject members) urls
  = fold_left json_member members urls.
Proof.
  revert urls. induction members as [|[key value] members IH]; intros urls;
    [reflexivity|].
  simpl fold_left. rewrite <- IH. reflexivity.
Qed.

Lemma fold_left_appends {A} (f : list string -> A -> list string)
      (l : list A) :
  Forall (fun x => forall urls, f urls x = urls ++ f [] x) l ->
  forall urls, fold_left f l urls = urls ++ flat_map (f []) l.
Proof.
  induction 1 as [|x l Hx _ IH]; intros urls; simpl.
  - now rewrite app_nil_r.
  - rewrite IH, Hx, <- app_assoc. reflexivity.
Qed.

Lemma Forall_flat_map {A B} (P : B -> Prop) (g : A -> list B) (l : list A) :
  Forall (fun x => Forall P (g x)) l -> Forall P (flat_map g l).
Proof.
  induction 1 as [|x l Hx _ IH]; simpl; [constructor|].
  apply Forall_app. now split.
Qed.






(* ================================================================== *)
(** * Candidates of the inline-script pass *)


Lemma example_script_candidates :
  findall true 6 ExtractEmbeddedVideos.json_pattern example_script
  = [pair_tuple "'" "'" "'" "https://cdn.example.com/a" "mp4" "'";
     pair_tuple "'" "'" "'" "/media/b" "WEBM" "'"]
  /\ ExtractEmbeddedVideos.from_scripts
       "https://example.org/meeting"
       (Tag "[document]" []
            [Tag "script" [] [SubclassString Script example_script]])
       []
     = Return ["https://cdn.example.com/a.mp4mp4";
               "https://example.org/media/b.WEBMWEBM"].
Proof. vm_compute. split; reflexivity. Qed.




(* ================================================================== *)
(** * What [process_url] returns, read backwards *)

Lemma first_downloadable_Some (w : World) (l : list string) (v : string) :
  outcome (ExtractVideoUrls.first_downloadable w l) = Return (Some v) ->
  exists pre post,
    l = pre ++ v :: post
    /\ Forall (fun c =>
                 outcome (ExtractVideoUrls.is_downloadable_with_ytdlp w c)
                 = Return false) pre
    /\ outcome (ExtractVideoUrls.is_downloadable_with_ytdlp w v) = Return true.
Proof.
  induction l as [|c l IH]; simpl; [discriminate|].
  rewrite outcome_bind.
  destruct (outcome (ExtractVideoUrls.is_downloadable_with_ytdlp w c))
    as [[|]|e] eqn:Hc; try discriminate.
  - intros [= <-]. exists [], l. auto.
  - intros H. destruct (IH H) as (pre & post & -> & Hpre & Hv).
    exists (c :: pre), post. auto.
Qed.

Lemma first_downloadable_None (w : World) (l : list string) :
  outcome (ExtractVideoUrls.first_downloadable w l) = Return None ->
  Forall (fun c =>
            outcome (ExtractVideoUrls.is_downloadable_with_ytdlp w c)
            = Return false) l.
Proof.
  induction l as [|c l IH]; simpl; [constructor|].
  rewrite outcome_bind.
  destruct (outcome (ExtractVideoUrls.is_downloadable_with_ytdlp w c))
    as [[|]|e] eqn:Hc; try discriminate.
  intros H. constructor; auto.
Qed.

Lemma video_urls_process_url_outcome (w : World) (url : string) :
  outcome (ExtractVideoUrls.process_url w url)
  = match outcome (ExtractVideoUrls.is_downloadable_with_ytdlp w url) with
    | Return true => Return (Some url)
    | Return false =>
        match outcome (ExtractVideoUrls.extract_video_url_from_webpage w url)
        with
        | Return cands => outcome (ExtractVideoUrls.first_downloadable w cands)
        | Raise e => Raise e
        end
    | Raise e => Raise e
    end.
Proof.
  unfold ExtractVideoUrls.process_url. rewrite outcome_bind.
  destruct (outcome (ExtractVideoUrls.is_downloadable_with_ytdlp w url))
    as [[|]|e]; try reflexivity.
  rewrite outcome_bind.
  destruct (outcome (ExtractVideoUrls.extract_video_url_from_webpage w url))
    as [cands|e]; try reflexivity.
  rewrite outcome_bind.
  destruct (outcome (ExtractVideoUrls.first_downloadable w cands))
    as [[v|]|e]; reflexivity.
Qed.

(** X1.  When [extract_video_urls.process_url] returns a URL, yt-dlp
    accepted that URL, and it is either the input URL or the first
    accepted candidate of the list extracted from the page: the direct
    probe was rejected and so was every candidate before it in the list. *)
Theorem video_urls_process_url_sound (w : World) (url v : string) :
  outcome (ExtractVideoUrls.process_url w url) = Return (Some v) ->
  outcome (ExtractVideoUrls.is_downloadable_with_ytdlp w v) = Return true
  /\ (v = url
      \/ outcome (ExtractVideoUrls.is_downloadable_with_ytdlp w url)
         = Return false
         /\ exists pre post,
              outcome (ExtractVideoUrls.extract_video_url_from_webpage w url)
              = Return (pre ++ v :: post)
              /\ Forall (fun c =>
                           outcome
                             (ExtractVideoUrls.is_downloadable_with_ytdlp w c)
                           = Return false) pre).
Proof.
  rewrite video_urls_process_url_outcome.
  destruct (outcome (ExtractVideoUrls.is_downloadable_with_ytdlp w url))
    as [[|]|e] eqn:Hd; try discriminate.
  - intros [= <-]. auto.
  - destruct (outcome (ExtractVideoUrls.extract_video_url_from_webpage w url))
      as [cands|e] eqn:Hc; try discriminate.
    intros H. destruct (first_downloadable_Some _ _ _ H)
      as (pre & post & -> & Hpre & Hv).
    split; [exact Hv|]. right. split; [reflexivity|]. now exists pre, post.
Qed.

Lemma video_urls_process_url_sound_witness :
  outcome (ExtractVideoUrls.is_downloadable_with_ytdlp
             (Scenario.world [Scenario.media] Scenario.serve) Scenario.media)
  = Return true
  /\ Scenario.media <> Scenario.meeting.
Proof.
  assert (H : outcome (ExtractVideoUrls.process_url
                         (Scenario.world [Scenario.media] Scenario.serve)
                         Scenario.meeting)
              = Return (Some Scenario.media))
    by (vm_compute; reflexivity).
  split.
  - exact (proj1 (video_urls_process_url_sound _ _ _ H)).
  - discriminate.
Defined.

(** X2.  When [extract_video_urls.process_url] returns [None], the direct
    probe was rejected, the extraction returned a list, every candidate
    of the list was probed and rejected, and the trace is the direct
    probe, the extraction, the probes of the candidates in list order and
    the warning that no downloadable video URL was found. *)
Theorem video_urls_process_url_unresolved (w : World) (url : string) :
  outcome (ExtractVideoUrls.process_url w url) = Return None ->
  outcome (ExtractVideoUrls.is_downloadable_with_ytdlp w url) = Return false
  /\ exists cands,
       outcome (ExtractVideoUrls.extract_video_url_from_webpage w url)
       = Return cands
       /\ Forall (fun c =>
                    outcome (ExtractVideoUrls.is_downloadable_with_ytdlp w c)
                    = Return false) cands
       /\ trace (ExtractVideoUrls.process_url w url)
          = trace (ExtractVideoUrls.is_downloadable_with_ytdlp w url)
            ++ trace (ExtractVideoUrls.extract_video_url_from_webpage w url)
            ++ video_urls_probes w cands
            ++ [not_found_warning url].
Proof.
  intros H. pose proof H as H0. revert H0.
  rewrite video_urls_process_url_outcome.
  destruct (outcome (ExtractVideoUrls.is_downloadable_with_ytdlp w url))
    as [[|]|e] eqn:Hd; try discriminate.
  destruct (outcome (ExtractVideoUrls.extract_video_url_from_webpage w url))
    as [cands|e] eqn:Hc; try discriminate.
  intros Hf. split; [reflexivity|]. exists cands.
  pose proof (first_downloadable_None _ _ Hf) as Hall.
  split; [reflexivity|]. split; [exact Hall|].
  rewrite (@video_urls_process_url_indirect w url cands None Hd Hc Hf).
  simpl. rewrite (@first_downloadable_exhausted w cands Hall). reflexivity.
Qed.

Lemma video_urls_process_url_unresolved_witness :
  exists cands,
    outcome (ExtractVideoUrls.extract_video_url_from_webpage
               (Scenario.world [] Scenario.serve) Scenario.meeting)
    = Return cands
    /\ Forall (fun c =>
                 outcome (ExtractVideoUrls.is_downloadable_with_ytdlp
                            (Scenario.world [] Scenario.serve) c)
                 = Return false) cands.
Proof.
  assert (H : outcome (ExtractVideoUrls.process_url
                         (Scenario.world [] Scenario.serve) Scenario.meeting)
              = Return None)
    by (vm_compute; reflexivity).
  destruct (video_urls_process_url_unresolved _ _ H)
    as (_ & cands & Hc & Hall & _).
  exists cands. split; assumption.
Defined.

(* ================================================================== *)
(** * Where an exception comes from *)

Lemma only_Exceptions_Return {A} (a : A) : only_Exceptions (Return a).
Proof. intros e. discriminate. Qed.

Lemma only_Exceptions_rbind {A B} (r : result A) (f : A -> result B) :
  only_Exceptions r -> (forall a, only_Exceptions (f a)) ->
  only_Exceptions (rbind r f).
Proof.
  intros Hr Hf e. destruct r as [a|e0]; simpl.
  - apply Hf.
  - intros [= <-]. now apply Hr.
Qed.

Lemma only_Exceptions_for_each {A S} (l : list A)
      (body : A -> S -> result S) :
  (forall x s, only_Exceptions (body x s)) ->
  forall s, only_Exceptions (for_each l body s).
Proof.
  intros Hb. induction l as [|x l IH]; intros s; simpl.
  - apply only_Exceptions_Return.
  - apply only_Exceptions_rbind; auto.
Qed.

Lemma only_Exceptions_if {A} (b : bool) (r1 r2 : result A) :
  only_Exceptions r1 -> only_Exceptions r2 ->
  only_Exceptions (if b then r1 else r2).
Proof. now destruct b. Qed.

Lemma only_Exceptions_getitem (n : node) (attr : string) :
  only_Exceptions (getitem n attr).
Proof.
  unfold getitem. destruct (get n attr); intros e; [discriminate|].
  now intros [= <-].
Qed.

Lemma only_Exceptions_ValueError {A} (msg : string) :
  only_Exceptions (@Raise A (ValueError msg)).
Proof. now intros e [= <-]. Qed.

Ltac only_exc_cases :=
  repeat match goal with
         | |- only_Exceptions (if ?b then _ else _) => destruct b
         | |- only_Exceptions (let '(_, _) := ?x in _) => destruct x
         | |- only_Exceptions (match ?x with _ => _ end) => destruct x
         end;
  first [apply only_Exceptions_Return | apply only_Exceptions_ValueError].

Lemma only_Exceptions_check_bracketed_host (hostname : string) :
  only_Exceptions (UrlParse.check_bracketed_host hostname).
Proof. unfold UrlParse.check_bracketed_host. only_exc_cases. Qed.

Lemma only_Exceptions_check_bracketed_netloc (netloc : string) :
  only_Exceptions (UrlParse.check_bracketed_netloc netloc).
Proof.
  unfold UrlParse.check_bracketed_netloc.
  repeat match goal with
         | |- only_Exceptions (if ?b then _ else _) => destruct b
         | |- only_Exceptions (let '(_, _) := ?x in _) => destruct x
         | |- only_Exceptions (match ?x with _ => _ end) => destruct x
         end;
    first [apply only_Exceptions_check_bracketed_host
          |apply only_Exceptions_ValueError].
Qed.

Lemma only_Exceptions_urlsplit (url scheme : string) :
  only_Exceptions (UrlParse.urlsplit url scheme).
Proof.
  unfold UrlParse.urlsplit.
  repeat match goal with
         | |- context [let '(_, _) := ?x in _] => destruct x
         end.
  apply only_Exceptions_rbind.
  - repeat match goal with
           | |- only_Exceptions (if ?b then _ else _) => destruct b
           | |- only_Exceptions (let '(_, _) := ?x in _) => destruct x
           end;
      try apply only_Exceptions_Return;
      try apply only_Exceptions_ValueError.
    apply only_Exceptions_rbind;
      [apply only_Exceptions_check_bracketed_netloc
      |intros; apply only_Exceptions_Return].
  - intros [netloc rest].
    repeat match goal with
           | |- context [let '(_, _) := ?x in _] => destruct x
           end.
    apply only_Exceptions_Return.
Qed.

Lemma only_Exceptions_urlparse (url scheme : string) :
  only_Exceptions (UrlParse.urlparse url scheme).
Proof.
  unfold UrlParse.urlparse. apply only_Exceptions_rbind.
  - apply only_Exceptions_urlsplit.
  - intros sr.
    match goal with
    | |- context [let '(_, _) := ?x in _] => destruct x
    end.
    apply only_Exceptions_Return.
Qed.

Lemma only_Exceptions_urljoin (base ref : string) :
  only_Exceptions (UrlParse.urljoin base ref).
Proof.
  unfold UrlParse.urljoin.
  repeat (apply only_Exceptions_if; [apply only_Exceptions_Return|]).
  apply only_Exceptions_rbind; [apply only_Exceptions_urlparse|intros b].
  apply only_Exceptions_rbind; [apply only_Exceptions_urlparse|intros u].
  repeat (apply only_Exceptions_if; try apply only_Exceptions_Return).
Qed.

Ltac only_exc :=
  repeat first
    [ apply only_Exceptions_Return
    | apply only_Exceptions_getitem
    | apply only_Exceptions_urljoin
    | apply only_Exceptions_for_each; intros
    | apply only_Exceptions_rbind; [|intros]
    | apply only_Exceptions_if ].

Lemma video_urls_potential_urls_only_Exceptions (w : World)
      (page_url : string) (response : Response) :
  only_Exceptions (ExtractVideoUrls.potential_urls w page_url response).
Proof.
  unfold ExtractVideoUrls.potential_urls, ExtractVideoUrls.from_video_tags,
    ExtractVideoUrls.from_iframes, ExtractVideoUrls.from_links.
  only_exc.
Qed.

Lemma embedded_potential_urls_only_Exceptions (w : World)
      (response : Response) :
  only_Exceptions (ExtractEmbeddedVideos.potential_urls w response).
Proof.
  unfold ExtractEmbeddedVideos.potential_urls,
    ExtractEmbeddedVideos.from_video_tags, ExtractEmbeddedVideos.from_iframes,
    ExtractEmbeddedVideos.from_scripts, ExtractEmbeddedVideos.from_text,
    ExtractEmbeddedVideos.from_links, ExtractEmbeddedVideos.script_candidate.
  only_exc.
Qed.

(* ================================================================== *)
(** * [process_url] comes back *)

Ltac world_cases_eqn w :=
  let Hi := fresh "Hi" in
  destruct (import_yt_dlp w) as [[]|[]] eqn:Hi;
  try match goal with
      | |- context [extract_info w ?o ?u] =>
          let He := fresh "He" in
          destruct (extract_info w o u) as [[]|[]] eqn:He
      end;
  try match goal with
      | |- context [subprocess_run w ?a ?t] =>
          let Hs := fresh "Hs" in
          destruct (subprocess_run w a t) as [[? ?]|[]] eqn:Hs
      end;
  cbn;
  try match goal with
      | |- context [(?rc =? 0)%Z] => destruct (rc =? 0)%Z; cbn
      end.

Ltac ordinary_contradiction :=
  match goal with
  | H : only_Exceptions (Raise KeyboardInterrupt) |- _ =>
      discriminate (H _ eq_refl)
  | H : only_Exceptions ?r, E : ?r = Raise KeyboardInterrupt |- _ =>
      discriminate (H _ E)
  | H : forall o u, only_Exceptions (extract_info ?w o u),
    E : extract_info ?w _ _ = Raise KeyboardInterrupt |- _ =>
      discriminate (H _ _ _ E)
  | H : forall a t, only_Exceptions (subprocess_run ?w a t),
    E : subprocess_run ?w _ _ = Raise KeyboardInterrupt |- _ =>
      discriminate (H _ _ _ E)
  end.

Lemma video_urls_probe_returns (w : World) (url : string) :
  ordinary w -> returns (ExtractVideoUrls.is_downloadable_with_ytdlp w url).
Proof.
  intros (Hi & He & Hs & _). unfold returns. unfold_oracle.
  world_cases_eqn w; eauto; ordinary_contradiction.
Qed.

Lemma embedded_probe_returns (w : World) (url : string) :
  ordinary w -> returns (ExtractEmbeddedVideos.is_downloadable_with_ytdlp w url).
Proof.
  intros (Hi & He & Hs & _). unfold returns. unfold_oracle.
  world_cases_eqn w; eauto; ordinary_contradiction.
Qed.

Lemma test_probe_returns (w : World) (url : string) :
  ordinary w -> returns (TestYtDlpUrls.is_downloadable_with_ytdlp w url).
Proof.
  intros (Hi & He & Hs & _). unfold returns. unfold_oracle.
  world_cases_eqn w; eauto; ordinary_contradiction.
Qed.

Lemma video_urls_extract_returns (w : World) (page_url : string) :
  ordinary w ->
  returns (ExtractVideoUrls.extract_video_url_from_webpage w page_url).
Proof.
  intros (_ & _ & _ & Hg). unfold returns.
  destruct (fetch w page_url ExtractVideoUrls.headers 30)
    as [response|e] eqn:Hf.
  - destruct (ExtractVideoUrls.potential_urls w page_url response)
      as [raw|e] eqn:Hp.
    + rewrite (@video_urls_extract_fetched w page_url response raw Hf Hp).
      simpl. eauto.
    + pose proof (video_urls_potential_urls_only_Exceptions _ _ _ _ Hp) as He.
      revert Hf Hp. unfold_extract.
      destruct (requests_get w page_url ExtractVideoUrls.headers 30)
        as [r|e0]; simpl; [|discriminate].
      destruct (raise_for_status r) as [[]|e0]; simpl; [|discriminate].
      intros [= ->] ->. simpl. rewrite He. simpl. eauto.
  - assert (He : is_Exception e = true).
    { revert Hf. unfold fetch.
      destruct (requests_get w page_url ExtractVideoUrls.headers 30)
        as [r|e0] eqn:Hr; simpl.
      - destruct (raise_for_status r) as [[]|e0] eqn:Hs; simpl;
          [discriminate|].
        intros [= <-]. exact (@raise_for_status_Exception _ _ Hs).
      - intros [= <-]. exact (Hg _ _ _ _ Hr). }
    rewrite (@video_urls_extract_fetch_failed w page_url e Hf He). simpl. eauto.
Qed.

Lemma embedded_extract_returns (w : World) (page_url : string) :
  ordinary w ->
  returns (ExtractEmbeddedVideos.extract_video_urls_from_page w page_url).
Proof.
  intros (_ & _ & _ & Hg). unfold returns.
  destruct (fetch w page_url ExtractEmbeddedVideos.HEADERS 20)
    as [response|e] eqn:Hf.
  - destruct (ExtractEmbeddedVideos.potential_urls w response)
      as [raw|e] eqn:Hp.
    + rewrite (@embedded_extract_fetched w page_url response raw Hf Hp).
      simpl. eauto.
    + pose proof (embedded_potential_urls_only_Exceptions _ _ _ Hp) as He.
      revert Hf Hp. unfold_extract.
      destruct (requests_get w page_url ExtractEmbeddedVideos.HEADERS 20)
        as [r|e0]; simpl; [|discriminate].
      destruct (raise_for_status r) as [[]|e0]; simpl; [|discriminate].
      intros [= ->] ->. simpl. rewrite He. simpl. eauto.
  - assert (He : is_Exception e = true).
    { revert Hf. unfold fetch.
      destruct (requests_get w page_url ExtractEmbeddedVideos.HEADERS 20)
        as [r|e0] eqn:Hr; simpl.
      - destruct (raise_for_status r) as [[]|e0] eqn:Hs; simpl;
          [discriminate|].
        intros [= <-]. exact (@raise_for_status_Exception _ _ Hs).
      - intros [= <-]. exact (Hg _ _ _ _ Hr). }
    rewrite (@embedded_extract_fetch_failed w page_url e Hf He). simpl. eauto.
Qed.

Lemma first_downloadable_returns (w : World) (l : list string) :
  ordinary w -> returns (ExtractVideoUrls.first_downloadable w l).
Proof.
  intros Hw. unfold returns. induction l as [|c l IH]; simpl; [eauto|].
  rewrite outcome_bind.
  destruct (video_urls_probe_returns w c Hw) as [[|] ->]; simpl; eauto.
Qed.

(** X3.  In a world whose outside calls raise subclasses of [Exception]
    only, both [process_url] functions return a value: no failure of
    yt-dlp, of the subprocess, of the HTTP request or of the reading of
    the page makes them raise. *)
Theorem process_url_returns (w : World) (url : string) :
  ordinary w ->
  returns (ExtractVideoUrls.process_url w url)
  /\ returns (ExtractEmbeddedVideos.process_url w url).
Proof.
  intros Hw. split.
  - unfold returns. rewrite video_urls_process_url_outcome.
    destruct (video_urls_probe_returns w url Hw) as [[|] ->]; [eauto|].
    simpl.
    destruct (video_urls_extract_returns w url Hw) as [cands ->].
    apply first_downloadable_returns, Hw.
  - destruct (embedded_probe_returns w url Hw) as [[[u [|]] err] Hd].
    + unfold returns, ExtractEmbeddedVideos.process_url.
      rewrite outcome_bind, Hd. simpl. eauto.
    + destruct (embedded_extract_returns w url Hw) as [cands Hc].
      destruct (@embedded_process_url_indirect w url u err cands Hd Hc)
        as (r & E & _).
      * apply Forall_forall. intros c _. apply embedded_probe_returns, Hw.
      * exists r. now rewrite E.
Qed.

Lemma ordinary_world (accepted : list string)
      (get : string -> result Response) :
  (forall u, only_Exceptions (get u)) ->
  ordinary (Scenario.world accepted get).
Proof.
  intros Hg. repeat split; simpl.
  - apply only_Exceptions_Return.
  - intros opts u. destruct (str_in u accepted);
      [apply only_Exceptions_Return|now intros e [= <-]].
  - intros argv t e [= <-]. reflexivity.
  - intros u h t. apply Hg.
Qed.

Lemma process_url_returns_witness :
  returns (ExtractVideoUrls.process_url
             (Scenario.world [] Scenario.refuse) Scenario.meeting)
  /\ returns (ExtractEmbeddedVideos.process_url
                (Scenario.world [] Scenario.refuse) Scenario.meeting).
Proof.
  apply process_url_returns, ordinary_world.
  intros u e [= <-]. reflexivity.
Defined.

(* ================================================================== *)
(** * The calls of a resolution *)

Lemma fetched_app (t t' : list event) :
  fetched (t ++ t') = fetched t ++ fetched t'.
Proof. apply flat_map_app. Qed.

Lemma probe_trace_fetched (url : string) (t : list event) :
  Forall (is_probe_of url) t -> fetched t = [].
Proof.
  induction 1 as [|ev t Hev _ IH]; [reflexivity|].
  destruct ev; simpl in *; try assumption. contradiction.
Qed.

Lemma video_urls_extract_fetched_once (w : World) (page_url : string) :
  fetched (trace (ExtractVideoUrls.extract_video_url_from_webpage w page_url))
  = [page_url].
Proof.
  unfold_extract.
  destruct (requests_get w page_url ExtractVideoUrls.headers 30)
    as [response|e]; simpl.
  - destruct (raise_for_status response) as [[]|e]; simpl.
    + destruct (ExtractVideoUrls.potential_urls w page_url response)
        as [raw|e]; simpl; [reflexivity|].
      destruct (is_Exception e); reflexivity.
    + destruct (is_Exception e); reflexivity.
  - destruct (is_Exception e); reflexivity.
Qed.

Lemma embedded_extract_fetched_once (w : World) (page_url : string) :
  fetched (trace (ExtractEmbeddedVideos.extract_video_urls_from_page w page_url))
  = [page_url].
Proof.
  unfold_extract.
  destruct (requests_get w page_url ExtractEmbeddedVideos.HEADERS 20)
    as [response|e]; simpl.
  - destruct (raise_for_status response) as [[]|e]; simpl.
    + destruct (ExtractEmbeddedVideos.potential_urls w response)
        as [raw|e]; simpl; [reflexivity|].
      destruct (is_Exception e); reflexivity.
    + destruct (is_Exception e); reflexivity.
  - destruct (is_Exception e); reflexivity.
Qed.

Lemma first_downloadable_fetched (w : World) (l : list string) :
  fetched (trace (ExtractVideoUrls.first_downloadable w l)) = [].
Proof.
  induction l as [|c l IH]; [reflexivity|].
  simpl. rewrite trace_bind, fetched_app.
  rewrite (probe_trace_fetched c _ (@video_urls_probe_trace w c)).
  destruct (outcome (ExtractVideoUrls.is_downloadable_with_ytdlp w c))
    as [[|]|e]; simpl; auto.
Qed.

Lemma test_embedded_fetched (w : World) (l : list string)
      (r : ExtractEmbeddedVideos.results) :
  fetched (trace (ExtractEmbeddedVideos.test_embedded w l r)) = [].
Proof.
  revert r. induction l as [|c l IH]; intros r; [reflexivity|].
  simpl. rewrite trace_bind, fetched_app.
  rewrite (probe_trace_fetched c _ (@embedded_probe_trace w c)).
  destruct (outcome (ExtractEmbeddedVideos.is_downloadable_with_ytdlp w c))
    as [[[u ok] err]|e]; simpl; auto.
Qed.

(** X4.  A resolution requests the input URL exactly once when the direct
    probe returned a rejection, and requests nothing otherwise; no other
    page (the document of an embedded player, a candidate) is ever
    fetched. *)
Theorem process_url_fetches (w : World) (url : string) :
  fetched (trace (ExtractVideoUrls.process_url w url))
  = match outcome (ExtractVideoUrls.is_downloadable_with_ytdlp w url) with
    | Return false => [url]
    | _ => []
    end
  /\ fetched (trace (ExtractEmbeddedVideos.process_url w url))
     = match outcome (ExtractEmbeddedVideos.is_downloadable_with_ytdlp w url)
       with
       | Return (_, false, _) => [url]
       | _ => []
       end.
Proof.
  split.
  - unfold ExtractVideoUrls.process_url. rewrite trace_bind, fetched_app.
    rewrite (probe_trace_fetched url _ (@video_urls_probe_trace w url)).
    destruct (outcome (ExtractVideoUrls.is_downloadable_with_ytdlp w url))
      as [[|]|e]; try reflexivity.
    simpl. rewrite trace_bind, fetched_app, video_urls_extract_fetched_once.
    destruct (outcome (ExtractVideoUrls.extract_video_url_from_webpage w url))
      as [cands|e]; try reflexivity.
    rewrite trace_bind, fetched_app, first_downloadable_fetched.
    destruct (outcome (ExtractVideoUrls.first_downloadable w cands))
      as [[v|]|e]; reflexivity.
  - unfold ExtractEmbeddedVideos.process_url. rewrite trace_bind, fetched_app.
    rewrite (probe_trace_fetched url _ (@embedded_probe_trace w url)).
    destruct (outcome (ExtractEmbeddedVideos.is_downloadable_with_ytdlp w url))
      as [[[u [|]] err]|e]; try reflexivity.
    simpl. rewrite trace_bind, fetched_app, embedded_extract_fetched_once.
    destruct (outcome (ExtractEmbeddedVideos.extract_video_urls_from_page w url))
      as [cands|e]; try reflexivity.
    rewrite test_embedded_fetched. reflexivity.
Qed.

Lemma Forall_trace_bind {A B} (P : event -> Prop) (m : M A) (f : A -> M B) :
  Forall P (trace m) ->
  (forall a, outcome m = Return a -> Forall P (trace (f a))) ->
  Forall P (trace (bind m f)).
Proof.
  intros Hm Hf. rewrite trace_bind. apply Forall_app. split; [exact Hm|].
  destruct (outcome m) as [a|e]; [now apply Hf|constructor].
Qed.

Lemma probe_resolution_event (url : string) (cands : list string)
      (c : string) (t : list event) :
  In c (url :: cands) -> Forall (is_probe_of c) t ->
  Forall (resolution_event url cands) t.
Proof.
  intros Hc. apply Forall_impl. intros ev Hev. right. now exists c.
Qed.

Lemma log_resolution_event (url : string) (cands : list string)
      (level : log_level) (msg : string) :
  resolution_event url cands (EvLog level msg).
Proof. right. exists url. split; [now left|exact I]. Qed.

Lemma get_resolution_event (url : string) (cands : list string) :
  resolution_event url cands (EvRequestsGet url).
Proof. now left. Qed.

Ltac resolution_events :=
  simpl;
  repeat first
    [ apply Forall_nil
    | apply Forall_cons;
      [first [apply get_resolution_event | apply log_resolution_event]|] ].

Lemma video_urls_extract_events (w : World) (url : string)
      (cands : list string) :
  Forall (resolution_event url cands)
         (trace (ExtractVideoUrls.extract_video_url_from_webpage w url)).
Proof.
  unfold_extract.
  destruct (requests_get w url ExtractVideoUrls.headers 30)
    as [response|e]; simpl.
  - destruct (raise_for_status response) as [[]|e]; simpl.
    + destruct (ExtractVideoUrls.potential_urls w url response)
        as [raw|e]; simpl.
      * resolution_events.
      * destruct (is_Exception e); resolution_events.
    + destruct (is_Exception e); resolution_events.
  - destruct (is_Exception e); resolution_events.
Qed.

Lemma embedded_extract_events (w : World) (url : string)
      (cands : list string) :
  Forall (resolution_event url cands)
         (trace (ExtractEmbeddedVideos.extract_video_urls_from_page w url)).
Proof.
  unfold_extract.
  destruct (requests_get w url ExtractEmbeddedVideos.HEADERS 20)
    as [response|e]; simpl.
  - destruct (raise_for_status response) as [[]|e]; simpl.
    + destruct (ExtractEmbeddedVideos.potential_urls w response)
        as [raw|e]; simpl.
      * resolution_events.
      * destruct (is_Exception e); resolution_events.
    + destruct (is_Exception e); resolution_events.
  - destruct (is_Exception e); resolution_events.
Qed.

Lemma first_downloadable_events (w : World) (url : string)
      (cands l : list string) :
  incl l cands ->
  Forall (resolution_event url cands)
         (trace (ExtractVideoUrls.first_downloadable w l)).
Proof.
  induction l as [|c l IH]; intros Hl; [constructor|].
  simpl. apply Forall_trace_bind.
  - apply (probe_resolution_event url cands c).
    + right. apply Hl. now left.
    + apply video_urls_probe_trace.
  - intros [|] _; [constructor|].
    apply IH. intros x Hx. apply Hl. now right.
Qed.

Lemma test_embedded_events (w : World) (url : string)
      (cands l : list string) (r : ExtractEmbeddedVideos.results) :
  incl l cands ->
  Forall (resolution_event url cands)
         (trace (ExtractEmbeddedVideos.test_embedded w l r)).
Proof.
  revert r. induction l as [|c l IH]; intros r Hl; [constructor|].
  simpl. apply Forall_trace_bind.
  - apply (probe_resolution_event url cands c).
    + right. apply Hl. now left.
    + apply embedded_probe_trace.
  - intros [[u ok] err] _. apply IH. intros x Hx. apply Hl. now right.
Qed.

(** X5.  Every event of a resolution is the fetch of the input URL or
    belongs to a probe of the input URL or of a candidate extracted from
    its page: yt-dlp is never run on anything else. *)
Theorem process_url_events (w : World) (url : string) :
  Forall (resolution_event url (video_urls_candidates w url))
         (trace (ExtractVideoUrls.process_url w url))
  /\ Forall (resolution_event url (embedded_candidates w url))
            (trace (ExtractEmbeddedVideos.process_url w url)).
Proof.
  split.
  - unfold ExtractVideoUrls.process_url. apply Forall_trace_bind.
    + apply (probe_resolution_event url _ url); [now left|].
      apply video_urls_probe_trace.
    + intros [|] _; [constructor|].
      apply Forall_trace_bind; [apply video_urls_extract_events|].
      intros cands Hc. unfold video_urls_candidates. rewrite Hc.
      apply Forall_trace_bind.
      * apply first_downloadable_events, incl_refl.
      * intros [v|] _; [constructor|].
        apply Forall_trace_bind; [|constructor].
        resolution_events.
  - unfold ExtractEmbeddedVideos.process_url. apply Forall_trace_bind.
    + apply (probe_resolution_event url _ url); [now left|].
      apply embedded_probe_trace.
    + intros [[u [|]] err] _; [constructor|].
      apply Forall_trace_bind; [apply embedded_extract_events|].
      intros cands Hc. unfold embedded_candidates. rewrite Hc.
      apply test_embedded_events, incl_refl.
Qed.

(* ================================================================== *)
(** * The subprocess of a probe *)

(** X6.  A probe of [extract_video_urls.py] or of
    [extract_embedded_videos.py] starts a subprocess exactly when the
    import of yt-dlp or [extract_info] raised an [ImportError], and then
    exactly one, with the command line of the script; a probe of
    [test_yt_dlp_urls.py] never starts one. *)
Theorem probe_subprocess (w : World) (url : string) :
  started (trace (ExtractVideoUrls.is_downloadable_with_ytdlp w url))
  = match yt_dlp_call w ExtractVideoUrls.ydl_opts url with
    | Raise (ImportError _) =>
        [[sys_executable w; "-m"; "yt_dlp"; "--simulate"; url]]
    | _ => []
    end
  /\ started (trace (ExtractEmbeddedVideos.is_downloadable_with_ytdlp w url))
     = match yt_dlp_call w ExtractEmbeddedVideos.ydl_opts url with
       | Raise (ImportError _) =>
           [["python"; "-m"; "yt_dlp"; "--simulate"; "--quiet"; url]]
       | _ => []
       end
  /\ started (trace (TestYtDlpUrls.is_downloadable_with_ytdlp w url)) = [].
Proof.
  repeat split; unfold_oracle; world_cases w; reflexivity.
Qed.

(* ================================================================== *)
(** * The passes, one by one *)

Lemma video_urls_from_video_tags_extends (page_url : string) (soup : node)
      (urls urls' : list string) :
  ExtractVideoUrls.from_video_tags page_url soup urls = Return urls' ->
  extends urls urls'.
Proof.
  exact (for_each_extends _ _ (video_urls_from_video_tags_appending page_url)
                          tt urls urls').
Qed.

Lemma video_urls_from_iframes_appending :
  appending
    (fun (iframe : node) (urls : list string) =>
       if truthy (get iframe "src")
       then rbind (getitem iframe "src") (fun src => Return (urls ++ [src]))
       else Return urls).
Proof.
  intros iframe t t'. destruct (truthy (get iframe "src"));
    [|intros [= <-]; apply extends_refl].
  apply rbind_append_extends.
Qed.


Lemma video_urls_from_json_scripts_extends (w : World) (soup : node)
      (urls : list string) :
  extends urls (ExtractVideoUrls.from_json_scripts w soup urls).
Proof.
  unfold ExtractVideoUrls.from_json_scripts. apply fold_left_extends.
  intros t script.
  destruct (rbind _ _) as [t'|e] eqn:E; [|apply extends_refl].
  apply rbind_Return_inv in E as [j [_ E]]. injection E as <-.
  apply extends_app.
Qed.

Lemma video_urls_from_text_extends (text : string) (urls : list string) :
  extends urls (ExtractVideoUrls.from_text text urls).
Proof.
  unfold ExtractVideoUrls.from_text. apply fold_left_extends.
  intros t m. apply extends_app.
Qed.

Lemma video_urls_from_links_extends (page_url : string) (soup : node)
      (urls urls' : list string) :
  ExtractVideoUrls.from_links page_url soup urls = Return urls' ->
  extends urls urls'.
Proof.
  unfold ExtractVideoUrls.from_links. intros H.
  refine (for_each_extends _ _ _ tt _ _ H).
  intros link t t' Hl. apply rbind_Return_inv in Hl as [href [_ Hl]].
  destruct (contains "download" href || contains "download" _
            || contains "video" _);
    [|injection Hl as <-; apply extends_refl].
  exact (rbind_append_extends _ _ _ Hl).
Qed.

(** The list after each pass of [extract_video_urls.py]. *)
Lemma video_urls_potential_urls_passes (w : World) (page_url : string)
      (response : Response) (raw : list string) :
  ExtractVideoUrls.potential_urls w page_url response = Return raw ->
  exists s1 s2,
    ExtractVideoUrls.from_video_tags
      page_url (html_parser w (text response)) [] = Return s1
    /\ ExtractVideoUrls.from_iframes (html_parser w (text response)) s1
       = Return s2
    /\ ExtractVideoUrls.from_links
         page_url (html_parser w (text response))
         (ExtractVideoUrls.from_text
            (text response)
            (ExtractVideoUrls.from_json_scripts
               w (html_parser w (text response)) s2))
       = Return raw.
Proof.
  unfold ExtractVideoUrls.potential_urls. intros H.
  apply rbind_Return_inv in H as [s1 [H1 H]].
  apply rbind_Return_inv in H as [s2 [H2 H]].
  now exists s1, s2.
Qed.


Lemma embedded_from_scripts_extends (base_url : string) (soup : node)
      (urls urls' : list string) :
  ExtractEmbeddedVideos.from_scripts base_url soup urls = Return urls' ->
  extends urls urls'.
Proof.
  unfold ExtractEmbeddedVideos.from_scripts. intros H.
  refine (for_each_extends _ _ _ tt _ _ H).
  intros script t t'. destruct (truthy (string_of script));
    [|intros [= <-]; apply extends_refl].
  intros Hs. refine (for_each_extends _ _ _ tt _ _ Hs).
  intros m r r' Hm. exact (rbind_append_extends _ _ _ Hm).
Qed.

Lemma embedded_from_text_extends (base_url text : string)
      (urls urls' : list string) :
  ExtractEmbeddedVideos.from_text base_url text urls = Return urls' ->
  extends urls urls'.
Proof.
  unfold ExtractEmbeddedVideos.from_text. intros H.
  refine (for_each_extends _ _ _ tt _ _ H).
  intros extension t t' He. refine (for_each_extends _ _ _ tt _ _ He).
  intros m r r' Hm. exact (rbind_append_extends _ _ _ Hm).
Qed.

Lemma embedded_from_links_appending (base_url : string) :
  appending
    (fun (a : node) (urls : list string) =>
       rbind (if truthy (get a "href")
                 && ExtractEmbeddedVideos.has_keyword
                      (lower (match get a "href" with
                              | Some h => h
                              | None => ""
                              end))
              then rbind (getitem a "href") (fun href =>
                   rbind (UrlParse.urljoin base_url href)
                         (fun download_url =>
                   Return (urls ++ [download_url])))
              else Return urls) (fun urls =>
       if truthy (Some (get_text a))
          && ExtractEmbeddedVideos.has_keyword (lower (get_text a))
       then rbind (UrlParse.urljoin base_url
                     (match get a "href" with
                      | Some h => h
                      | None => ""
                      end)) (fun download_url =>
            Return (urls ++ [download_url]))
       else Return urls)).
Proof.
  intros a t t' Ha. apply rbind_Return_inv in Ha as [t1 [Ha1 Ha2]].
  apply (extends_trans _ t1).
  - exact (append_joined_extends _ _ _ _ _ Ha1).
  - destruct (truthy (Some (get_text a)) && _);
      [|injection Ha2 as <-; apply extends_refl].
    exact (rbind_append_extends _ _ _ Ha2).
Qed.

Lemma embedded_from_links_extends (base_url : string) (soup : node)
      (urls urls' : list string) :
  ExtractEmbeddedVideos.from_links base_url soup urls = Return urls' ->
  extends urls urls'.
Proof.
  exact (for_each_extends _ _ (embedded_from_links_appending base_url)
                          tt urls urls').
Qed.

(** The list after each pass of [extract_embedded_videos.py]. *)
Lemma embedded_potential_urls_passes (w : World) (response : Response)
      (raw : list string) :
  ExtractEmbeddedVideos.potential_urls w response = Return raw ->
  exists s1 s2 s3 s4,
    ExtractEmbeddedVideos.from_video_tags
      (url response) (html_parser w (text response)) [] = Return s1
    /\ ExtractEmbeddedVideos.from_iframes
         (url response) (html_parser w (text response)) s1 = Return s2
    /\ ExtractEmbeddedVideos.from_scripts
         (url response) (html_parser w (text response)) s2 = Return s3
    /\ ExtractEmbeddedVideos.from_text (url response) (text response) s3
       = Return s4
    /\ ExtractEmbeddedVideos.from_links
         (url response) (html_parser w (text response)) s4 = Return raw.
Proof.
  unfold ExtractEmbeddedVideos.potential_urls. intros H.
  apply rbind_Return_inv in H as [s1 [H1 H]].
  apply rbind_Return_inv in H as [s2 [H2 H]].
  apply rbind_Return_inv in H as [s3 [H3 H]].
  apply rbind_Return_inv in H as [s4 [H4 H]].
  now exists s1, s2, s3, s4.
Qed.

(* ================================================================== *)
(** * Embedded players *)

Lemma video_urls_iframe_candidate (w : World) (page_url : string)
      (response : Response) (iframe : node) (src : string)
      (raw : list string) :
  ExtractVideoUrls.potential_urls w page_url response = Return raw ->
  In iframe (find_all "iframe" (html_parser w (text response))) ->
  get iframe "src" = Some src -> src <> "" ->
  In src raw.
Proof.
  intros H Hi Hs Hne.
  apply video_urls_potential_urls_passes in H as (s1 & s2 & _ & H2 & H5).
  eapply extends_In.
  { eapply extends_trans; [apply video_urls_from_json_scripts_extends|].
    eapply extends_trans; [apply video_urls_from_text_extends|].
    exact (video_urls_from_links_extends _ _ _ _ H5). }
  unfold ExtractVideoUrls.from_iframes in H2.
  refine (for_each_In _ _ iframe src _ _
                      video_urls_from_iframes_appending Hi _ H2).
  intros s0 t Hb. unfold getitem in Hb. rewrite Hs in Hb.
  destruct src as [|a src]; [contradiction|]. simpl in Hb.
  injection Hb as <-. apply in_or_app. right. now left.
Qed.

Lemma embedded_iframe_candidate (w : World) (response : Response)
      (iframe : node) (src u : string) (raw : list string) :
  ExtractEmbeddedVideos.potential_urls w response = Return raw ->
  In iframe (find_all "iframe" (html_parser w (text response))) ->
  get iframe "src" = Some src -> src <> "" ->
  UrlParse.urljoin (url response) src = Return u ->
  In u raw.
Proof.
  intros H Hi Hs Hne Hj.
  apply embedded_potential_urls_passes in H
    as (s1 & s2 & s3 & s4 & _ & H2 & H3 & H4 & H5).
  eapply extends_In.
  { eapply extends_trans;
      [exact (embedded_from_scripts_extends _ _ _ _ H3)|].
    eapply extends_trans;
      [exact (embedded_from_text_extends _ _ _ _ H4)|].
    exact (embedded_from_links_extends _ _ _ _ H5). }
  unfold ExtractEmbeddedVideos.from_iframes in H2.
  refine (for_each_In _ _ iframe u _ _ _ Hi _ H2).
  - intros x t t' Hx. exact (append_joined_extends _ _ _ _ _ Hx).
  - intros s0 t Hb. unfold getitem in Hb. rewrite Hs in Hb.
    destruct src as [|a src]; [contradiction|]. simpl in Hb.
    rewrite Hj in Hb. injection Hb as <-. apply in_or_app. right. now left.
Qed.

(** X7.  The [src] of an [<iframe>] of the page is a candidate of both
    scripts: [extract_video_urls.py] appends it as it is written (a
    relative address stays relative), [extract_embedded_videos.py]
    appends it joined to the final URL of the page. *)
Theorem iframe_candidate (w : World) (page_url : string)
        (response : Response) (iframe : node) (src : string) :
  In iframe (find_all "iframe" (html_parser w (text response))) ->
  get iframe "src" = Some src -> src <> "" ->
  (forall raw,
      ExtractVideoUrls.potential_urls w page_url response = Return raw ->
      In src raw)
  /\ (forall raw u,
         ExtractEmbeddedVideos.potential_urls w response = Return raw ->
         UrlParse.urljoin (url response) src = Return u ->
         In u raw).
Proof.
  intros Hi Hs Hne. split.
  - intros raw H.
    exact (video_urls_iframe_candidate w page_url response iframe src raw
                                       H Hi Hs Hne).
  - intros raw u H Hj.
    exact (embedded_iframe_candidate w response iframe src u raw
                                     H Hi Hs Hne Hj).
Qed.

Lemma iframe_candidate_witness :
  outcome (ExtractVideoUrls.extract_video_url_from_webpage
             (Pages.world Pages.player_soup Pages.player_text [])
             Pages.meeting)
  = Return ["/player/5"]
  /\ outcome (ExtractEmbeddedVideos.extract_video_urls_from_page
                (Pages.world Pages.player_soup Pages.player_text [])
                Pages.meeting)
     = Return ["https://example.org/player/5"]
  /\ In "/player/5" ["/player/5"]
  /\ In "https://example.org/player/5" ["https://example.org/player/5"].
Proof.
  pose (w := Pages.world Pages.player_soup Pages.player_text []).
  pose (response := {| status_code := 200; reason := "OK"; text := Pages.player_text;
                       url := Pages.meeting |}).
  assert (Hi : In (Tag "iframe" [("src", "/player/5")] [])
                  (find_all "iframe" (html_parser w (text response))))
    by (vm_compute; auto).
  assert (Hs : get (Tag "iframe" [("src", "/player/5")] []) "src"
               = Some "/player/5") by reflexivity.
  assert (Hne : "/player/5" <> "") by discriminate.
  assert (H1 : ExtractVideoUrls.potential_urls w Pages.meeting response
               = Return ["/player/5"]) by (vm_compute; reflexivity).
  assert (H2 : ExtractEmbeddedVideos.potential_urls w response
               = Return ["https://example.org/player/5"])
    by (vm_compute; reflexivity).
  assert (Hj : UrlParse.urljoin (url response) "/player/5"
               = Return "https://example.org/player/5")
    by (vm_compute; reflexivity).
  destruct (iframe_candidate w Pages.meeting response _ _ Hi Hs Hne)
    as [V E].
  split; [vm_compute; reflexivity|].
  split; [vm_compute; reflexivity|].
  split; [exact (V _ H1)|exact (E _ _ H2 Hj)].
Defined.

(* ================================================================== *)
(** * One source that cannot be joined *)

Lemma for_each_raises {A S} (l : list A) (body : A -> S -> result S)
      (x : A) :
  In x l -> (forall s, exists e, body x s = Raise e) ->
  forall s, exists e, for_each l body s = Raise e.
Proof.
  intros Hx Hb. induction l as [|y l IH]; [contradiction|].
  intros s. simpl. destruct Hx as [->|Hx].
  - destruct (Hb s) as [e ->]. simpl. eauto.
  - destruct (body y s) as [s1|e]; simpl; eauto.
Qed.

Lemma from_video_tags_raises (base_url : string) (soup video : node)
      (src : string) (e : exn) (urls : list string) :
  In video (find_all "video" soup) ->
  get video "src" = Some src -> src <> "" ->
  UrlParse.urljoin base_url src = Raise e ->
  exists e', ExtractVideoUrls.from_video_tags base_url soup urls = Raise e'.
Proof.
  intros Hv Hs Hne Hj. unfold ExtractVideoUrls.from_video_tags.
  apply (for_each_raises _ _ video Hv). intros s.
  unfold getitem. rewrite Hs.
  destruct src as [|a src]; [contradiction|]. simpl. rewrite Hj. simpl. eauto.
Qed.

(** X8.  One [<video>] element whose [src] cannot be joined to the base
    ([urljoin] raises) makes the extraction of both scripts return the
    empty list, with one error in the log, whatever else the page
    holds. *)
Theorem media_source_not_joined (w : World) (page_url : string)
        (response : Response) (video : node) (src : string) (e : exn) :
  In video (find_all "video" (html_parser w (text response))) ->
  get video "src" = Some src -> src <> "" ->
  (fetch w page_url ExtractVideoUrls.headers 30 = Return response ->
   UrlParse.urljoin page_url src = Raise e ->
   exists msg,
     ExtractVideoUrls.extract_video_url_from_webpage w page_url
     = (Return [], [EvRequestsGet page_url; EvLog ERROR msg]))
  /\ (fetch w page_url ExtractEmbeddedVideos.HEADERS 20 = Return response ->
      UrlParse.urljoin (url response) src = Raise e ->
      exists msg,
        ExtractEmbeddedVideos.extract_video_urls_from_page w page_url
        = (Return [], [EvRequestsGet page_url; EvLog ERROR msg])).
Proof.
  intros Hv Hs Hne. split; intros Hf Hj.
  - destruct (from_video_tags_raises page_url _ video src e [] Hv Hs Hne Hj)
      as [e' He'].
    assert (Hp : ExtractVideoUrls.potential_urls w page_url response
                 = Raise e').
    { unfold ExtractVideoUrls.potential_urls. now rewrite He'. }
    pose proof (video_urls_potential_urls_only_Exceptions _ _ _ _ Hp) as Hx.
    revert Hf. unfold_extract.
    destruct (requests_get w page_url ExtractVideoUrls.headers 30)
      as [r|e0]; simpl; [|discriminate].
    destruct (raise_for_status r) as [[]|e0]; simpl; [|discriminate].
    intros [= ->]. rewrite Hp. simpl. rewrite Hx. simpl. eauto.
  - destruct (from_video_tags_raises (url response) _ video src e []
                                     Hv Hs Hne Hj) as [e' He'].
    assert (Hp : ExtractEmbeddedVideos.potential_urls w response = Raise e').
    { unfold ExtractEmbeddedVideos.potential_urls.
      rewrite embedded_from_video_tags_eq. now rewrite He'. }
    pose proof (embedded_potential_urls_only_Exceptions _ _ _ Hp) as Hx.
    revert Hf. unfold_extract.
    destruct (requests_get w page_url ExtractEmbeddedVideos.HEADERS 20)
      as [r|e0]; simpl; [|discriminate].
    destruct (raise_for_status r) as [[]|e0]; simpl; [|discriminate].
    intros [= ->]. rewrite Hp. simpl. rewrite Hx. simpl. eauto.
Qed.

Lemma media_source_not_joined_witness :
  ExtractVideoUrls.from_iframes Pages.broken_soup []
  = Return ["https://embed.example.com/x"]
  /\ (exists msg,
        ExtractVideoUrls.extract_video_url_from_webpage
          (Pages.world Pages.broken_soup Pages.broken_text
                       ["https://embed.example.com/x"])
          Pages.meeting
        = (Return [], [EvRequestsGet Pages.meeting; EvLog ERROR msg]))
  /\ (exists msg,
        ExtractEmbeddedVideos.extract_video_urls_from_page
          (Pages.world Pages.broken_soup Pages.broken_text
                       ["https://embed.example.com/x"])
          Pages.meeting
        = (Return [], [EvRequestsGet Pages.meeting; EvLog ERROR msg])).
Proof.
  pose (w := Pages.world Pages.broken_soup Pages.broken_text
                         ["https://embed.example.com/x"]).
  pose (response := {| status_code := 200; reason := "OK"; text := Pages.broken_text;
                       url := Pages.meeting |}).
  assert (Hv : In (Tag "video" [("src", "//[x")] [])
                  (find_all "video" (html_parser w (text response))))
    by (vm_compute; auto).
  assert (Hs : get (Tag "video" [("src", "//[x")] []) "src" = Some "//[x")
    by reflexivity.
  assert (Hne : "//[x" <> "") by discriminate.
  assert (Hj : UrlParse.urljoin Pages.meeting "//[x"
               = Raise (ValueError "Invalid IPv6 URL"))
    by (vm_compute; reflexivity).
  assert (H1 : fetch w Pages.meeting ExtractVideoUrls.headers 30
               = Return response) by (vm_compute; reflexivity).
  assert (H2 : fetch w Pages.meeting ExtractEmbeddedVideos.HEADERS 20
               = Return response) by (vm_compute; reflexivity).
  destruct (media_source_not_joined w Pages.meeting response _ _
                                    (ValueError "Invalid IPv6 URL") Hv Hs Hne)
    as [V E].
  split; [vm_compute; reflexivity|].
  split; [exact (V H1 Hj)|exact (E H2 Hj)].
Defined.

(* ================================================================== *)
(** * A link without an address *)

Lemma urljoin_empty (base : string) : UrlParse.urljoin base "" = Return base.
Proof. unfold UrlParse.urljoin. now destruct base. Qed.

Lemma has_keyword_nonempty (s : string) :
  ExtractEmbeddedVideos.has_keyword (lower s) = true -> s <> "".
Proof. intros H ->. discriminate H. Qed.

(** X9.  In [extract_embedded_videos.py] a link without an [href], or
    with an empty one, whose text holds one of the keywords makes the
    final URL of the page itself a candidate. *)
Theorem link_without_href (w : World) (response : Response) (a : node)
        (raw : list string) :
  ExtractEmbeddedVideos.potential_urls w response = Return raw ->
  In a (find_all "a" (html_parser w (text response))) ->
  truthy (get a "href") = false ->
  ExtractEmbeddedVideos.has_keyword (lower (get_text a)) = true ->
  In (url response) raw.
Proof.
  intros H Ha Hh Hk.
  apply embedded_potential_urls_passes in H
    as (s1 & s2 & s3 & s4 & _ & _ & _ & _ & H5).
  unfold ExtractEmbeddedVideos.from_links in H5.
  refine (for_each_In _ _ a (url response) _ _
                      (embedded_from_links_appending (url response))
                      Ha _ H5).
  intros s0 t. rewrite Hh, Hk. simpl.
  assert (Hhref : match get a "href" with Some h => h | None => "" end = "").
  { destruct (get a "href") as [[|c h]|]; try reflexivity. discriminate Hh. }
  rewrite Hhref, urljoin_empty.
  pose proof (has_keyword_nonempty _ Hk) as Hne.
  destruct (get_text a) as [|c t0]; [contradiction|]. simpl.
  intros [= <-]. apply in_or_app. right. now left.
Qed.

Lemma link_without_href_witness :
  outcome (ExtractEmbeddedVideos.extract_video_urls_from_page
             (Pages.world Pages.button_soup Pages.button_text [])
             Pages.meeting)
  = Return [Pages.meeting]
  /\ In Pages.meeting [Pages.meeting].
Proof.
  pose (w := Pages.world Pages.button_soup Pages.button_text []).
  pose (response := {| status_code := 200; reason := "OK"; text := Pages.button_text;
                       url := Pages.meeting |}).
  assert (Hp : ExtractEmbeddedVideos.potential_urls w response
               = Return [Pages.meeting]) by (vm_compute; reflexivity).
  assert (Ha : In (Tag "a" [] [NavigableString "Download the recording"])
                  (find_all "a" (html_parser w (text response))))
    by (vm_compute; auto).
  assert (Hh : truthy (get (Tag "a" [] [NavigableString "Download the recording"])
                           "href") = false) by reflexivity.
  assert (Hk : ExtractEmbeddedVideos.has_keyword
                 (lower (get_text
                           (Tag "a" [] [NavigableString "Download the recording"])))
               = true) by (vm_compute; reflexivity).
  split; [vm_compute; reflexivity|].
  exact (link_without_href w response _ _ Hp Ha Hh Hk).
Defined.

(* ================================================================== *)
(** * The tuple of a probe *)

(** X10.  The tuple that the wrappers of [extract_embedded_videos.py] and
    [test_yt_dlp_urls.py] return holds the probed URL, and its error
    message is [None] exactly when its verdict is [True]. *)
Theorem probe_tuple (w : World) (url u : string) (ok : bool)
        (err : option string) :
  outcome (ExtractEmbeddedVideos.is_downloadable_with_ytdlp w url)
  = Return (u, ok, err)
  \/ outcome (TestYtDlpUrls.is_downloadable_with_ytdlp w url)
     = Return (u, ok, err) ->
  u = url /\ (ok = true <-> err = None).
Proof.
  intros [H|H]; revert H; unfold_oracle; world_cases w;
    intros [= <- <- <-]; (split; [reflexivity|split; discriminate || reflexivity]).
Qed.

Lemma probe_tuple_witness :
  Scenario.meeting = Scenario.meeting
  /\ (false = true <-> Some "Subprocess error: timed out" = None).
Proof.
  apply (probe_tuple Scenario.world_with_timeout Scenario.meeting).
  left. vm_compute. reflexivity.
Defined.

(* ================================================================== *)
(** * The record of a resolution *)

(** X11.  The record [extract_embedded_videos.process_url] returns:
    [original_url] is the input; [direct_downloadable] is the verdict of
    the direct probe; both lists are free of duplicates; after an
    accepted direct probe the record holds the input URL alone, and
    otherwise [embedded_videos_found] is the extracted list,
    [downloadable_videos] its accepted candidates in list order, and
    [errors] one entry for the direct probe and one for each rejected
    candidate, in list order, when the error text is not empty. *)
Theorem embedded_process_url_record (w : World) (url : string)
        (r : ExtractEmbeddedVideos.results) :
  outcome (ExtractEmbeddedVideos.process_url w url) = Return r ->
  ExtractEmbeddedVideos.original_url r = url
  /\ ExtractEmbeddedVideos.direct_downloadable r = embedded_accepts w url
  /\ NoDup (ExtractEmbeddedVideos.embedded_videos_found r)
  /\ NoDup (ExtractEmbeddedVideos.downloadable_videos r)
  /\ (if ExtractEmbeddedVideos.direct_downloadable r
      then ExtractEmbeddedVideos.embedded_videos_found r = []
           /\ ExtractEmbeddedVideos.downloadable_videos r = [url]
           /\ ExtractEmbeddedVideos.errors r = []
      else ExtractEmbeddedVideos.embedded_videos_found r
           = embedded_candidates w url
           /\ ExtractEmbeddedVideos.downloadable_videos r
              = filter (embedded_accepts w)
                       (ExtractEmbeddedVideos.embedded_videos_found r)
           /\ ExtractEmbeddedVideos.errors r
              = match embedded_error w url with
                | Some m => ["Direct URL error: " +++ m]
                | None => []
                end
                ++ embedded_error_entries
                     w (ExtractEmbeddedVideos.embedded_videos_found r)).
Proof.
  unfold ExtractEmbeddedVideos.process_url. rewrite outcome_bind.
  unfold embedded_accepts at 1. unfold embedded_error at 1.
  destruct (outcome (ExtractEmbeddedVideos.is_downloadable_with_ytdlp w url))
    as [[[u ok] err]|e] eqn:Hd; [|discriminate].
  pose proof (@embedded_probe_url _ _ _ _ _ Hd) as ->.
  destruct ok.
  - simpl. intros [= <-]. simpl.
    repeat split; try constructor; auto; constructor.
  - rewrite outcome_bind. unfold embedded_candidates.
    destruct (outcome (ExtractEmbeddedVideos.extract_video_urls_from_page w url))
      as [cands|e] eqn:Hc; [|discriminate].
    intros H. apply test_embedded_outcome in H as (H1 & H2 & H3 & H4 & H5).
    simpl in *. rewrite H2, H3.
    pose proof (@embedded_extract_NoDup _ _ _ Hc) as Hnd.
    repeat split; auto.
    + rewrite H4. now apply NoDup_filter.
    + rewrite H5. f_equal. now destruct err as [[|a m]|].
Qed.

Lemma embedded_process_url_record_witness :
  exists r,
    outcome (ExtractEmbeddedVideos.process_url
               (Scenario.world [Scenario.media] Scenario.serve)
               Scenario.meeting)
    = Return r
    /\ ExtractEmbeddedVideos.downloadable_videos r = [Scenario.media]
    /\ ExtractEmbeddedVideos.errors r
       = ["Direct URL error: Unsupported URL";
          "Embedded URL error (https://embed.example.com/x): Unsupported URL"]
    /\ NoDup (ExtractEmbeddedVideos.downloadable_videos r).
Proof.
  destruct (outcome (ExtractEmbeddedVideos.process_url
                       (Scenario.world [Scenario.media] Scenario.serve)
                       Scenario.meeting)) as [r|e] eqn:H;
    [|vm_compute in H; discriminate H].
  exists r. split; [reflexivity|].
  pose proof (embedded_process_url_record _ _ _ H) as (_ & _ & _ & Hnd & _).
  vm_compute in H. injection H as <-.
  split; [reflexivity|]. split; [reflexivity|]. exact Hnd.
Defined.

(* ================================================================== *)
(** * [extract_urls_from_json] *)

(** X12.  [extract_urls_from_json] only appends to the list it is given:
    the result is that list followed by what the JSON value yields on an
    empty list; and every URL it yields starts with [http]. *)
Theorem extract_urls_from_json_appends (json_data : json) :
  (forall urls,
      ExtractVideoUrls.extract_urls_from_json json_data urls
      = urls ++ ExtractVideoUrls.extract_urls_from_json json_data [])
  /\ Forall (fun u => startswith u "http" = true)
            (ExtractVideoUrls.extract_urls_from_json json_data []).
Proof.
  induction json_data as [|b|n|s|items IH|members IH] using json_induction;
    try (split; [intros urls; simpl; now rewrite app_nil_r|constructor]).
  - assert (Hstep : Forall
                      (fun item => forall urls,
                           ExtractVideoUrls.extract_urls_from_json item urls
                           = urls
                             ++ ExtractVideoUrls.extract_urls_from_json item [])
                      items).
    { eapply Forall_impl; [|exact IH]. now intros item [H _]. }
    split.
    + intros urls. rewrite !extract_urls_from_json_array.
      rewrite (fold_left_appends _ _ Hstep urls).
      rewrite (fold_left_appends _ _ Hstep []). reflexivity.
    + rewrite extract_urls_from_json_array.
      rewrite (fold_left_appends _ _ Hstep []). simpl.
      apply Forall_flat_map. eapply Forall_impl; [|exact IH].
      now intros item [_ H].
  - assert (Hstep : Forall
                      (fun kv => forall urls,
                           json_member urls kv = urls ++ json_member [] kv)
                      members).
    { eapply Forall_impl; [|exact IH]. intros [key value] [H _] urls.
      unfold json_member.
      destruct (str_in key ExtractVideoUrls.json_keys); simpl;
        [|apply H].
      destruct value; simpl; try apply H.
      destruct (startswith s "http"); [reflexivity|now rewrite app_nil_r]. }
    split.
    + intros urls. rewrite !extract_urls_from_json_object.
      rewrite (fold_left_appends _ _ Hstep urls).
      rewrite (fold_left_appends _ _ Hstep []). reflexivity.
    + rewrite extract_urls_from_json_object.
      rewrite (fold_left_appends _ _ Hstep []). simpl.
      apply Forall_flat_map. eapply Forall_impl; [|exact IH].
      intros [key value] [_ H]. unfold json_member.
      destruct (str_in key ExtractVideoUrls.json_keys); simpl; [|exact H].
      destruct value; simpl; try exact H.
      destruct (startswith s "http") eqn:E; repeat constructor. exact E.
Qed.

(* ================================================================== *)
(** * URLs in the page text *)











(* ================================================================== *)
(** * Where the candidates come from *)

Lemma for_each_In_inv {A} (body : A -> list string -> result (list string))
      (Q : A -> string -> Prop) (l : list A) :
  (forall x s0 s1 u,
      body x s0 = Return s1 -> In u s1 -> In u s0 \/ Q x u) ->
  forall s s' u,
    for_each l body s = Return s' -> In u s' ->
    In u s \/ exists x, In x l /\ Q x u.
Proof.
  intros Hb. induction l as [|x l IH]; intros s s' u H Hu; simpl in H.
  - injection H as <-. now left.
  - apply rbind_Return_inv in H as [s1 [H1 H2]].
    destruct (IH _ _ _ H2 Hu) as [Hin|(y & Hy & Hq)].
    + destruct (Hb _ _ _ _ H1 Hin) as [H0|Hq]; [now left|].
      right. exists x. split; [now left|exact Hq].
    + right. exists y. split; [now right|exact Hq].
Qed.











Lemma append_result_inv (r : result string) (urls s' : list string)
      (u : string) :
  rbind r (fun v => Return (urls ++ [v])) = Return s' ->
  In u s' -> In u urls \/ r = Return u.
Proof.
  destruct r as [v|e]; simpl; [|discriminate].
  intros [= <-] Hu. apply in_app_or in Hu as [Hu|[<-|[]]]; auto.
Qed.







(* ================================================================== *)
(** * [test_yt_dlp_urls.py]: the loop and the report *)

Lemma test_probe_url (w : World) (url u : string) (ok : bool)
      (err : option string) :
  outcome (TestYtDlpUrls.is_downloadable_with_ytdlp w url)
  = Return (u, ok, err) ->
  u = url.
Proof.
  unfold_oracle; world_cases w; intros [= <- <- <-]; reflexivity.
Qed.

Lemma test_probe_error (w : World) (url u : string) (err : option string) :
  outcome (TestYtDlpUrls.is_downloadable_with_ytdlp w url)
  = Return (u, true, err) ->
  err = None.
Proof.
  unfold_oracle; world_cases w; intros [= <- <-]; reflexivity.
Qed.

Lemma test_each_outcome (w : World) (urls : list string)
      (results rs : list (string * bool * option string)) :
  outcome (TestYtDlpUrls.test_each w urls results) = Return rs ->
  exists new,
    rs = results ++ new
    /\ Forall2 (fun url r =>
                  outcome (TestYtDlpUrls.is_downloadable_with_ytdlp w url)
                  = Return r) urls new.
Proof.
  revert results. induction urls as [|url urls IH]; intros results; simpl.
  - intros [= <-]. exists []. split; [now rewrite app_nil_r|constructor].
  - rewrite outcome_bind.
    destruct (outcome (TestYtDlpUrls.is_downloadable_with_ytdlp w url))
      as [r|e] eqn:Hr; [|discriminate].
    intros H. apply IH in H as (new & -> & Hnew).
    exists (r :: new). split; [now rewrite <- app_assoc|].
    now constructor.
Qed.

Lemma test_each_trace (w : World) (urls : list string)
      (results rs : list (string * bool * option string)) :
  outcome (TestYtDlpUrls.test_each w urls results) = Return rs ->
  trace (TestYtDlpUrls.test_each w urls results)
  = flat_map (fun url =>
                trace (TestYtDlpUrls.is_downloadable_with_ytdlp w url)) urls.
Proof.
  revert results. induction urls as [|url urls IH]; intros results; simpl;
    [reflexivity|].
  rewrite outcome_bind, trace_bind.
  destruct (outcome (TestYtDlpUrls.is_downloadable_with_ytdlp w url))
    as [r|e] eqn:Hr; [|discriminate].
  intros H. now rewrite (IH _ H).
Qed.

Lemma probes_tuples (w : World) (urls : list string)
      (rs : list (string * bool * option string)) :
  Forall2 (fun url r =>
             outcome (TestYtDlpUrls.is_downloadable_with_ytdlp w url)
             = Return r) urls rs ->
  map tuple_url rs = urls
  /\ map tuple_ok rs = map (test_accepts w) urls
  /\ Forall (fun r => tuple_ok r = true -> tuple_error r = None) rs.
Proof.
  induction 1 as [|url [[u ok] err] urls rs Hr _ (IH1 & IH2 & IH3)]; simpl.
  - repeat split; constructor.
  - pose proof (test_probe_url _ _ _ _ _ Hr) as ->.
    unfold test_accepts at 1. rewrite Hr. rewrite IH1, IH2.
    repeat split. constructor; [|exact IH3].
    unfold tuple_ok, tuple_error. simpl. intros ->.
    exact (test_probe_error _ _ _ _ Hr).
Qed.

Lemma test_each_returns (w : World) (urls : list string)
      (results : list (string * bool * option string)) :
  ordinary w -> returns (TestYtDlpUrls.test_each w urls results).
Proof.
  intros Hw. unfold returns. revert results.
  induction urls as [|url urls IH]; intros results; simpl; [eauto|].
  rewrite outcome_bind.
  destruct (test_probe_returns w url Hw) as [r ->]. apply IH.
Qed.

(** X16.  The loop of [test_urls_sequential] appends one tuple for each
    URL, in the order of the list, each the tuple the wrapper returns for
    that URL, and its trace is the traces of the probes one after the
    other; for [TEST_URLS] this gives the URLs and the verdicts in the
    order of [TEST_URLS]; and the function returns in a world whose
    outside calls raise subclasses of [Exception] only. *)
Theorem test_urls_sequential_results (w : World) :
  (forall urls results rs,
      outcome (TestYtDlpUrls.test_each w urls results) = Return rs ->
      exists new,
        rs = results ++ new
        /\ Forall2 (fun url r =>
                      outcome (TestYtDlpUrls.is_downloadable_with_ytdlp w url)
                      = Return r) urls new
        /\ trace (TestYtDlpUrls.test_each w urls results)
           = flat_map
               (fun url =>
                  trace (TestYtDlpUrls.is_downloadable_with_ytdlp w url))
               urls)
  /\ (forall rs,
         outcome (TestYtDlpUrls.test_urls_sequential w) = Return rs ->
         map tuple_url rs = TestYtDlpUrls.TEST_URLS
         /\ map tuple_ok rs = map (test_accepts w) TestYtDlpUrls.TEST_URLS)
  /\ (ordinary w -> returns (TestYtDlpUrls.test_urls_sequential w)).
Proof.
  split; [|split].
  - intros urls results rs H.
    destruct (test_each_outcome _ _ _ _ H) as (new & E & Hnew).
    exists new. repeat split; auto. exact (test_each_trace _ _ _ _ H).
  - intros rs H. unfold TestYtDlpUrls.test_urls_sequential in H.
    destruct (test_each_outcome _ _ _ _ H) as (new & -> & Hnew).
    destruct (probes_tuples _ _ _ Hnew) as (H1 & H2 & _). auto.
  - intros Hw. apply test_each_returns, Hw.
Qed.

Lemma test_urls_sequential_results_witness :
  exists rs,
    outcome (TestYtDlpUrls.test_urls_sequential
               (Scenario.world ["https://video.ibm.com/recorded/134312408"]
                               Scenario.refuse))
    = Return rs
    /\ map tuple_url rs = TestYtDlpUrls.TEST_URLS
    /\ map tuple_ok rs
       = [false; false; false; false; false; false; true; false; false].
Proof.
  pose (w := Scenario.world ["https://video.ibm.com/recorded/134312408"]
                            Scenario.refuse).
  assert (Hw : ordinary w).
  { apply ordinary_world. intros u e [= <-]. reflexivity. }
  destruct (test_urls_sequential_results w) as (_ & H2 & H3).
  destruct (H3 Hw) as [rs Hrs]. exists rs.
  destruct (H2 rs Hrs) as [E1 E2].
  split; [exact Hrs|]. split; [exact E1|].
  rewrite E2. vm_compute. reflexivity.
Defined.

Lemma format_results_fold (rs : list (string * bool * option string))
      (f : TestYtDlpUrls.formatted_results) :
  TestYtDlpUrls.downloadable_urls
    (fold_left TestYtDlpUrls.format_result rs f)
  = TestYtDlpUrls.downloadable_urls f ++ map tuple_url (filter tuple_ok rs)
  /\ TestYtDlpUrls.not_downloadable_urls
       (fold_left TestYtDlpUrls.format_result rs f)
     = TestYtDlpUrls.not_downloadable_urls f
       ++ map tuple_url (filter (fun r => negb (tuple_ok r)) rs)
  /\ map (dict_get "url")
         (TestYtDlpUrls.results_details
            (fold_left TestYtDlpUrls.format_result rs f))
     = map (dict_get "url") (TestYtDlpUrls.results_details f)
       ++ map (fun r => Some (JString (tuple_url r))) rs
  /\ map (dict_get "error")
         (TestYtDlpUrls.results_details
            (fold_left TestYtDlpUrls.format_result rs f))
     = map (dict_get "error") (TestYtDlpUrls.results_details f)
       ++ map (fun r => if truthy (tuple_error r)
                        then option_map JString (tuple_error r)
                        else None) rs.
Proof.
  revert f. induction rs as [|[[u ok] err] rs IH]; intros f.
  - simpl. now rewrite !app_nil_r.
  - cbn [fold_left]. destruct (IH (TestYtDlpUrls.format_result f (u, ok, err)))
      as (H1 & H2 & H3 & H4).
    rewrite H1, H2, H3, H4. unfold tuple_url, tuple_ok, tuple_error.
    simpl. rewrite !map_app. simpl.
    destruct ok; simpl; rewrite <- ?app_assoc; repeat split; try reflexivity;
      destruct err as [[|a m]|]; reflexivity.
Qed.

Lemma partition_Permutation {A B} (g : A -> B) (p : A -> bool) (l : list A) :
  Permutation (map g (filter p l) ++ map g (filter (fun x => negb (p x)) l))
              (map g l).
Proof.
  induction l as [|x l IH]; simpl; [constructor|].
  destruct (p x); simpl.
  - now constructor.
  - eapply Permutation_trans; [apply Permutation_sym, Permutation_middle|].
    now constructor.
Qed.

Lemma format_results_fields
      (results : list (string * bool * option string)) :
  TestYtDlpUrls.downloadable_urls (TestYtDlpUrls.format_results results)
  = map tuple_url (filter tuple_ok results)
  /\ TestYtDlpUrls.not_downloadable_urls
       (TestYtDlpUrls.format_results results)
     = map tuple_url (filter (fun r => negb (tuple_ok r)) results)
  /\ map (dict_get "url")
         (TestYtDlpUrls.results_details
            (TestYtDlpUrls.format_results results))
     = map (fun r => Some (JString (tuple_url r))) results
  /\ map (dict_get "error")
         (TestYtDlpUrls.results_details
            (TestYtDlpUrls.format_results results))
     = map (fun r => if truthy (tuple_error r)
                     then option_map JString (tuple_error r)
                     else None) results.
Proof.
  unfold TestYtDlpUrls.format_results.
  destruct (format_results_fold
              results
              {| TestYtDlpUrls.downloadable_urls := [];
                 TestYtDlpUrls.not_downloadable_urls := [];
                 TestYtDlpUrls.results_details := [] |})
    as (H1 & H2 & H3 & H4).
  rewrite H1, H2, H3, H4. simpl. repeat split; reflexivity.
Qed.

(** X17.  [format_results] splits the results: [downloadable_urls] holds
    the URLs of the accepted results and [not_downloadable_urls] those of
    the others, both in the order of the results, so that together they
    are a rearrangement of all the URLs; [results_details] has one
    dictionary for each result, in order, with its URL, and with an
    [error] key exactly when the error message is neither [None] nor
    empty. *)
Theorem format_results_partition
        (results : list (string * bool * option string)) :
  TestYtDlpUrls.downloadable_urls (TestYtDlpUrls.format_results results)
  = map tuple_url (filter tuple_ok results)
  /\ TestYtDlpUrls.not_downloadable_urls
       (TestYtDlpUrls.format_results results)
     = map tuple_url (filter (fun r => negb (tuple_ok r)) results)
  /\ Permutation
       (TestYtDlpUrls.downloadable_urls (TestYtDlpUrls.format_results results)
        ++ TestYtDlpUrls.not_downloadable_urls
             (TestYtDlpUrls.format_results results))
       (map tuple_url results)
  /\ map (dict_get "url")
         (TestYtDlpUrls.results_details
            (TestYtDlpUrls.format_results results))
     = map (fun r => Some (JString (tuple_url r))) results
  /\ map (dict_get "error")
         (TestYtDlpUrls.results_details
            (TestYtDlpUrls.format_results results))
     = map (fun r => if truthy (tuple_error r)
                     then option_map JString (tuple_error r)
                     else None) results.
Proof.
  destruct (format_results_fields results) as (H1 & H2 & H3 & H4).
  repeat split; try assumption.
  rewrite H1, H2. apply partition_Permutation.
Qed.

Lemma filter_map_verdict {A} (g : A -> string) (ok : A -> bool)
      (accepts : string -> bool) (rs : list A) :
  map ok rs = map accepts (map g rs) ->
  map g (filter ok rs) = filter accepts (map g rs).
Proof.
  induction rs as [|r rs IH]; simpl; [reflexivity|].
  intros [= E1 E2]. rewrite E1. destruct (accepts (g r)); simpl;
    now rewrite IH.
Qed.

(** X18.  The report of the sequential test of a list of URLs:
    [downloadable_urls] is the sub-list of the URLs the wrapper accepts,
    [not_downloadable_urls] the sub-list of the others, and
    [results_details] holds, in the order of the URLs, one dictionary
    for each URL, without an [error] key when the URL is accepted. *)
Theorem test_report (w : World) (urls : list string)
        (rs : list (string * bool * option string)) :
  outcome (TestYtDlpUrls.test_each w urls []) = Return rs ->
  TestYtDlpUrls.downloadable_urls (TestYtDlpUrls.format_results rs)
  = filter (test_accepts w) urls
  /\ TestYtDlpUrls.not_downloadable_urls (TestYtDlpUrls.format_results rs)
     = filter (fun u => negb (test_accepts w u)) urls
  /\ Forall2 (fun u d =>
                dict_get "url" d = Some (JString u)
                /\ (test_accepts w u = true -> dict_get "error" d = None))
             urls
             (TestYtDlpUrls.results_details (TestYtDlpUrls.format_results rs)).
Proof.
  intros H. destruct (test_each_outcome _ _ _ _ H) as (new & -> & Hnew).
  rewrite app_nil_l. destruct (probes_tuples _ _ _ Hnew) as (H1 & H2 & H3).
  destruct (format_results_fields new) as (F1 & F2 & F4 & F5).
  rewrite F1, F2. rewrite <- H1 in H2 |- *.
  split; [now apply filter_map_verdict|].
  split.
  { apply (filter_map_verdict tuple_url (fun r => negb (tuple_ok r))
                              (fun u => negb (test_accepts w u))).
    pose proof (f_equal (map negb) H2) as H2'.
    rewrite !map_map in H2'. rewrite map_map. exact H2'. }
  revert F4 F5 H2 H3.
  generalize (TestYtDlpUrls.results_details (TestYtDlpUrls.format_results new)).
  clear. induction new as [|r new IH]; intros [|d ds]; cbn [map];
    try discriminate; [constructor|].
  intros [= E1 E2] [= E3 E4] [= E5 E6] Hall.
  apply Forall_cons_iff in Hall as [Hr Hall].
  constructor; [|now apply IH].
  split; [exact E1|]. intros Hacc. rewrite E3.
  rewrite <- E5 in Hacc. now rewrite (Hr Hacc).
Qed.

Lemma test_report_witness :
  exists rs,
    outcome (TestYtDlpUrls.test_each
               (Scenario.world [Scenario.media] Scenario.refuse)
               [Scenario.meeting; Scenario.media] [])
    = Return rs
    /\ TestYtDlpUrls.downloadable_urls (TestYtDlpUrls.format_results rs)
       = [Scenario.media]
    /\ TestYtDlpUrls.not_downloadable_urls (TestYtDlpUrls.format_results rs)
       = [Scenario.meeting].
Proof.
  destruct (outcome (TestYtDlpUrls.test_each
                       (Scenario.world [Scenario.media] Scenario.refuse)
                       [Scenario.meeting; Scenario.media] []))
    as [rs|e] eqn:H; [|vm_compute in H; discriminate H].
  exists rs. split; [reflexivity|].
  destruct (test_report _ _ _ H) as (H1 & H2 & _).
  rewrite H1, H2. split; vm_compute; reflexivity.
Defined.

(* ================================================================== *)
(** * A probe that yt-dlp answers *)

(** X19.  When yt-dlp is imported and [extract_info] returns, the probe
    makes this one call and nothing else; [extract_video_urls.py] answers
    [True] exactly when the information returned is not [None], while
    [extract_embedded_videos.py] and [test_yt_dlp_urls.py] answer [True]
    whatever is returned. *)
Theorem probe_answered (w : World) (url : string) (info : option string) :
  (yt_dlp_call w ExtractVideoUrls.ydl_opts url = Return info ->
   ExtractVideoUrls.is_downloadable_with_ytdlp w url
   = (Return (match info with Some _ => true | None => false end),
      [EvExtractInfo url]))
  /\ (yt_dlp_call w ExtractEmbeddedVideos.ydl_opts url = Return info ->
      ExtractEmbeddedVideos.is_downloadable_with_ytdlp w url
      = (Return (url, true, None), [EvExtractInfo url])
      /\ TestYtDlpUrls.is_downloadable_with_ytdlp w url
         = (Return (url, true, None), [EvExtractInfo url])).
Proof.
  unfold_oracle. split.
  - destruct (import_yt_dlp w) as [[]|e]; simpl; [|discriminate].
    destruct (extract_info w ExtractVideoUrls.ydl_opts url) as [i|e]; simpl;
      [|discriminate].
    now intros [= ->].
  - destruct (import_yt_dlp w) as [[]|e]; simpl; [|discriminate].
    destruct (extract_info w ExtractEmbeddedVideos.ydl_opts url) as [i|e];
      simpl; [|discriminate].
    now intros [= ->].
Qed.

Lemma probe_answered_witness :
  outcome (ExtractVideoUrls.is_downloadable_with_ytdlp
             Pages.silent_world Scenario.meeting)
  = Return false
  /\ outcome (ExtractEmbeddedVideos.is_downloadable_with_ytdlp
                Pages.silent_world Scenario.meeting)
     = Return (Scenario.meeting, true, None)
  /\ outcome (TestYtDlpUrls.is_downloadable_with_ytdlp
                Pages.silent_world Scenario.meeting)
     = Return (Scenario.meeting, true, None).
Proof.
  destruct (probe_answered Pages.silent_world Scenario.meeting None) as [V E].
  rewrite (V eq_refl). destruct (E eq_refl) as [-> ->].
  repeat split.
Defined.

(* ================================================================== *)
(** * Quoted strings in the page text *)

Lemma quote_class_matches (a : ascii) :
  class_matches true false quote_class a = is_quote a.
Proof.
  pose proof (non_quote_class a) as H. unfold class_matches in *.
  simpl in *. destruct (is_quote a), (_ || _); simpl in *;
    congruence.
Qed.

Lemma char_eq_question (b : ascii) : char_eq true b "?" = Ascii.eqb b "?".
Proof. all_ascii b. Qed.

Lemma eat_dot (w : string) : eat true "." w = Some "" -> w = ".".
Proof.
  intros H. apply eat_char in H as (b & -> & H).
  rewrite char_eq_dot in H. now apply Ascii.eqb_eq in H as ->.
Qed.

Lemma eat_question (w : string) : eat true "?" w = Some "" -> w = "?".
Proof.
  intros H. apply eat_char in H as (b & -> & H).
  rewrite char_eq_question in H. now apply Ascii.eqb_eq in H as ->.
Qed.

Lemma link_pattern_sound (extension w : string) (c : caps) :
  matches true (ExtractEmbeddedVideos.link_pattern extension) w [] c ->
  exists q1 stem e query q2,
    w = String q1 (stem +++ "." +++ e +++ query) +++ String q2 ""
    /\ is_quote q1 = true /\ is_quote q2 = true
    /\ all_chars not_quote stem = true
    /\ lower e = lower extension
    /\ (query = ""
        \/ exists qs, query = "?" +++ qs /\ all_chars not_quote qs = true)
    /\ group c 1 = stem +++ "." +++ e +++ query.
Proof.
  unfold ExtractEmbeddedVideos.link_pattern. cbn [RSeqs]. intros H.
  apply matches_seq_inv in H as (w1 & r1 & c1 & -> & H1 & H).
  apply matches_seq_inv in H as (w2 & w3 & c2 & -> & H2 & H3).
  apply matches_class_inv in H1 as (q1 & -> & Hq1 & ->).
  apply matches_class_inv in H3 as (q2 & -> & Hq2 & ->).
  rewrite quote_class_matches in Hq1, Hq2.
  apply matches_group_inv in H2 as (c3 & H2 & ->).
  apply matches_seq_inv in H2 as (stem & r2 & c4 & E2 & Hs & H2).
  apply matches_seq_inv in H2 as (wd & r3 & c5 & E3 & Hd & H2).
  apply matches_seq_inv in H2 as (e & query & c6 & E4 & He & Hq).
  apply matches_star_class_inv in Hs as [-> Hs].
  apply matches_lit_inv in Hd as [Hd ->]. apply eat_dot in Hd as ->.
  apply matches_lit_inv in He as [He ->]. apply eat_lower in He.
  rewrite all_non_quote in Hs.
  assert (Hquery : query = ""
                   \/ exists qs, query = "?" +++ qs
                                 /\ all_chars not_quote qs = true).
  { apply matches_alt_inv in Hq as [Hq|Hq].
    - apply matches_group_inv in Hq as (c7 & Hq & _).
      apply matches_seq_inv in Hq as (wq & qs & c8 & -> & Hq1' & Hq2').
      apply matches_lit_inv in Hq1' as [Hq1' _].
      apply eat_question in Hq1' as ->.
      apply matches_star_class_inv in Hq2' as [_ Hq2'].
      rewrite all_non_quote in Hq2'. right. now exists qs.
    - apply matches_lit_inv in Hq as [Hq _]. simpl in Hq.
      injection Hq as ->. now left. }
  exists q1, stem, e, query, q2. subst. simpl.
  repeat split; auto.
Qed.

(** X20.  A URL that pass 4 of [extract_embedded_videos.py] appends comes
    from a string of the page text between two quotes: a possibly empty
    run of characters other than quotes, a dot, one of the nine
    extensions in any letter case and, optionally, a question mark with
    a run of characters other than quotes; the string is taken as it is
    when it starts with [http://] or [https://] and joined to the final
    URL of the page otherwise. *)
Theorem embedded_text_candidate (base_url text : string)
        (urls urls' : list string) (u : string) :
  ExtractEmbeddedVideos.from_text base_url text urls = Return urls' ->
  In u urls' ->
  In u urls
  \/ exists extension q1 stem e query q2 pre post,
       In extension ExtractEmbeddedVideos.VIDEO_EXTENSIONS
       /\ text = pre +++ String q1 (stem +++ "." +++ e +++ query)
                     +++ String q2 post
       /\ is_quote q1 = true /\ is_quote q2 = true
       /\ all_chars not_quote stem = true
       /\ lower e = extension
       /\ (query = ""
           \/ exists qs, query = "?" +++ qs /\ all_chars not_quote qs = true)
       /\ absolute base_url (stem +++ "." +++ e +++ query) = Return u.
Proof.
  intros H Hu. unfold ExtractEmbeddedVideos.from_text in H.
  pose (Q := fun (extension : string) (u : string) =>
               exists m,
                 In m (finditer true
                         (ExtractEmbeddedVideos.link_pattern extension) text)
                 /\ absolute base_url (group (groups m) 1) = Return u).
  assert (R : In u urls \/ exists extension,
                 In extension ExtractEmbeddedVideos.VIDEO_EXTENSIONS
                 /\ Q extension u).
  { refine (for_each_In_inv _ Q _ _ _ _ _ H Hu).
    clear. intros extension s0 s1 u Hb Hu.
    assert (R : In u s0 \/ exists t,
                   In t (findall true 2
                           (ExtractEmbeddedVideos.link_pattern extension) text)
                   /\ absolute base_url (nth 0 t "") = Return u).
    { refine (for_each_In_inv
                _ (fun t u => absolute base_url (nth 0 t "") = Return u)
                _ _ _ _ _ Hb Hu).
      clear. intros t s0 s1 u Hb Hu.
      exact (append_result_inv _ _ _ u Hb Hu). }
    destruct R as [Hin|(t & Ht & Hj)]; [now left|]. right.
    unfold findall in Ht. apply in_map_iff in Ht as (m & <- & Hm).
    now exists m. }
  destruct R as [Hin|(extension & He & m & Hm & Hj)]; [now left|right].
  apply scan_sound in Hm as (pre & post & Ht & Hm).
  apply link_pattern_sound in Hm
    as (q1 & stem & e & query & q2 & Hw & Hq1 & Hq2 & Hs & Hl & Hq & Hg).
  exists extension, q1, stem, e, query, q2, pre, post.
  rewrite Hg in Hj. repeat split; auto.
  - rewrite Ht, Hw. simpl. rewrite !append_assoc. reflexivity.
  - rewrite Hl. simpl in He.
    repeat (destruct He as [<-|He]; [reflexivity|]). contradiction.
Qed.

Lemma embedded_text_candidate_witness :
  In "https://example.org/meetings/clip.TS?x=1" []
  \/ exists extension q1 stem e query q2 pre post,
       In extension ExtractEmbeddedVideos.VIDEO_EXTENSIONS
       /\ "play('clip.TS?x=1')"
          = pre +++ String q1 (stem +++ "." +++ e +++ query)
                +++ String q2 post
       /\ is_quote q1 = true /\ is_quote q2 = true
       /\ all_chars not_quote stem = true
       /\ lower e = extension
       /\ (query = ""
           \/ exists qs, query = "?" +++ qs /\ all_chars not_quote qs = true)
       /\ absolute Pages.meeting (stem +++ "." +++ e +++ query)
          = Return "https://example.org/meetings/clip.TS?x=1".
Proof.
  apply (embedded_text_candidate
           Pages.meeting "play('clip.TS?x=1')" []
           ["https://example.org/meetings/clip.TS?x=1"]).
  - vm_compute. reflexivity.
  - now left.
Defined.

(* ================================================================== *)
(** * The library models on examples

    Values of [urllib.parse.urljoin], [re.findall] and [re.finditer] and of
    [list(set(...))] on small integers with the same hashes, as CPython 3.11
    computes them. *)

Example urljoin_examples :
  map (fun '(base, ref) => UrlParse.urljoin base ref)
      [("https://site.org/events/1", "/clip.mp4");
       ("https://site.org/events/1?x=1", "../a/./b.mp4?q#f");
       ("https://site.org/events/1", "HTTP://cdn.example.com/v.mp4");
       ("https://site.org/events/1", "https://x.org/a.mp4?");
       ("https://site.org/a/b/c", "..");
       ("https://site.org/a/b/c", "//cdn/x;p?q");
       ("https://site.org/a/b/c;pp?qq#ff", "?z");
       ("https://site.org/a/b/c;pp?qq#ff", ";z");
       ("https://site.org/a//b/c", "d//e/../f");
       ("https://site.org", " x.mp4");
       ("https://site.org/a/", "mailto:x@y");
       ("http://a/b/c/d;p?q", "g;x=1/../y");
       ("http://a/b/c/d;p?q", "http:x");
       ("http://a", "media/a.mp4")]
  = map Return
      ["https://site.org/clip.mp4";
       "https://site.org/a/b.mp4?q#f";
       "HTTP://cdn.example.com/v.mp4";
       "https://x.org/a.mp4";
       "https://site.org/a/";
       "https://cdn/x;p?q";
       "https://site.org/a/b/c;pp?z";
       "https://site.org/a/b/;z";
       "https://site.org/a/b/d/f";
       "https://site.org/x.mp4";
       "mailto:x@y";
       "http://a/b/c/y";
       "http://a/b/c/x";
       "http://a/media/a.mp4"].
Proof. vm_compute. reflexivity. Qed.

Example json_pattern_examples :
  map (findall true 6 ExtractEmbeddedVideos.json_pattern)
      ["'videoUrl':'a.mpd' 'url' : 'q.mp4x' 'url':'z.mp4'";
       "'urlx':'a.mp4'";
       "'src':'.mp4'";
       "'src':'a.mp4.mp4'"]
  = [[["'"; "'"; "'"; "a.mpd"; "mpd"; "'"];
      ["'"; "'"; "'"; "z.mp4"; "mp4"; "'"]];
     [];
     [];
     [["'"; "'"; "'"; "a.mp4.mp4"; "mp4"; "'"]]].
Proof. vm_compute. reflexivity. Qed.

Example video_extensions_examples :
  map (fun m => strip is_quote (group0 m))
      (finditer false ExtractVideoUrls.video_extensions
         "<a href='https://x.org/a.mp4'>x</a> http://y/b.mov and https://z/c.mp4.webm' https://q/d.mp4?x=1'")
  = ["https://x.org/a.mp4"; "http://y/b.mov "; "https://z/c.mp4.webm"].
Proof. vm_compute. reflexivity. Qed.

Example link_pattern_examples :
  map (fun extension =>
         findall true 2 (ExtractEmbeddedVideos.link_pattern extension)
                 "<a href='https://x.org/a.mp4'>x</a> 'b.MP4?x=1' 'c.ts' 'd.tsx' '.ts?'")
      ["mp4"; "ts"]
  = [[["https://x.org/a.mp4"; ""]; ["b.MP4?x=1"; "?x=1"]];
     [["c.ts"; ""]; [".ts?"; "?"]]].
Proof. vm_compute. reflexivity. Qed.

(** With the hashes 7, 15, 2 and 5, as for the integers 7, 15, 2 and 5 in
    CPython: [list(set([7, 15]))] is [[15, 7]], [list(set([15, 7]))] is
    [[7, 15]], [list(set([7, 2, 15, 7, 5]))] is [[2, 15, 5, 7]]. *)
Example cpython_set_examples :
  let hash s :=
    if String.eqb s "a" then 7%Z
    else if String.eqb s "b" then 15%Z
    else if String.eqb s "c" then 2%Z
    else 5%Z in
  CPythonSet.to_list hash ["a"; "b"] = ["b"; "a"]
  /\ CPythonSet.to_list hash ["b"; "a"] = ["a"; "b"]
  /\ CPythonSet.to_list hash ["a"; "c"; "b"; "a"; "d"] = ["c"; "b"; "d"; "a"].
Proof. vm_compute. repeat split. Qed.
